(** * Real-time synchronisation layer of the collaborative task manager

    A shallow embedding of
    - the View Reconciler: src/components/ProjectDetail.tsx, with the types
      of src/types/index.ts and the REST client of src/services/api.ts;
    - the Client Event Bus: frontend/src/services/socket.ts and
      frontend/src/hooks/useSocket.ts;
    - the Mutation Pipeline: the task routes (mounted at /api/tasks), the
      project routes of backend/routes/projects.js and the pre-save hook of
      the Project model;
    followed by the properties the design document states about them.

    Identifiers (ObjectIds) are strings.  A route handler is run as one
    uninterrupted sequence of steps against the database. *)

From stdpp Require Import base option list gmap strings sorting.

Open Scope string_scope.
Open Scope list_scope.

(** * Entities, as they travel on the wire *)

(** A mongoose reference field.  In the database and in a freshly loaded
    document it is an ObjectId (serialised as its hex string); [populate]
    replaces it by the referenced document, or by [null] when that document
    does not exist. *)
Inductive Ref (A : Type) : Type :=
| Unpopulated (oid : string)
| Populated (doc : option A).
Arguments Unpopulated {A} oid.
Arguments Populated {A} doc.

Definition is_populated {A} (r : Ref A) : bool :=
  match r with Populated _ => true | Unpopulated _ => false end.

Inductive Status := Todo | InProgress | Done.
Inductive Priority := Low | Medium | High.

#[global] Instance Status_eq_dec : EqDecision Status.
Proof. solve_decision. Defined.
#[global] Instance Priority_eq_dec : EqDecision Priority.
Proof. solve_decision. Defined.

(** The projection of a user that [populate(_, 'name email avatar')] yields. *)
Module User.
Record t := mk { _id : string; name : string; email : string; avatar : string }.
End User.

(** The projection of a project that [populate('project', 'name color')] yields. *)
Module ProjectSummary.
Record t := mk { _id : string; name : string; color : string }.
End ProjectSummary.

(** A project, with the references the project routes populate. *)
Module Project.
Record t := mk {
  _id : string;
  name : string;
  description : option string;
  owner : Ref User.t;
  members : list (Ref User.t);
  color : string;
}.
End Project.

(** A task.  src/types/index.ts declares [project : Project],
    [assignee? : User] and [createdBy : User]; what these fields hold at run
    time is what the route that produced the entity populated, so they are
    references here.  Of the two timestamps only [createdAt], by which the
    task list is sorted, is kept, as a number. *)
Module Task.
Record t := mk {
  _id : string;
  title : string;
  description : option string;
  status : Status;
  priority : Priority;
  assignee : option (Ref User.t);
  project : Ref ProjectSummary.t;
  dueDate : option string;
  tags : list string;
  createdBy : Ref User.t;
  createdAt : nat;
}.
End Task.

#[global] Instance Ref_eq_dec {A} `{EqDecision A} : EqDecision (Ref A).
Proof. solve_decision. Defined.
#[global] Instance User_eq_dec : EqDecision User.t.
Proof. solve_decision. Defined.
#[global] Instance ProjectSummary_eq_dec : EqDecision ProjectSummary.t.
Proof. solve_decision. Defined.
#[global] Instance Project_eq_dec : EqDecision Project.t.
Proof. solve_decision. Defined.
#[global] Instance Task_eq_dec : EqDecision Task.t.
Proof. solve_decision. Defined.

(** The identifiers of a task list, in list order. *)
Definition ids (l : list Task.t) : list string := Task._id <$> l.

(** [SocketEvents] of src/types/index.ts: the payload of each event kind. *)
Inductive SocketEvent :=
| TaskCreated (task : Task.t)
| TaskUpdated (task : Task.t)
| TaskDeleted (taskId projectId : string)
| ProjectCreated (project : Project.t)
| ProjectUpdated (project : Project.t)
| ProjectDeleted (projectId : string)
| ProjectMemberAdded (project : Project.t) (newMember : User.t)
| ProjectMemberRemoved (project : Project.t) (removedMemberId : string).

Definition kind (e : SocketEvent) : string :=
  match e with
  | TaskCreated _ => "task-created"
  | TaskUpdated _ => "task-updated"
  | TaskDeleted _ _ => "task-deleted"
  | ProjectCreated _ => "project-created"
  | ProjectUpdated _ => "project-updated"
  | ProjectDeleted _ => "project-deleted"
  | ProjectMemberAdded _ _ => "project-member-added"
  | ProjectMemberRemoved _ _ => "project-member-removed"
  end.

(** * View Reconciler: src/components/ProjectDetail.tsx *)

(** The outcome of an awaited REST call: the promise resolves with the
    response body (2xx) or rejects (network error, 4xx, 5xx). *)
Inductive ApiResult (A : Type) : Type :=
| Resolved (data : A)
| Rejected (error : string).
Arguments Resolved {A} data.
Arguments Rejected {A} error.

(** [CreateTaskData] and [UpdateTaskData] of src/types/index.ts. *)
Record CreateTaskData := {
  ct_title : string;
  ct_description : option string;
  ct_project : string;
  ct_status : option Status;
  ct_priority : option Priority;
  ct_assignee : option string;
  ct_dueDate : option string;
  ct_tags : option (list string);
}.

Record UpdateTaskData := {
  ut_title : option string;
  ut_description : option string;
  ut_status : option Status;
  ut_priority : option Priority;
  ut_assignee : option string;
  ut_dueDate : option string;
  ut_tags : option (list string);
}.

(** [tasksAPI] of src/services/api.ts, as far as the project view calls it. *)
Record TasksAPI := {
  getProjectTasks : string → ApiResult (list Task.t);
  createTask : CreateTaskData → ApiResult Task.t;
  updateTask : string → UpdateTaskData → ApiResult Task.t;
  deleteTask : string → ApiResult unit;
}.

(** The part of the component state ([useState]) that the task handlers
    below read and write; [project], the member dialog and the filters are
    left out. *)
Record View := {
  tasks : list Task.t;
  loading : bool;
  showTaskModal : bool;
  newTask : CreateTaskData;      (* Partial<CreateTaskData>; an empty title when unset *)
  console : list string;         (* what console.error was called with *)
}.

Definition setTasks (f : list Task.t → list Task.t) (v : View) : View :=
  {| tasks := f (tasks v); loading := loading v; showTaskModal := showTaskModal v;
     newTask := newTask v; console := console v |}.
Definition setLoading (b : bool) (v : View) : View :=
  {| tasks := tasks v; loading := b; showTaskModal := showTaskModal v;
     newTask := newTask v; console := console v |}.
Definition setShowTaskModal (b : bool) (v : View) : View :=
  {| tasks := tasks v; loading := loading v; showTaskModal := b;
     newTask := newTask v; console := console v |}.
Definition setNewTask (n : CreateTaskData) (v : View) : View :=
  {| tasks := tasks v; loading := loading v; showTaskModal := showTaskModal v;
     newTask := n; console := console v |}.
Definition console_error (msg : string) (v : View) : View :=
  {| tasks := tasks v; loading := loading v; showTaskModal := showTaskModal v;
     newTask := newTask v; console := console v ++ [msg] |}.

(** JavaScript truthiness of [id], a [string | undefined]. *)
Definition truthy (id : option string) : bool :=
  match id with
  | None => false
  | Some s => bool_decide (s ≠ EmptyString)
  end.

(** The value of [task.project._id]: the identifier of a populated project,
    [undefined] ([None]) when the field still holds a bare ObjectId string.
    On [null] the property access throws a TypeError, see [guard]. *)
Definition project_id (task : Task.t) : option string :=
  match Task.project task with
  | Populated (Some p) => Some (ProjectSummary._id p)
  | _ => None
  end.

(** [task.project._id === id].  When [task.project] is [null] the expression
    throws before [setTasks] is reached, so the handler has no effect. *)
Definition guard (id : option string) (task : Task.t) : bool :=
  match Task.project task with
  | Populated None => false
  | _ => bool_decide (project_id task = id)
  end.

(** The functional updates handed to [setTasks]. *)

(* prev => prev.some(t => t._id === task._id) ? prev : [task, ...prev] *)
Definition exists_in (task : Task.t) (prev : list Task.t) : bool :=
  existsb (λ t, bool_decide (Task._id t = Task._id task)) prev.

Definition prepend_if_absent (task : Task.t) (prev : list Task.t) : list Task.t :=
  if exists_in task prev then prev else task :: prev.

(* prev => prev.map(t => t._id === taskId ? updated : t) *)
Definition replace_by_id (taskId : string) (updated : Task.t) (prev : list Task.t)
  : list Task.t :=
  (λ t, if bool_decide (Task._id t = taskId) then updated else t) <$> prev.

(* prev => prev.filter(t => t._id !== taskId) *)
Definition remove_by_id (taskId : string) (prev : list Task.t) : list Task.t :=
  filter (λ t, Task._id t ≠ taskId) prev.

(** The three [useSocket] task handlers (lines 75-90), as updates of the
    task list of a view of project [id]. *)
Definition on_task_created (id : option string) (task : Task.t)
  : list Task.t → list Task.t :=
  if guard id task then prepend_if_absent task else λ prev, prev.

Definition on_task_updated (id : option string) (task : Task.t)
  : list Task.t → list Task.t :=
  if guard id task then replace_by_id (Task._id task) task else λ prev, prev.

Definition on_task_deleted (id : option string) (taskId projectId : string)
  : list Task.t → list Task.t :=
  if bool_decide (Some projectId = id) then remove_by_id taskId else λ prev, prev.

(** What an inbound event does to the task list.  The project events only
    touch [project], which is not part of [View]. *)
Definition on_event (id : option string) (e : SocketEvent)
  : list Task.t → list Task.t :=
  match e with
  | TaskCreated task => on_task_created id task
  | TaskUpdated task => on_task_updated id task
  | TaskDeleted taskId projectId => on_task_deleted id taskId projectId
  | _ => λ prev, prev
  end.

Definition is_task_event (e : SocketEvent) : bool :=
  match e with
  | TaskCreated _ | TaskUpdated _ | TaskDeleted _ _ => true
  | _ => false
  end.

(** For a task event, the project identifier the handler compares with [id]. *)
Definition event_project (e : SocketEvent) : option string :=
  match e with
  | TaskCreated task | TaskUpdated task => project_id task
  | TaskDeleted _ projectId => Some projectId
  | _ => None
  end.

Definition receive (id : option string) (e : SocketEvent) (v : View) : View :=
  setTasks (on_event id e) v.

(** [fetchTasks] (lines 59-72), at the moment the request settles. *)
Definition fetchTasks (api : TasksAPI) (id : option string) (v : View) : View :=
  match id with
  | Some pid =>
      if truthy id then
        match getProjectTasks api pid with
        | Resolved data => setLoading false (setTasks (λ _, data) v)
        | Rejected error =>
            setLoading false (console_error ("Failed to fetch tasks:" +:+ error) v)
        end
      else v
  | None => v
  end.

Definition blank_form (id : string) : CreateTaskData :=
  {| ct_title := EmptyString; ct_description := Some EmptyString; ct_project := id;
     ct_status := Some Todo; ct_priority := Some Medium; ct_assignee := None;
     ct_dueDate := None; ct_tags := Some [] |}.

(** [handleCreateTask] (lines 110-136). *)
Definition create_payload (id : string) (form : CreateTaskData) : CreateTaskData :=
  {| ct_title := ct_title form;
     ct_description := Some (default EmptyString (ct_description form));
     ct_project := id;
     ct_status := Some (default Todo (ct_status form));
     ct_priority := Some (default Medium (ct_priority form));
     ct_assignee := ct_assignee form;
     ct_dueDate := ct_dueDate form;
     ct_tags := Some (default [] (ct_tags form)) |}.

Definition handleCreateTask (api : TasksAPI) (id : option string) (v : View) : View :=
  match id with
  | Some pid =>
      if truthy id && truthy (Some (ct_title (newTask v))) then
        match createTask api (create_payload pid (newTask v)) with
        | Resolved task =>
            setNewTask (blank_form pid)
              (setShowTaskModal false (setTasks (prepend_if_absent task) v))
        | Rejected error => console_error ("Failed to create task:" +:+ error) v
        end
      else v
  | None => v
  end.

(** [handleUpdateTask] (lines 138-146). *)
Definition handleUpdateTask (api : TasksAPI) (taskId : string)
    (updates : UpdateTaskData) (v : View) : View :=
  match updateTask api taskId updates with
  | Resolved updated => setTasks (replace_by_id taskId updated) v
  | Rejected error => console_error ("Failed to update task:" +:+ error) v
  end.

(** [handleDeleteTask] (lines 148-156); [confirmed] is the answer of
    [window.confirm]. *)
Definition handleDeleteTask (api : TasksAPI) (confirmed : bool) (taskId : string)
    (v : View) : View :=
  if confirmed then
    match deleteTask api taskId with
    | Resolved _ => setTasks (remove_by_id taskId) v
    | Rejected error => console_error ("Failed to delete task:" +:+ error) v
    end
  else v.

(** [unchanged v v']: the component state of [v'] is that of [v]; only the
    console may have grown. *)
Definition unchanged (v v' : View) : Prop :=
  tasks v' = tasks v ∧ loading v' = loading v
  ∧ showTaskModal v' = showTaskModal v ∧ newTask v' = newTask v.

(** What the view relies on from the server behind [tasksAPI]: the list a
    fetch resolves with holds every task once, and an update resolves with
    the task that was asked for. *)
Record well_behaved (api : TasksAPI) : Prop := {
  fetch_distinct : ∀ projectId data,
    getProjectTasks api projectId = Resolved data → NoDup (ids data);
  update_same_id : ∀ taskId updates updated,
    updateTask api taskId updates = Resolved updated → Task._id updated = taskId;
}.

(** * Client Event Bus: frontend/src/services/socket.ts *)

Section Bus.
(** [S] is the application state the listeners act on, [D] the data an
    event carries.  The listeners of this repository are the wrappers
    [useSocket] registers; they call React state setters and never touch
    the registry while an event is dispatched.  [emit] below is the
    dispatch to such listeners; the dispatch to listeners that call [on],
    [off] or [disconnect] while they run is [live_emit], further down, which
    walks the array as [forEach] does and agrees with [emit] on listeners
    that leave the service alone. *)
Context {S D : Type}.

(** How a call of a listener ends: it returns, or it throws after having
    brought the application state to [s]. *)
Inductive Completion :=
| Returned (s : S)
| Threw (s : S) (error : string).

(** A listener is a JavaScript function object: [cb_id] is its identity
    (what [indexOf] compares), [cb_run] its behaviour. *)
Record Callback := { cb_id : nat; cb_run : D → S → Completion }.

(** The socket.io connection, as far as the service uses it. *)
Record Socket := { connected : bool; sent : list (string * string) }.

Record SocketService := {
  socket : option Socket;
  listeners : gmap string (list Callback);
}.

(** [this.listeners.get(event)], with [undefined] read as no listener. *)
Definition registered (svc : SocketService) (event : string) : list Callback :=
  default [] (listeners svc !! event).

(** [on] (lines 97-102). *)
Definition on (event : string) (callback : Callback) (svc : SocketService)
  : SocketService :=
  {| socket := socket svc;
     listeners := <[event := (registered svc event ++ [callback])]> (listeners svc) |}.

(* eventListeners.indexOf(callback), then splice(index, 1) *)
Fixpoint remove_first (callback : Callback) (l : list Callback) : list Callback :=
  match l with
  | [] => []
  | c :: l' =>
      if bool_decide (cb_id c = cb_id callback) then l'
      else c :: remove_first callback l'
  end.

(** [off] (lines 104-112). *)
Definition off (event : string) (callback : Callback) (svc : SocketService)
  : SocketService :=
  match listeners svc !! event with
  | Some eventListeners =>
      {| socket := socket svc;
         listeners := <[event := remove_first callback eventListeners]> (listeners svc) |}
  | None => svc
  end.

(** Registering the callbacks [l] for [event], one [on] after the other. *)
Definition on_all (event : string) (l : list Callback) (svc : SocketService)
  : SocketService :=
  foldl (λ svc callback, on event callback svc) svc l.

(** [disconnect] (lines 36-42). *)
Definition disconnect (svc : SocketService) : SocketService :=
  {| socket := None; listeners := ∅ |}.

(** [joinProject] and [leaveProject] (lines 83-94). *)
Definition send (message : string) (projectId : string) (svc : SocketService)
  : SocketService :=
  match socket svc with
  | Some sock =>
      {| socket := Some {| connected := connected sock;
                           sent := sent sock ++ [(message, projectId)] |};
         listeners := listeners svc |}
  | None => svc
  end.
Definition joinProject := send "join-project".
Definition leaveProject := send "leave-project".

(** The observable course of one dispatch: the application state, the
    lines written by [console.error], and the calls made, in order. *)
Record Dispatch := {
  app : S;
  errors : list string;
  invoked : list (nat * D);
}.

(* try { callback(data) } catch (error) { console.error(...) } *)
Definition call (event : string) (data : D) (d : Dispatch) (callback : Callback)
  : Dispatch :=
  match cb_run callback data (app d) with
  | Returned s =>
      {| app := s; errors := errors d;
         invoked := invoked d ++ [(cb_id callback, data)] |}
  | Threw s error =>
      {| app := s;
         errors := errors d ++ ["Error in socket event listener for " +:+ event +:+ ":" +:+ error];
         invoked := invoked d ++ [(cb_id callback, data)] |}
  end.

(** [emit] (lines 114-125). *)
Definition emit (event : string) (data : D) (svc : SocketService) (s : S)
  : Dispatch :=
  let start := {| app := s; errors := []; invoked := [] |} in
  match listeners svc !! event with
  | Some eventListeners => foldl (call event data) start eventListeners
  | None => start
  end.

(** The socket handlers of [setupEventListeners] (lines 44-80) pass what
    the server pushes on to [emit], under the same event name. *)
Definition deliver (event : string) (data : D) (svc : SocketService) (s : S)
  : Dispatch :=
  emit event data svc s.

(** Whether a listener throws when called with [data] in state [s]. *)
Definition throws (callback : Callback) (data : D) (s : S) : bool :=
  match cb_run callback data s with
  | Threw _ _ => true
  | Returned _ => false
  end.

Definition after (c : Completion) : S :=
  match c with Returned s | Threw s _ => s end.

(** The application state after the listeners [l] have run one after the
    other, whether they returned or threw. *)
Definition run_all (data : D) (l : list Callback) (s : S) : S :=
  foldl (λ s callback, after (cb_run callback data s)) s l.

(** The listeners among [l] that throw, each called in the state its
    predecessors have left. *)
Fixpoint thrown (data : D) (l : list Callback) (s : S) : list nat :=
  match l with
  | [] => []
  | callback :: l' =>
      (if throws callback data s then [cb_id callback] else [])
      ++ thrown data l' (after (cb_run callback data s))
  end.

End Bus.

Arguments Callback : clear implicits.
Arguments SocketService : clear implicits.
Arguments Dispatch : clear implicits.
Arguments Completion : clear implicits.

(** * The bus while an event is dispatched: listeners that use the service *)

Section Live.
(** A listener is free to call the service while it runs.  Of the public
    methods, [on], [off] and [disconnect] touch the registry; [off] and [on]
    change the very array that [emit] is walking with [forEach] when they
    are called for the event being dispatched, and [disconnect] empties the
    map but not that array. *)
Context {S D : Type}.

(** The calls a listener makes on the service, and a listener that makes
    some: a callback, and the calls it makes, in order, when it is run on
    [data] in the state [s] (whether it then returns or throws). *)
Inductive Command :=
| CallOn (event : string) (callback : Reactive)
| CallOff (event : string) (callback : Callback S D)
| CallDisconnect
with Reactive :=
| reacting (base : Callback S D) (calls : D → S → list Command).

Definition base_of (r : Reactive) : Callback S D :=
  match r with reacting base _ => base end.
Definition calls_of (r : Reactive) : D → S → list Command :=
  match r with reacting _ calls => calls end.

(** A listener that leaves the service alone. *)
Definition passive_listener (callback : Callback S D) : Reactive :=
  reacting callback (λ _ _, []).

(** [this.listeners], holding listeners of either kind, is a
    [gmap string (list Reactive)]. *)

Definition listening (reg : gmap string (list Reactive)) (event : string)
  : list Reactive :=
  default [] (reg !! event).

(* indexOf(callback), then splice(index, 1) *)
Fixpoint splice_first (callback : Callback S D) (l : list Reactive) : list Reactive :=
  match l with
  | [] => []
  | c :: l' =>
      if bool_decide (cb_id (base_of c) = cb_id callback) then l'
      else c :: splice_first callback l'
  end.

(** [on], [off] and [disconnect] on the registry (lines 97-112 and 41). *)
Definition live_on (event : string) (callback : Reactive)
    (reg : gmap string (list Reactive))
  : gmap string (list Reactive) :=
  <[event := listening reg event ++ [callback]]> reg.

Definition live_off (event : string) (callback : Callback S D)
    (reg : gmap string (list Reactive))
  : gmap string (list Reactive) :=
  match reg !! event with
  | Some eventListeners => <[event := splice_first callback eventListeners]> reg
  | None => reg
  end.

Definition live_on_all (event : string) (l : list Reactive)
    (reg : gmap string (list Reactive))
  : gmap string (list Reactive) :=
  foldl (λ reg callback, live_on event callback reg) reg l.

(** The state of [emit] between two calls of [forEach]: the array it
    walks, whether the registry still holds that very array under the event
    ([disconnect] lets go of it), the registry, and the course so far. *)
Record Walk := {
  walked : list Reactive;
  linked : bool;
  registry : gmap string (list Reactive);
  course : Dispatch S D;
}.

(** One call of a listener on the service, during the walk for [event]. *)
Definition perform (event : string) (w : Walk) (c : Command) : Walk :=
  match c with
  | CallOn e callback =>
      {| walked := if linked w && bool_decide (e = event)
                   then walked w ++ [callback] else walked w;
         linked := linked w;
         registry := live_on e callback (registry w);
         course := course w |}
  | CallOff e callback =>
      {| walked := if linked w && bool_decide (e = event)
                   then splice_first callback (walked w) else walked w;
         linked := linked w;
         registry := live_off e callback (registry w);
         course := course w |}
  | CallDisconnect =>
      {| walked := walked w; linked := false; registry := ∅; course := course w |}
  end.

(** The step of [forEach] at index [k]: the element that is at [k] now is
    called, in a try block, and an index the array no longer has is passed
    over. *)
Definition visit (event : string) (data : D) (w : Walk) (k : nat) : Walk :=
  match walked w !! k with
  | Some callback =>
      foldl (perform event)
        {| walked := walked w; linked := linked w; registry := registry w;
           course := call event data (course w) (base_of callback) |}
        (calls_of callback data (app (course w)))
  | None => w
  end.

(** [emit] (lines 114-125): [forEach] reads the length once and visits the
    indices below it in order. *)
Definition live_emit (event : string) (data : D)
    (reg : gmap string (list Reactive)) (s : S) : Walk :=
  let start := {| app := s; errors := []; invoked := [] |} in
  match reg !! event with
  | Some eventListeners =>
      foldl (visit event data)
        {| walked := eventListeners; linked := true; registry := reg; course := start |}
        (seq 0 (length eventListeners))
  | None => {| walked := []; linked := false; registry := reg; course := start |}
  end.

(** A call that takes no listener of [event] away: [on] only appends, and
    [disconnect] leaves the array being walked as it is. *)
Definition spares (event : string) (c : Command) : Prop :=
  match c with
  | CallOff e _ => e ≠ event
  | CallOn _ _ | CallDisconnect => True
  end.

(** A listener that never unregisters a listener of [event] while it
    runs. *)
Definition steady (event : string) (r : Reactive) : Prop :=
  ∀ data s, Forall (spares event) (calls_of r data s).

End Live.

Arguments Command : clear implicits.
Arguments Reactive : clear implicits.
Arguments Walk : clear implicits.

(** * Mutation Pipeline: backend/routes/tasks.js and backend/routes/projects.js *)

(** ** The database *)

(** Documents as MongoDB stores them: references are ObjectIds, and the
    [_id] of a document is the key under which its collection holds it.
    The fields are those the routes read and write. *)
Record UserDoc := {
  ud_name : string; ud_email : string; ud_avatar : string;
}.

Record ProjectDoc := {
  pd_name : string;
  pd_description : option string;
  pd_owner : string;
  pd_members : list string;
  pd_color : string;
}.

Record TaskDoc := {
  td_title : string;
  td_description : option string;
  td_status : Status;
  td_priority : Priority;
  td_assignee : option string;
  td_project : string;
  td_dueDate : option string;
  td_tags : list string;
  td_createdBy : string;
  td_createdAt : nat;
}.

Record Database := {
  db_users : gmap string UserDoc;
  db_projects : gmap string ProjectDoc;
  db_tasks : gmap string TaskDoc;
}.

Inductive Collection := Users | Projects | Tasks.

(** ** Documents in memory, and [populate] *)

Definition user_of (k : string) (u : UserDoc) : User.t :=
  User.mk k (ud_name u) (ud_email u) (ud_avatar u).

Definition summary_of (k : string) (p : ProjectDoc) : ProjectSummary.t :=
  ProjectSummary.mk k (pd_name p) (pd_color p).

(** A document as a query returns it: every reference still an ObjectId. *)
Definition task_of (k : string) (d : TaskDoc) : Task.t :=
  Task.mk k (td_title d) (td_description d) (td_status d) (td_priority d)
    (Unpopulated <$> td_assignee d) (Unpopulated (td_project d)) (td_dueDate d)
    (td_tags d) (Unpopulated (td_createdBy d)) (td_createdAt d).

Definition project_of (k : string) (d : ProjectDoc) : Project.t :=
  Project.mk k (pd_name d) (pd_description d) (Unpopulated (pd_owner d))
    (Unpopulated <$> pd_members d) (pd_color d).

Definition populate_user (db : Database) (r : Ref User.t) : Ref User.t :=
  match r with
  | Unpopulated oid => Populated (user_of oid <$> db_users db !! oid)
  | Populated doc => Populated doc
  end.

Definition populate_summary (db : Database) (r : Ref ProjectSummary.t)
  : Ref ProjectSummary.t :=
  match r with
  | Unpopulated oid => Populated (summary_of oid <$> db_projects db !! oid)
  | Populated doc => Populated doc
  end.

(* task.populate('project', 'name color') *)
Definition populate_task_project (db : Database) (t : Task.t) : Task.t :=
  Task.mk (Task._id t) (Task.title t) (Task.description t) (Task.status t)
    (Task.priority t) (Task.assignee t) (populate_summary db (Task.project t))
    (Task.dueDate t) (Task.tags t) (Task.createdBy t) (Task.createdAt t).

(* task.populate('assignee', 'name email avatar') *)
Definition populate_task_assignee (db : Database) (t : Task.t) : Task.t :=
  Task.mk (Task._id t) (Task.title t) (Task.description t) (Task.status t)
    (Task.priority t) (populate_user db <$> Task.assignee t) (Task.project t)
    (Task.dueDate t) (Task.tags t) (Task.createdBy t) (Task.createdAt t).

(* task.populate('createdBy', 'name email avatar') *)
Definition populate_task_createdBy (db : Database) (t : Task.t) : Task.t :=
  Task.mk (Task._id t) (Task.title t) (Task.description t) (Task.status t)
    (Task.priority t) (Task.assignee t) (Task.project t)
    (Task.dueDate t) (Task.tags t) (populate_user db (Task.createdBy t))
    (Task.createdAt t).

(* project.populate('owner', 'name email avatar') *)
Definition populate_project_owner (db : Database) (p : Project.t) : Project.t :=
  Project.mk (Project._id p) (Project.name p) (Project.description p)
    (populate_user db (Project.owner p)) (Project.members p) (Project.color p).

(** Populating an array path drops the entries whose document is gone. *)
Definition populate_member (db : Database) (r : Ref User.t) : option (Ref User.t) :=
  match populate_user db r with
  | Populated None => None
  | r' => Some r'
  end.

(* project.populate('members', 'name email avatar') *)
Definition populate_project_members (db : Database) (p : Project.t) : Project.t :=
  Project.mk (Project._id p) (Project.name p) (Project.description p)
    (Project.owner p) (omap (populate_member db) (Project.members p))
    (Project.color p).

(** Whether every reference of an entity has been resolved. *)
Definition task_populated (t : Task.t) : bool :=
  is_populated (Task.project t)
  && from_option is_populated true (Task.assignee t)
  && is_populated (Task.createdBy t).

Definition project_populated (p : Project.t) : bool :=
  is_populated (Project.owner p) && forallb is_populated (Project.members p).

(** ** Requests, responses and effects *)

Inductive Body :=
| Message (message : string)
| ValidationFailed
| TaskBody (task : Task.t)
| TasksBody (tasks : list Task.t)
| ProjectBody (project : Project.t).

Record Response := { res_status : nat; res_body : Body }.

(** What a handler does to the outside world, in the order it does it. *)
Inductive Effect :=
| Saved (c : Collection) (key : string)
| Deleted (c : Collection) (key : string)
| DeletedTasksOf (project : string)
| PopulatedPath (path : string)
| Emitted (room : string) (event : SocketEvent)
| Responded (r : Response).

(** The part of a request the handlers depend on.  [req_user] is
    [req.user._id], set by the [auth] middleware; [req_valid] is
    [validationResult(req).isEmpty()]; [req_oid] is the ObjectId mongoose
    generates for a document built with [new], [req_now] the time.
    [req_email] is the sanitizer of the validation chain of the member
    route, [body('email').isEmail().normalizeEmail()] (line 201): the
    handler reads [req.body.email] after it has been replaced by its normal
    form.  The normal form is computed by express-validator, which is not
    part of the repository, so the function is a parameter of the request. *)
Record Request := {
  req_user : string;
  req_valid : bool;
  req_oid : string;
  req_now : nat;
  req_email : string → string;
}.

(** The state a handler runs in.  Every [await] of a handler is a database
    operation that may reject; [fault = Some n] makes the awaited operation
    number [n] (counted from 0) reject, [None] lets all succeed.  [trace]
    records what the handler has done so far. *)
Record World := {
  db : Database;
  fault : option nat;
  trace : list Effect;
}.

Inductive Outcome (A : Type) : Type :=
| Val (a : A)
| Exn.
Arguments Val {A} a.
Arguments Exn {A}.

(** Handlers are written in a state-and-exception monad over [World]. *)
Definition M (A : Type) : Type := World → Outcome A * World.

Definition ret {A} (a : A) : M A := λ w, (Val a, w).
Definition bind {A B} (m : M A) (k : A → M B) : M B := λ w,
  match m w with
  | (Val a, w') => k a w'
  | (Exn, w') => (Exn, w')
  end.
Definition throw {A} : M A := λ w, (Exn, w).

Notation "'let*' x := m 'in' k" := (bind m (λ x, k))
  (at level 10, x name, m at level 100, k at level 200,
   format "'[v' 'let*'  x  :=  m  'in' '/' k ']'").
Notation "m ;;; k" := (bind m (λ _, k))
  (at level 100, right associativity, format "'[v' m  ;;; '/' k ']'").

Definition log (e : Effect) : M unit := λ w,
  (Val tt, {| db := db w; fault := fault w; trace := trace w ++ [e] |}).

(** An awaited database operation [op]: it rejects when its turn in the
    fault schedule has come, and otherwise reads or writes the database. *)
Definition await {A} (op : Database → Outcome A * Database) : M A := λ w,
  match fault w with
  | Some 0 => (Exn, {| db := db w; fault := None; trace := trace w |})
  | f =>
      let '(a, db') := op (db w) in
      (a, {| db := db'; fault := pred <$> f; trace := trace w |})
  end.

Definition query {A} (q : Database → A) : M A :=
  await (λ d, (Val (q d), d)).

(* io.to(room).emit(kind, payload) *)
Definition io_emit (room : string) (event : SocketEvent) : M unit :=
  log (Emitted room event).

(** [try { ... } catch (error) { res.status(500).json(...) }], and the
    response being sent. *)
Definition route (handler : M Response) (w : World) : Response * World :=
  let '(o, w') := handler w in
  let r := match o with
           | Val r => r
           | Exn => {| res_status := 500; res_body := Message "Server error" |}
           end in
  (r, {| db := db w'; fault := fault w'; trace := trace w' ++ [Responded r] |}).

Definition respond (status : nat) (body : Body) : M Response :=
  ret {| res_status := status; res_body := body |}.

(** ** Queries and writes *)

(* Project.findOne({ _id, $or: [{ owner: user }, { members: user }] }) *)
Definition find_project_of_member (id user : string) (d : Database)
  : option ProjectDoc :=
  p ← db_projects d !! id;
  if bool_decide (pd_owner p = user) || bool_decide (user ∈ pd_members p)
  then Some p else None.

(* Project.findOne({ _id, owner: user }) *)
Definition find_project_of_owner (id user : string) (d : Database)
  : option ProjectDoc :=
  p ← db_projects d !! id;
  if bool_decide (pd_owner p = user) then Some p else None.

(* User.findOne({ email }) *)
Definition find_user_by_email (email : string) (d : Database)
  : option (string * UserDoc) :=
  List.find (λ '(_, u), bool_decide (ud_email u = email)) (map_to_list (db_users d)).

Definition newer_first (a b : Task.t) : Prop :=
  (Task.createdAt b ≤ Task.createdAt a)%nat.
#[global] Instance newer_first_dec a b : Decision (newer_first a b).
Proof. unfold newer_first. apply _. Defined.

(* Task.find({ project }).populate('assignee', ..).populate('createdBy', ..)
       .sort({ createdAt: -1 }) *)
Definition find_project_tasks (projectId : string) (d : Database) : list Task.t :=
  merge_sort newer_first
    ((λ '(k, t), populate_task_createdBy d (populate_task_assignee d (task_of k t)))
       <$> filter (λ '(_, t), td_project t = projectId) (map_to_list (db_tasks d))).

Definition set_tasks (ts : gmap string TaskDoc) (d : Database) : Database :=
  {| db_users := db_users d; db_projects := db_projects d; db_tasks := ts |}.
Definition set_projects (ps : gmap string ProjectDoc) (d : Database) : Database :=
  {| db_users := db_users d; db_projects := ps; db_tasks := db_tasks d |}.

(** [save()] of a document built with [new]: an insert, refused when the
    key is taken. *)
Definition insert_task (k : string) (t : TaskDoc) : M unit :=
  await (λ d, match db_tasks d !! k with
              | None => (Val tt, set_tasks (<[k := t]> (db_tasks d)) d)
              | Some _ => (Exn, d)
              end) ;;;
  log (Saved Tasks k).

Definition insert_project (k : string) (p : ProjectDoc) : M unit :=
  await (λ d, match db_projects d !! k with
              | None => (Val tt, set_projects (<[k := p]> (db_projects d)) d)
              | Some _ => (Exn, d)
              end) ;;;
  log (Saved Projects k).

(** [save()] of a document that a query returned: an update. *)
Definition update_task (k : string) (t : TaskDoc) : M unit :=
  await (λ d, (Val tt, set_tasks (<[k := t]> (db_tasks d)) d)) ;;;
  log (Saved Tasks k).

Definition update_project (k : string) (p : ProjectDoc) : M unit :=
  await (λ d, (Val tt, set_projects (<[k := p]> (db_projects d)) d)) ;;;
  log (Saved Projects k).

(* Task.findByIdAndDelete(id) *)
Definition delete_task (k : string) : M unit :=
  await (λ d, (Val tt, set_tasks (delete k (db_tasks d)) d)) ;;;
  log (Deleted Tasks k).

(* Project.findByIdAndDelete(id) *)
Definition delete_project (k : string) : M unit :=
  await (λ d, (Val tt, set_projects (delete k (db_projects d)) d)) ;;;
  log (Deleted Projects k).

(* Task.deleteMany({ project }) *)
Definition delete_tasks_of (project : string) : M unit :=
  await (λ d, (Val tt,
    set_tasks (filter (λ '(_, t), td_project t ≠ project) (db_tasks d)) d)) ;;;
  log (DeletedTasksOf project).

(** [await doc.populate(path, ..)]: a read. *)
Definition populate {A} (path : string) (f : Database → A → A) (doc : A) : M A :=
  let* doc' := query (λ d, f d doc) in
  log (PopulatedPath path) ;;;
  ret doc'.

Definition populate_task (t : Task.t) : M Task.t :=
  let* t := populate "project" populate_task_project t in
  let* t := populate "assignee" populate_task_assignee t in
  populate "createdBy" populate_task_createdBy t.

Definition populate_project (p : Project.t) : M Project.t :=
  let* p := populate "owner" populate_project_owner p in
  populate "members" populate_project_members p.

Definition room (projectId : string) : string := "project-" +:+ projectId.

(** ** Task routes: backend/routes/tasks.js *)

Definition not_found (message : string) : M Response := respond 404 (Message message).

(** GET /api/tasks/project/:projectId (lines 293-320). *)
Definition get_project_tasks (req : Request) (projectId : string) : M Response :=
  let* project := query (find_project_of_member projectId (req_user req)) in
  match project with
  | None => not_found "Project not found or access denied"
  | Some _ =>
      let* tasks := query (find_project_tasks projectId) in
      respond 200 (TasksBody tasks)
  end.

(* new Task({ title, description, project, status: status || 'todo', ... }) *)
Definition new_task (req : Request) (body : CreateTaskData) : TaskDoc :=
  {| td_title := ct_title body;
     td_description := ct_description body;
     td_status := default Todo (ct_status body);
     td_priority := default Medium (ct_priority body);
     td_assignee := ct_assignee body;
     td_project := ct_project body;
     td_dueDate := if truthy (ct_dueDate body) then ct_dueDate body else None;
     td_tags := default [] (ct_tags body);
     td_createdBy := req_user req;
     td_createdAt := req_now req |}.

(* assignee && !members.includes(assignee) *)
Definition foreign_assignee (assignee : option string) (p : ProjectDoc) : bool :=
  match assignee with
  | Some a => truthy assignee && bool_decide (a ∉ pd_members p)
  | None => false
  end.

(** POST /api/tasks (lines 113-181). *)
Definition post_task (req : Request) (body : CreateTaskData) : M Response :=
  if negb (req_valid req) then respond 400 ValidationFailed else
  let* projectDoc := query (find_project_of_member (ct_project body) (req_user req)) in
  match projectDoc with
  | None => not_found "Project not found or access denied"
  | Some projectDoc =>
      if foreign_assignee (ct_assignee body) projectDoc
      then respond 400 (Message "Assignee must be a member of the project")
      else
        let doc := new_task req body in
        insert_task (req_oid req) doc ;;;
        let* task := populate_task (task_of (req_oid req) doc) in
        io_emit (room (ct_project body)) (TaskCreated task) ;;;
        respond 201 (TaskBody task)
  end.

(* if (title) task.title = title; ... if (tags !== undefined) task.tags = tags; *)
Definition apply_updates (body : UpdateTaskData) (t : TaskDoc) : TaskDoc :=
  {| td_title := if truthy (ut_title body) then default EmptyString (ut_title body)
                 else td_title t;
     td_description := match ut_description body with
                       | Some d => Some d
                       | None => td_description t
                       end;
     td_status := default (td_status t) (ut_status body);
     td_priority := default (td_priority t) (ut_priority body);
     td_assignee := match ut_assignee body with
                    | Some a => Some a
                    | None => td_assignee t
                    end;
     td_project := td_project t;
     td_dueDate := match ut_dueDate body with
                   | Some due => if truthy (Some due) then Some due else None
                   | None => td_dueDate t
                   end;
     td_tags := default (td_tags t) (ut_tags body);
     td_createdBy := td_createdBy t;
     td_createdAt := td_createdAt t |}.

(** The room of [`project-${task.project._id}`] once [project] has been
    populated; reading [_id] of [null] throws. *)
Definition room_of_task (task : Task.t) : M string :=
  match Task.project task with
  | Populated None => throw
  | _ => ret ("project-" +:+ default "undefined" (project_id task))
  end.

(** PUT /api/tasks/:id (lines 186-252). *)
Definition put_task (req : Request) (id : string) (body : UpdateTaskData)
  : M Response :=
  if negb (req_valid req) then respond 400 ValidationFailed else
  let* task := query (λ d, db_tasks d !! id) in
  match task with
  | None => not_found "Task not found"
  | Some task =>
      let* project := query (find_project_of_member (td_project task) (req_user req)) in
      match project with
      | None => not_found "Task not found or access denied"
      | Some project =>
          if foreign_assignee (ut_assignee body) project
          then respond 400 (Message "Assignee must be a member of the project")
          else
            let doc := apply_updates body task in
            update_task id doc ;;;
            let* task := populate_task (task_of id doc) in
            let* r := room_of_task task in
            io_emit r (TaskUpdated task) ;;;
            respond 200 (TaskBody task)
      end
  end.

(** DELETE /api/tasks/:id (lines 257-288). *)
Definition delete_task_route (req : Request) (id : string) : M Response :=
  let* task := query (λ d, db_tasks d !! id) in
  match task with
  | None => not_found "Task not found"
  | Some task =>
      let* project := query (find_project_of_member (td_project task) (req_user req)) in
      match project with
      | None => not_found "Task not found or access denied"
      | Some _ =>
          (* Emit real-time update before deletion *)
          io_emit (room (td_project task)) (TaskDeleted id (td_project task)) ;;;
          delete_task id ;;;
          respond 200 (Message "Task deleted successfully")
      end
  end.

(** ** Project routes: backend/routes/projects.js *)

Record ProjectData := {
  pj_name : option string;
  pj_description : option string;
  pj_color : option string;
}.

(* new Project({ name, description, color: color || '#3B82F6', owner }), and
   the pre-save hook of models/Project.js that adds the owner to the members *)
Definition new_project (req : Request) (body : ProjectData) : ProjectDoc :=
  {| pd_name := default EmptyString (pj_name body);
     pd_description := pj_description body;
     pd_owner := req_user req;
     pd_members := [req_user req];
     pd_color := if truthy (pj_color body) then default EmptyString (pj_color body)
                 else "#3B82F6" |}.

(** POST /api/projects (lines 79-116). *)
Definition post_project (req : Request) (body : ProjectData) : M Response :=
  if negb (req_valid req) then respond 400 ValidationFailed else
  let doc := new_project req body in
  insert_project (req_oid req) doc ;;;
  let* project := populate_project (project_of (req_oid req) doc) in
  io_emit (room (Project._id project)) (ProjectCreated project) ;;;
  respond 201 (ProjectBody project).

Definition apply_project_updates (body : ProjectData) (p : ProjectDoc) : ProjectDoc :=
  {| pd_name := if truthy (pj_name body) then default EmptyString (pj_name body)
                else pd_name p;
     pd_description := match pj_description body with
                       | Some d => Some d
                       | None => pd_description p
                       end;
     pd_owner := pd_owner p;
     pd_members := pd_members p;
     pd_color := if truthy (pj_color body) then default EmptyString (pj_color body)
                 else pd_color p |}.

(** PUT /api/projects/:id (lines 121-164). *)
Definition put_project (req : Request) (id : string) (body : ProjectData)
  : M Response :=
  if negb (req_valid req) then respond 400 ValidationFailed else
  let* project := query (find_project_of_owner id (req_user req)) in
  match project with
  | None => not_found "Project not found or access denied"
  | Some project =>
      let doc := apply_project_updates body project in
      update_project id doc ;;;
      let* project := populate_project (project_of id doc) in
      io_emit (room (Project._id project)) (ProjectUpdated project) ;;;
      respond 200 (ProjectBody project)
  end.

(** DELETE /api/projects/:id (lines 169-194). *)
Definition delete_project_route (req : Request) (id : string) : M Response :=
  let* project := query (find_project_of_owner id (req_user req)) in
  match project with
  | None => not_found "Project not found or access denied"
  | Some _ =>
      (* Delete all tasks in the project *)
      delete_tasks_of id ;;;
      (* Emit real-time update before deletion *)
      io_emit (room id) (ProjectDeleted id) ;;;
      delete_project id ;;;
      respond 200 (Message "Project deleted successfully")
  end.

Definition with_members (members : list string) (p : ProjectDoc) : ProjectDoc :=
  {| pd_name := pd_name p; pd_description := pd_description p;
     pd_owner := pd_owner p; pd_members := members; pd_color := pd_color p |}.

(** POST /api/projects/:id/members (lines 199-249); [email] is the address
    the client has sent. *)
Definition post_member (req : Request) (id : string) (email : string) : M Response :=
  if negb (req_valid req) then respond 400 ValidationFailed else
  let* project := query (find_project_of_owner id (req_user req)) in
  match project with
  | None => not_found "Project not found or access denied"
  | Some project =>
      (* User.findOne({ email: req.body.email }), on the sanitized body *)
      let* user := query (find_user_by_email (req_email req email)) in
      match user with
      | None => not_found "User not found"
      | Some (uid, user) =>
          if bool_decide (uid ∈ pd_members project)
          then respond 400 (Message "User is already a member of this project")
          else
            let doc := with_members (pd_members project ++ [uid]) project in
            update_project id doc ;;;
            let* project := populate_project (project_of id doc) in
            io_emit (room (Project._id project))
              (ProjectMemberAdded project (user_of uid user)) ;;;
            respond 200 (ProjectBody project)
      end
  end.

(** DELETE /api/projects/:id/members/:memberId (lines 254-289). *)
Definition delete_member (req : Request) (id memberId : string) : M Response :=
  let* project := query (find_project_of_owner id (req_user req)) in
  match project with
  | None => not_found "Project not found or access denied"
  | Some project =>
      if bool_decide (memberId = pd_owner project)
      then respond 400 (Message "Cannot remove project owner")
      else
        let doc := with_members (filter (λ m, m ≠ memberId) (pd_members project))
                     project in
        update_project id doc ;;;
        let* project := populate_project (project_of id doc) in
        io_emit (room (Project._id project))
          (ProjectMemberRemoved project memberId) ;;;
        respond 200 (ProjectBody project)
  end.

(** ** The REST client seen from the browser: src/services/api.ts over the
    routes above.  axios resolves with the body on a 2xx status and rejects
    otherwise. *)

Definition start (d : Database) (f : option nat) : World :=
  {| db := d; fault := f; trace := [] |}.

Definition rejected {A} (r : Response) : ApiResult A :=
  Rejected (match res_body r with Message m => m | _ => "Request failed" end).

Definition server_api (w : World) (req : Request) : TasksAPI :=
  {| getProjectTasks projectId :=
       let r := (route (get_project_tasks req projectId) w).1 in
       match res_status r, res_body r with
       | 200, TasksBody l => Resolved l
       | _, _ => rejected r
       end;
     createTask data :=
       let r := (route (post_task req data) w).1 in
       match res_status r, res_body r with
       | 201, TaskBody t => Resolved t
       | _, _ => rejected r
       end;
     updateTask id data :=
       let r := (route (put_task req id data) w).1 in
       match res_status r, res_body r with
       | 200, TaskBody t => Resolved t
       | _, _ => rejected r
       end;
     deleteTask id :=
       let r := (route (delete_task_route req id) w).1 in
       match res_status r with
       | 200 => Resolved tt
       | _ => rejected r
       end |}.

(** * The project view in operation *)

(** The reconciliation operations of a view: the fetch that replaces the
    list, an inbound event, and the three locally initiated REST mutations,
    each answered by the server from the state [w] it is in at that moment.
    [Edit] is the user filling in the new-task form. *)
Inductive Operation :=
| Fetch (w : World) (req : Request)
| Receive (e : SocketEvent)
| Edit (form : CreateTaskData)
| Create (w : World) (req : Request)
| Update (w : World) (req : Request) (taskId : string) (updates : UpdateTaskData)
| Delete (w : World) (req : Request) (confirmed : bool) (taskId : string).

Definition step (id : option string) (v : View) (o : Operation) : View :=
  match o with
  | Fetch w req => fetchTasks (server_api w req) id v
  | Receive e => receive id e v
  | Edit form => setNewTask form v
  | Create w req => handleCreateTask (server_api w req) id v
  | Update w req taskId updates => handleUpdateTask (server_api w req) taskId updates v
  | Delete w req confirmed taskId => handleDeleteTask (server_api w req) confirmed taskId v
  end.

Definition run (id : option string) (ops : list Operation) (v : View) : View :=
  foldl (step id) v ops.

(** The events of [events] arriving one after the other. *)
Definition receive_all (id : option string) (events : list SocketEvent) (v : View)
  : View :=
  foldl (λ v e, receive id e v) v events.

(** ** One mutation, two paths *)

(** A mutation of a task as the server carries it out once: the entity it
    answers the REST call with is the entity it broadcasts, and for an
    update or a deletion its identifier is the one the call named. *)
Inductive Mutation :=
| Created (task : Task.t)
| Updated (task : Task.t)
| Removed (taskId projectId : string).

(** The broadcast of the mutation, as it comes back to the mutating client. *)
Definition echo (m : Mutation) : SocketEvent :=
  match m with
  | Created task => TaskCreated task
  | Updated task => TaskUpdated task
  | Removed taskId projectId => TaskDeleted taskId projectId
  end.

(** What the REST handler hands to [setTasks] when its call resolves. *)
Definition rest (m : Mutation) : list Task.t → list Task.t :=
  match m with
  | Created task => prepend_if_absent task
  | Updated task => replace_by_id (Task._id task) task
  | Removed taskId _ => remove_by_id taskId
  end.

Definition push (id : option string) (m : Mutation) : list Task.t → list Task.t :=
  on_event id (echo m).

(** Doing both, in either order, equals doing either once. *)
Definition paths_agree (id : option string) (m : Mutation) (prev : list Task.t)
  : Prop :=
  push id m (rest m prev) = rest m prev
  ∧ rest m (push id m prev) = rest m prev
  ∧ push id m prev = rest m prev
  ∧ rest m (rest m prev) = rest m prev
  ∧ push id m (push id m prev) = push id m prev.

(** ** Publication order in a handler's trace *)

#[global] Instance Collection_eq_dec : EqDecision Collection.
Proof. solve_decision. Defined.
#[global] Instance SocketEvent_eq_dec : EqDecision SocketEvent.
Proof. solve_decision. Defined.
#[global] Instance Body_eq_dec : EqDecision Body.
Proof. solve_decision. Defined.
#[global] Instance Response_eq_dec : EqDecision Response.
Proof. solve_decision. Defined.
#[global] Instance Effect_eq_dec : EqDecision Effect.
Proof. solve_decision. Defined.

(** The write that makes the mutation an event announces durable. *)
Definition commit_of (e : SocketEvent) : Effect :=
  match e with
  | TaskCreated task | TaskUpdated task => Saved Tasks (Task._id task)
  | TaskDeleted taskId _ => Deleted Tasks taskId
  | ProjectCreated p | ProjectUpdated p
  | ProjectMemberAdded p _ | ProjectMemberRemoved p _ => Saved Projects (Project._id p)
  | ProjectDeleted projectId => Deleted Projects projectId
  end.

(** Whether the entity an event carries has all its references resolved;
    a deletion carries identifiers only. *)
Definition assembled (e : SocketEvent) : bool :=
  match e with
  | TaskCreated task | TaskUpdated task => task_populated task
  | ProjectCreated p | ProjectUpdated p
  | ProjectMemberAdded p _ | ProjectMemberRemoved p _ => project_populated p
  | TaskDeleted _ _ | ProjectDeleted _ => true
  end.

Definition is_emit (x : Effect) : bool :=
  match x with Emitted _ _ => true | _ => false end.

(** [commit_first past tr]: every event published in [tr] is assembled and
    its commit has happened before it, in [past] or earlier in [tr]. *)
Fixpoint commit_first (past tr : list Effect) : bool :=
  match tr with
  | [] => true
  | x :: tr' =>
      match x with
      | Emitted _ e => bool_decide (commit_of e ∈ past) && assembled e
      | _ => true
      end && commit_first (past ++ [x]) tr'
  end.

(** Whether [x] publishes the event whose commit is [c]. *)
Definition announces (c x : Effect) : bool :=
  match x with
  | Emitted _ e => bool_decide (commit_of e = c)
  | _ => false
  end.

(** What a delete route has to have done before its event goes out: for a
    project, the deletion of its tasks. *)
Definition cleared (past : list Effect) (e : SocketEvent) : bool :=
  match e with
  | ProjectDeleted projectId => bool_decide (DeletedTasksOf projectId ∈ past)
  | _ => true
  end.

(** [publish_first past tr]: every event published in [tr] goes out while
    its commit has not happened -- the event of a project after the tasks
    of the project have been deleted --, the tasks of a project are deleted
    before the event of the project goes out, and every deletion of an
    entity in [tr] has been announced by an event before it. *)
Fixpoint publish_first (past tr : list Effect) : bool :=
  match tr with
  | [] => true
  | x :: tr' =>
      match x with
      | Emitted _ e => bool_decide (commit_of e ∉ past) && cleared past e
      | Deleted _ _ => existsb (announces x) past
      | DeletedTasksOf projectId =>
          negb (existsb (announces (Deleted Projects projectId)) past)
      | _ => true
      end && publish_first (past ++ [x]) tr'
  end.

(** The effects that neither write nor publish. *)
Definition passive (x : Effect) : bool :=
  match x with
  | PopulatedPath _ | Responded _ => true
  | _ => false
  end.

Definition published (tr : list Effect) : list SocketEvent :=
  omap (λ x, match x with Emitted _ e => Some e | _ => None end) tr.

(** Running a route on a database, with a fault schedule. *)
Definition serve (handler : M Response) (d : Database) (f : option nat)
  : Response * World :=
  route handler (start d f).

Definition trace_of (handler : M Response) (d : Database) (f : option nat)
  : list Effect :=
  trace (serve handler d f).2.

(** [runs tr0 m Q E]: started with trace [tr0], the computation [m] either
    returns a value and a trace that satisfy [Q], or throws with a trace
    that satisfies [E]. *)
Definition runs {A} (tr0 : list Effect) (m : M A)
    (Q : A → list Effect → Prop) (E : list Effect → Prop) : Prop :=
  ∀ w o w', trace w = tr0 → m w = (o, w') →
    match o with Val a => Q a (trace w') | Exn => E (trace w') end.

(** The two disciplines a trace can follow. *)
Definition commits_first (tr : list Effect) : Prop := commit_first [] tr = true.
Definition publishes_first (tr : list Effect) : Prop := publish_first [] tr = true.

(** * Sample data *)

Definition alice : UserDoc :=
  {| ud_name := "Alice"; ud_email := "alice@example.org"; ud_avatar := "a.png" |}.
Definition bob : UserDoc :=
  {| ud_name := "Bob"; ud_email := "bob@example.org"; ud_avatar := "b.png" |}.

Definition website : ProjectDoc :=
  {| pd_name := "Website"; pd_description := None; pd_owner := "u1";
     pd_members := ["u1"; "u2"]; pd_color := "#3B82F6" |}.
Definition billing : ProjectDoc :=
  {| pd_name := "Billing"; pd_description := None; pd_owner := "u2";
     pd_members := ["u2"; "u1"]; pd_color := "#10B981" |}.

Definition draft (title project : string) (status : Status) (at_ : nat) : TaskDoc :=
  {| td_title := title; td_description := None; td_status := status;
     td_priority := Medium; td_assignee := None; td_project := project;
     td_dueDate := None; td_tags := []; td_createdBy := "u1";
     td_createdAt := at_ |}.

Definition sample_db : Database :=
  {| db_users := {[ "u1" := alice; "u2" := bob ]};
     db_projects := {[ "p1" := website; "p2" := billing ]};
     db_tasks := {[ "t1" := draft "Landing page" "p1" Todo 10;
                    "t2" := draft "Contact form" "p1" InProgress 20 ]} |}.

(** The sanitizer of the sample requests: it puts an address in lower
    case. *)
Definition lower (c : Ascii.ascii) : Ascii.ascii :=
  let n := Ascii.nat_of_ascii c in
  if (65 <=? n)%nat && (n <=? 90)%nat then Ascii.ascii_of_nat (n + 32) else c.

Fixpoint lower_case (s : string) : string :=
  match s with
  | EmptyString => EmptyString
  | String c s' => String (lower c) (lower_case s')
  end.

Definition as_alice : Request :=
  {| req_user := "u1"; req_valid := true; req_oid := "t3"; req_now := 30;
     req_email := lower_case |}.

(** A task on the wire, fully populated. *)
Definition wire (k title project : string) (status : Status) : Task.t :=
  Task.mk k title None status Medium None
    (Populated (Some (ProjectSummary.mk project "Website" "#3B82F6"))) None []
    (Populated (Some (user_of "u1" alice))) 10.

Definition landing : Task.t := wire "t1" "Landing page" "p1" Todo.
Definition landing_done : Task.t := wire "t1" "Landing page" "p1" Done.
Definition contact : Task.t := wire "t2" "Contact form" "p1" InProgress.
Definition invoice : Task.t := wire "t9" "Invoice run" "p2" Todo.

Definition empty_view : View :=
  {| tasks := []; loading := true; showTaskModal := false;
     newTask := blank_form "p1"; console := [] |}.

Definition pricing_form : CreateTaskData :=
  {| ct_title := "Pricing table"; ct_description := None; ct_project := "p1";
     ct_status := None; ct_priority := Some High; ct_assignee := None;
     ct_dueDate := None; ct_tags := None |}.

Definition view_of (l : list Task.t) : View :=
  {| tasks := l; loading := false; showTaskModal := true;
     newTask := pricing_form; console := [] |}.

(** A REST client whose every call rejects. *)
Definition offline : TasksAPI :=
  {| getProjectTasks _ := Rejected "Network Error";
     createTask _ := Rejected "Network Error";
     updateTask _ _ := Rejected "Network Error";
     deleteTask _ := Rejected "Network Error" |}.

Definition only_status (s : Status) : UpdateTaskData :=
  {| ut_title := None; ut_description := None; ut_status := Some s;
     ut_priority := None; ut_assignee := None; ut_dueDate := None;
     ut_tags := None |}.

(** ** The view on the bus: hooks/useSocket.ts *)

(** The wrapper [useSocket] registers for one of the task events of the
    view of project [id]: it calls the current handler, which updates the
    task list. *)
Definition task_listener (n : nat) (id : option string) : Callback View SocketEvent :=
  {| cb_id := n; cb_run := λ e v, Returned (receive id e v) |}.

(** The three [useSocket] calls of the component taking effect, and their
    clean-up. *)
Definition subscribe (id : option string) (svc : SocketService View SocketEvent)
  : SocketService View SocketEvent :=
  on "task-deleted" (task_listener 3 id)
    (on "task-updated" (task_listener 2 id)
       (on "task-created" (task_listener 1 id) svc)).

Definition unsubscribe (id : option string) (svc : SocketService View SocketEvent)
  : SocketService View SocketEvent :=
  off "task-deleted" (task_listener 3 id)
    (off "task-updated" (task_listener 2 id)
       (off "task-created" (task_listener 1 id) svc)).

(** A listener that throws, leaving the state as it found it. *)
Definition broken (n : nat) : Callback View SocketEvent :=
  {| cb_id := n; cb_run := λ _ v, Threw v "TypeError" |}.

Definition fresh_service : SocketService View SocketEvent :=
  {| socket := Some {| connected := true; sent := [] |}; listeners := ∅ |}.

(** One session of a member looking at project p1. *)
Definition session : list Operation :=
  [ Fetch (start sample_db None) as_alice;
    Receive (TaskCreated landing);
    Edit pricing_form;
    Create (start sample_db None) as_alice;
    Update (start sample_db None) as_alice "t1" (only_status Done);
    Receive (TaskUpdated landing_done);
    Receive (TaskUpdated invoice);
    Delete (start sample_db None) as_alice true "t2";
    Receive (TaskDeleted "t2" "p1");
    Fetch (start sample_db (Some 1)) as_alice ].

(** ** Listeners that use the service while they run *)

(** A listener that unregisters itself when it is called, as a listener
    for one event only does. *)
Definition once (n : nat) (event : string) (id : option string)
  : Reactive View SocketEvent :=
  reacting (task_listener n id) (λ _ _, [CallOff event (task_listener n id)]).

(** A listener that ends the session: it calls [disconnect]. *)
Definition logging_out (n : nat) (id : option string) : Reactive View SocketEvent :=
  reacting (task_listener n id) (λ _ _, [CallDisconnect]).

(** A listener for one event only, registered before the listener of the
    view. *)
Definition once_then_view : gmap string (list (Reactive View SocketEvent)) :=
  live_on_all "task-updated"
    [once 1 "task-updated" (Some "p1"); passive_listener (task_listener 2 (Some "p1"))]
    ∅.

(** A listener that throws, one that ends the session, and the listener of
    the view. *)
Definition three_listeners : list (Reactive View SocketEvent) :=
  [passive_listener (broken 7); logging_out 1 (Some "p1");
   passive_listener (task_listener 2 (Some "p1"))].

(** * The rest of the project page: src/components/ProjectDetail.tsx *)

(** [filters], the state behind the two select boxes above the board. *)
Record Filters := {
  f_status : option Status;
  f_assignee : option string;
}.

(** The value of [t.assignee?._id]: the identifier of a populated assignee,
    [undefined] when there is no assignee, when it is [null] and when the
    field holds a bare ObjectId string. *)
Definition assignee_id (t : Task.t) : option string :=
  match Task.assignee t with
  | Some (Populated (Some u)) => Some (User._id u)
  | _ => None
  end.

(* if (filters.status && t.status !== filters.status) return false;
   if (filters.assignee && t.assignee?._id !== filters.assignee) return false;
   return true; *)
Definition passes (f : Filters) (t : Task.t) : bool :=
  match f_status f with
  | Some s => bool_decide (Task.status t = s)
  | None => true
  end
  && (if truthy (f_assignee f)
      then bool_decide (assignee_id t = f_assignee f)
      else true).

(** [filteredTasks] (lines 101-108). *)
Definition filteredTasks (f : Filters) (l : list Task.t) : list Task.t :=
  List.filter (passes f) l.

(** One column of the board (lines 247-260):
    [filteredTasks.filter(t => t.status === status)]. *)
Definition column (f : Filters) (s : Status) (l : list Task.t) : list Task.t :=
  List.filter (λ t, bool_decide (Task.status t = s)) (filteredTasks f l).

(** The board: its three columns, in the order they are drawn. *)
Definition board (f : Filters) (l : list Task.t) : list (list Task.t) :=
  (λ s, column f s l) <$> [Todo; InProgress; Done].

(** The filter the select boxes produce (lines 216-229): the empty choice
    is [undefined]. *)
Definition choose_assignee (value : string) (f : Filters) : Filters :=
  {| f_status := f_status f;
     f_assignee := if truthy (Some value) then Some value else None |}.
Definition choose_status (value : option Status) (f : Filters) : Filters :=
  {| f_status := value; f_assignee := f_assignee f |}.
Definition no_filters : Filters := {| f_status := None; f_assignee := None |}.

(** [projectsAPI] of src/services/api.ts, as far as the page calls it. *)
Record ProjectsAPI := {
  getProject : string → ApiResult Project.t;
  addMember : string → string → ApiResult Project.t;
}.

(** The whole component state: the task part [pg_view], and the project,
    the member dialog and the filters. *)
Record Page := {
  pg_view : View;
  pg_project : option Project.t;
  pg_showMemberModal : bool;
  pg_memberEmail : string;
  pg_filters : Filters;
}.

Definition on_view (g : View → View) (pg : Page) : Page :=
  {| pg_view := g (pg_view pg); pg_project := pg_project pg;
     pg_showMemberModal := pg_showMemberModal pg;
     pg_memberEmail := pg_memberEmail pg; pg_filters := pg_filters pg |}.
Definition setProject (p : Project.t) (pg : Page) : Page :=
  {| pg_view := pg_view pg; pg_project := Some p;
     pg_showMemberModal := pg_showMemberModal pg;
     pg_memberEmail := pg_memberEmail pg; pg_filters := pg_filters pg |}.
Definition setMemberEmail (email : string) (pg : Page) : Page :=
  {| pg_view := pg_view pg; pg_project := pg_project pg;
     pg_showMemberModal := pg_showMemberModal pg;
     pg_memberEmail := email; pg_filters := pg_filters pg |}.
Definition setShowMemberModal (b : bool) (pg : Page) : Page :=
  {| pg_view := pg_view pg; pg_project := pg_project pg;
     pg_showMemberModal := b;
     pg_memberEmail := pg_memberEmail pg; pg_filters := pg_filters pg |}.

(** The three [useSocket] project handlers (lines 91-99): each stores the
    project of the event when [proj._id === id]. *)
Definition about (id : option string) (proj : Project.t) : bool :=
  bool_decide (Some (Project._id proj) = id).

Definition on_project_event (id : option string) (e : SocketEvent) (pg : Page) : Page :=
  match e with
  | ProjectUpdated proj
  | ProjectMemberAdded proj _
  | ProjectMemberRemoved proj _ => if about id proj then setProject proj pg else pg
  | _ => pg
  end.

(** An event reaching the page: every listener registered for its kind
    runs, the task handlers on the task list and the project handlers on
    the project. *)
Definition page_receive (id : option string) (e : SocketEvent) (pg : Page) : Page :=
  on_project_event id e (on_view (receive id e) pg).

(** [fetchProject] (lines 48-57), at the moment the request settles. *)
Definition fetchProject (api : ProjectsAPI) (id : option string) (pg : Page) : Page :=
  match id with
  | Some pid =>
      if truthy id then
        match getProject api pid with
        | Resolved data => setProject data pg
        | Rejected error =>
            on_view (console_error ("Failed to fetch project:" +:+ error)) pg
        end
      else pg
  | None => pg
  end.

(** [handleAddMember] (lines 158-169). *)
Definition handleAddMember (api : ProjectsAPI) (id : option string) (pg : Page) : Page :=
  match id with
  | Some pid =>
      if truthy id && truthy (Some (pg_memberEmail pg)) then
        match addMember api pid (pg_memberEmail pg) with
        | Resolved proj =>
            setShowMemberModal false (setMemberEmail EmptyString (setProject proj pg))
        | Rejected error =>
            on_view (console_error ("Failed to add member:" +:+ error)) pg
        end
      else pg
  | None => pg
  end.

(** Whether the page draws the spinner instead of the board (line 171):
    [loading || !project]. *)
Definition spinner (pg : Page) : bool :=
  loading (pg_view pg) || bool_decide (pg_project pg = None).

(** The update a select box of a task card asks for (lines 283-303). *)
Definition no_updates : UpdateTaskData :=
  {| ut_title := None; ut_description := None; ut_status := None;
     ut_priority := None; ut_assignee := None; ut_dueDate := None;
     ut_tags := None |}.

(* handleUpdateTask(task._id, { assignee: e.target.value || undefined }) *)
Definition assignee_choice (value : string) : UpdateTaskData :=
  {| ut_title := None; ut_description := None; ut_status := None;
     ut_priority := None;
     ut_assignee := if truthy (Some value) then Some value else None;
     ut_dueDate := None; ut_tags := None |}.

(** ** Sample page *)

Definition website_wire : Project.t :=
  Project.mk "p1" "Website" None (Populated (Some (user_of "u1" alice)))
    [Populated (Some (user_of "u1" alice)); Populated (Some (user_of "u2" bob))]
    "#3B82F6".

Definition billing_wire : Project.t :=
  Project.mk "p2" "Billing" None (Populated (Some (user_of "u2" bob)))
    [Populated (Some (user_of "u2" bob)); Populated (Some (user_of "u1" alice))]
    "#10B981".

Definition page_of (l : list Task.t) : Page :=
  {| pg_view := view_of l; pg_project := Some website_wire;
     pg_showMemberModal := true; pg_memberEmail := "bob@example.org";
     pg_filters := no_filters |}.

(** A projects client whose every call rejects. *)
Definition projects_offline : ProjectsAPI :=
  {| getProject _ := Rejected "Network Error";
     addMember _ _ := Rejected "Network Error" |}.

(** * The rest of the socket service: frontend/src/services/socket.ts *)

Section Connection.
Context {S D : Type}.

(** [connect] (lines 8-34): nothing happens when the current socket is
    connected; otherwise a new socket is opened, on which nothing has been
    sent yet, and the registry is kept.  The new socket counts as connected
    once the transport reports it, see [established]. *)
Definition connect (svc : SocketService S D) : SocketService S D :=
  let opened := {| socket := Some {| connected := false; sent := [] |};
                   listeners := listeners svc |} in
  match socket svc with
  | Some sock => if connected sock then svc else opened
  | None => opened
  end.

(** The transport of the current socket coming up. *)
Definition established (svc : SocketService S D) : SocketService S D :=
  match socket svc with
  | Some sock =>
      {| socket := Some {| connected := true; sent := sent sock |};
         listeners := listeners svc |}
  | None => svc
  end.

(** [isConnected] (lines 127-129): [this.socket?.connected || false]. *)
Definition isConnected (svc : SocketService S D) : bool :=
  match socket svc with
  | Some sock => connected sock
  | None => false
  end.

(** What has been sent to the server on the current socket. *)
Definition outbox (svc : SocketService S D) : list (string * string) :=
  match socket svc with
  | Some sock => sent sock
  | None => []
  end.

(** frontend/src/hooks/useSocket.ts: the effect of [useSocket] registers a
    wrapper of its own, and its clean-up unregisters that wrapper. *)
Definition useSocket_effect (event : string) (wrapped : Callback S D)
  : SocketService S D → SocketService S D :=
  on event wrapped.
Definition useSocket_cleanup (event : string) (wrapped : Callback S D)
  : SocketService S D → SocketService S D :=
  off event wrapped.

(** Whether [callback] is among the listeners of [event]. *)
Definition listens (svc : SocketService S D) (event : string)
    (callback : Callback S D) : Prop :=
  cb_id callback ∈ cb_id <$> registered svc event.

#[global] Instance listens_dec (svc : SocketService S D) event callback :
  Decision (listens svc event callback).
Proof. unfold listens. apply _. Defined.

End Connection.

(** * The read routes, and handlers followed through the database *)

(** [follows d0 tr0 m Q E]: started on database [d0] with trace [tr0], the
    computation [m] either returns a value, a database and a trace that
    satisfy [Q], or throws with a database and a trace that satisfy [E]. *)
Definition follows {A} (d0 : Database) (tr0 : list Effect) (m : M A)
    (Q : A → Database → list Effect → Prop)
    (E : Database → list Effect → Prop) : Prop :=
  ∀ w o w', db w = d0 → trace w = tr0 → m w = (o, w') →
    match o with
    | Val a => Q a (db w') (trace w')
    | Exn => E (db w') (trace w')
    end.

(** ** GET /api/tasks (lines 13-74 of the task routes) *)

(** [req.query]. *)
Record TaskQuery := {
  q_project : option string;
  q_status : option Status;
  q_assignee : option string;
}.

(* Project.find({ $or: [{ owner }, { members }] }).select('_id') *)
Definition projects_of (user : string) (d : Database) : list string :=
  (filter (λ '(_, p), pd_owner p = user ∨ user ∈ pd_members p)
     (map_to_list (db_projects d))).*1.

(** The filter object the route builds, as a test on a stored task. *)
Definition matches (projects : list string) (q : TaskQuery) (t : TaskDoc) : Prop :=
  td_project t ∈ projects
  ∧ (∀ s, q_status q = Some s → td_status t = s)
  ∧ (truthy (q_assignee q) = true → td_assignee t = q_assignee q).

#[global] Instance matches_dec projects q t : Decision (matches projects q t).
Proof.
  unfold matches.
  assert (Decision (∀ s, q_status q = Some s → td_status t = s)).
  { destruct (q_status q) as [s|].
    - destruct (decide (td_status t = s)) as [Heq|Hne].
      + left. by intros ? [= <-].
      + right. intros H. by apply Hne, H.
    - left. by intros ?. }
  apply _.
Defined.

(* Task.find(filter).populate('project', ..).populate('assignee', ..)
       .populate('createdBy', ..).sort({ createdAt: -1 }) *)
Definition find_tasks (projects : list string) (q : TaskQuery) (d : Database)
  : list Task.t :=
  merge_sort newer_first
    ((λ '(k, t), populate_task_createdBy d
                   (populate_task_assignee d (populate_task_project d (task_of k t))))
       <$> filter (λ '(_, t), matches projects q t) (map_to_list (db_tasks d))).

Definition get_tasks (req : Request) (q : TaskQuery) : M Response :=
  if negb (req_valid req) then respond 400 ValidationFailed else
  match q_project q with
  | Some project =>
      if truthy (q_project q) then
        let* projectDoc := query (find_project_of_member project (req_user req)) in
        match projectDoc with
        | None => not_found "Project not found or access denied"
        | Some _ =>
            let* tasks := query (find_tasks [project] q) in
            respond 200 (TasksBody tasks)
        end
      else
        let* userProjects := query (projects_of (req_user req)) in
        let* tasks := query (find_tasks userProjects q) in
        respond 200 (TasksBody tasks)
  | None =>
      let* userProjects := query (projects_of (req_user req)) in
      let* tasks := query (find_tasks userProjects q) in
      respond 200 (TasksBody tasks)
  end.

(** ** GET /api/tasks/:id (lines 79-108) *)

(* Task.findById(id).populate(..).populate(..).populate(..) *)
Definition find_task_populated (id : string) (d : Database) : option Task.t :=
  (λ t, populate_task_createdBy d
          (populate_task_assignee d (populate_task_project d (task_of id t))))
  <$> db_tasks d !! id.

Definition get_task (req : Request) (id : string) : M Response :=
  let* task := query (find_task_populated id) in
  match task with
  | None => not_found "Task not found"
  | Some task =>
      (* task.project._id, of a populated project *)
      match Task.project task with
      | Populated (Some p) =>
          let* project := query (find_project_of_member (ProjectSummary._id p)
                                   (req_user req)) in
          match project with
          | None => not_found "Task not found or access denied"
          | Some _ => respond 200 (TaskBody task)
          end
      | _ => throw
      end
  end.

(** ** GET /api/projects/:id (lines 34-74 of backend/routes/projects.js) *)

Record TaskCounts := { n_todo : nat; n_in_progress : nat; n_done : nat }.

(* Task.aggregate([{ $match: { project } }, { $group: { _id: '$status', count } }]),
   folded into { todo: 0, 'in-progress': 0, done: 0 } *)
Definition count_status (project : string) (s : Status) (d : Database) : nat :=
  length (filter (λ '(_, t), td_project t = project ∧ td_status t = s)
            (map_to_list (db_tasks d))).

Definition task_counts (project : string) (d : Database) : TaskCounts :=
  {| n_todo := count_status project Todo d;
     n_in_progress := count_status project InProgress d;
     n_done := count_status project Done d |}.

(** What the route answers: a status and a message, or the project with
    its counts. *)
Inductive ProjectAnswer :=
| NoProject (status : nat) (message : string)
| ProjectWithCounts (project : Project.t) (taskCounts : TaskCounts).

Definition get_project (req : Request) (id : string) : M ProjectAnswer :=
  let* project :=
    query (λ d, (λ p, populate_project_members d
                        (populate_project_owner d (project_of id p)))
                <$> find_project_of_member id (req_user req) d) in
  match project with
  | None => ret (NoProject 404 "Project not found")
  | Some project =>
      let* counts := query (task_counts (Project._id project)) in
      ret (ProjectWithCounts project counts)
  end.

(* try { ... } catch (error) { res.status(500).json({ message: 'Server error' }) } *)
Definition answer_project (req : Request) (id : string) (d : Database)
    (f : option nat) : ProjectAnswer :=
  match get_project req id (start d f) with
  | (Val a, _) => a
  | (Exn, _) => NoProject 500 "Server error"
  end.

(** ** The rooms of the socket server *)

(** The rooms as socket.io keeps them: the sockets that have joined each
    room.  The connection handler joins and leaves the room of a project
    on [join-project] and [leave-project]. *)
Definition Rooms : Type := gmap string (gset nat).

Definition members_of (r : string) (rooms : Rooms) : gset nat :=
  default ∅ (rooms !! r).

(* socket.on('join-project', (projectId) => socket.join(`project-${projectId}`)) *)
Definition join_project (socket : nat) (projectId : string) (rooms : Rooms) : Rooms :=
  <[room projectId := {[socket]} ∪ members_of (room projectId) rooms]> rooms.

(* socket.on('leave-project', (projectId) => socket.leave(`project-${projectId}`)) *)
Definition leave_project (socket : nat) (projectId : string) (rooms : Rooms) : Rooms :=
  <[room projectId := members_of (room projectId) rooms ∖ {[socket]}]> rooms.

(** The sockets [io.to(r).emit(..)] delivers to: those in room [r]. *)
Definition recipients (x : Effect) (rooms : Rooms) : gset nat :=
  match x with
  | Emitted r _ => members_of r rooms
  | _ => ∅
  end.

(** ** Properties of a database *)

(** Every project has its owner among its members. *)
Definition owners_are_members (d : Database) : Prop :=
  ∀ k p, db_projects d !! k = Some p → pd_owner p ∈ pd_members p.

(** No project lists a member twice. *)
Definition members_distinct (d : Database) : Prop :=
  ∀ k p, db_projects d !! k = Some p → NoDup (pd_members p).

(** Every task belongs to a project that exists. *)
Definition tasks_have_projects (d : Database) : Prop :=
  ∀ k t, db_tasks d !! k = Some t → is_Some (db_projects d !! td_project t).

(** The events a request has published, and the database it has left. *)
Definition published_by (handler : M Response) (d : Database) (f : option nat)
  : list SocketEvent :=
  published (trace_of handler d f).

Definition db_after (handler : M Response) (d : Database) (f : option nat)
  : Database :=
  db (serve handler d f).2.

Definition status_of (handler : M Response) (d : Database) (f : option nat) : nat :=
  res_status (serve handler d f).1.

(** A request that had no effect. *)
Definition no_effect (handler : M Response) (d : Database) (f : option nat) : Prop :=
  db_after handler d f = d ∧ published_by handler d f = [].

(** A request that was refused with [status], without any effect. *)
Definition refused (status : nat) (handler : M Response) (d : Database)
    (f : option nat) : Prop :=
  status_of handler d f = status ∧ no_effect handler d f.

(** The requests that change the database, and the route of each. *)
Inductive Mutating :=
| PostTask (body : CreateTaskData)
| PutTask (id : string) (body : UpdateTaskData)
| DeleteTask (id : string)
| PostProject (body : ProjectData)
| PutProject (id : string) (body : ProjectData)
| DeleteProject (id : string)
| PostMember (id email : string)
| DeleteMember (id memberId : string).

Definition handler_of (req : Request) (m : Mutating) : M Response :=
  match m with
  | PostTask body => post_task req body
  | PutTask id body => put_task req id body
  | DeleteTask id => delete_task_route req id
  | PostProject body => post_project req body
  | PutProject id body => put_project req id body
  | DeleteProject id => delete_project_route req id
  | PostMember id email => post_member req id email
  | DeleteMember id memberId => delete_member req id memberId
  end.

Definition deletes (m : Mutating) : bool :=
  match m with
  | DeleteTask _ | DeleteProject _ => true
  | _ => false
  end.

(** A response with a 2xx status, as the routes send them. *)
Definition succeeded (r : Response) : Prop :=
  res_status r = 200 ∨ res_status r = 201.

(** The entity an event carries, as the body of a response. *)
Definition entity (e : SocketEvent) : option Body :=
  match e with
  | TaskCreated task | TaskUpdated task => Some (TaskBody task)
  | ProjectCreated p | ProjectUpdated p
  | ProjectMemberAdded p _ | ProjectMemberRemoved p _ => Some (ProjectBody p)
  | TaskDeleted _ _ | ProjectDeleted _ => None
  end.

(** The project an event is about: what the handlers of the page compare
    with the project they show. *)
Definition subject (e : SocketEvent) : option string :=
  match e with
  | TaskCreated _ | TaskUpdated _ | TaskDeleted _ _ => event_project e
  | ProjectCreated p | ProjectUpdated p
  | ProjectMemberAdded p _ | ProjectMemberRemoved p _ => Some (Project._id p)
  | ProjectDeleted projectId => Some projectId
  end.

(** The events of a trace, each with the room it was sent to. *)
Definition emissions (tr : list Effect) : list (string * SocketEvent) :=
  omap (λ x, match x with Emitted r e => Some (r, e) | _ => None end) tr.

(** An event sent to the room of the project it is about. *)
Definition at_home (x : string * SocketEvent) : Prop :=
  room <$> subject x.2 = Some x.1.

(** The document a request is about, and the collection it is in. *)
Definition target (req : Request) (m : Mutating) : string :=
  match m with
  | PostTask _ | PostProject _ => req_oid req
  | PutTask id _ | DeleteTask id | PutProject id _ | DeleteProject id
  | PostMember id _ | DeleteMember id _ => id
  end.

Definition on_tasks (m : Mutating) : bool :=
  match m with
  | PostTask _ | PutTask _ _ | DeleteTask _ => true
  | _ => false
  end.

(** Two collections that agree on every key but [k]. *)
Definition same_except {A} (k : string) (m1 m2 : gmap string A) : Prop :=
  ∀ k', k' ≠ k → m1 !! k' = m2 !! k'.

(** What a request may touch: a task route one task, a project route one
    project, and the deletion of a project the tasks of that project. *)
Definition touched_only (req : Request) (m : Mutating) (d d' : Database) : Prop :=
  db_users d' = db_users d
  ∧ (if on_tasks m
     then db_projects d' = db_projects d
          ∧ same_except (target req m) (db_tasks d') (db_tasks d)
     else same_except (target req m) (db_projects d') (db_projects d)
          ∧ (if deletes m
             then db_tasks d' ⊆ db_tasks d
                  ∧ ∀ k t, db_tasks d !! k = Some t →
                           td_project t ≠ target req m →
                           db_tasks d' !! k = Some t
             else db_tasks d' = db_tasks d)).

(** What an update keeps of a task. *)
Definition same_origin (t t' : TaskDoc) : Prop :=
  td_project t' = td_project t
  ∧ td_createdBy t' = td_createdBy t
  ∧ td_createdAt t' = td_createdAt t.

(** What an update does to the stored tasks: none appears, none
    disappears, and each keeps its origin. *)
Definition origins_kept (d d' : Database) : Prop :=
  ∀ k, match db_tasks d !! k, db_tasks d' !! k with
       | Some t, Some t' => same_origin t t'
       | None, None => True
       | _, _ => False
       end.

(** The member list of a stored project. *)
Definition members_in (id : string) (d : Database) : list string :=
  from_option pd_members [] (db_projects d !! id).

(** Assertions on the database and the trace of a handler. *)

(** Nothing has been published. *)
Definition quiet : Database → list Effect → Prop := λ _ tr, published tr = [].

(** A response and the events published for it: one event that carries the
    entity of a successful response, none for any other response. *)
Definition one_event (r : Response) (d : Database) (tr : list Effect) : Prop :=
  (succeeded r ∧ ∃ e, published tr = [e] ∧ entity e = Some (res_body r))
  ∨ (¬ succeeded r ∧ published tr = []).

Definition all_home : Database → list Effect → Prop :=
  λ _ tr, Forall at_home (emissions tr).

(** A property of every stored project. *)
Definition every_project (P : ProjectDoc → Prop) (d : Database) : Prop :=
  ∀ k p, db_projects d !! k = Some p → P p.

(** What [post_member] has done when it answers 200. *)
Definition member_added (req : Request) (id email : string) (d : Database)
    (r : Response) (d' : Database) (tr : list Effect) : Prop :=
  res_status r = 200 →
  req_valid req = true
  ∧ ∃ uid u p,
      find_user_by_email (req_email req email) d = Some (uid, u)
      ∧ find_project_of_owner id (req_user req) d = Some p
      ∧ (uid ∉ pd_members p)
      ∧ d' = set_projects
               (<[id := with_members (pd_members p ++ [uid]) p]> (db_projects d)) d
      ∧ ∃ project, published tr = [ProjectMemberAdded project (user_of uid u)].

(** What [delete_member] has done when it answers 200. *)
Definition member_dropped (req : Request) (id memberId : string) (d : Database)
    (r : Response) (d' : Database) (tr : list Effect) : Prop :=
  res_status r = 200 →
  ∃ p, find_project_of_owner id (req_user req) d = Some p
       ∧ memberId ≠ pd_owner p
       ∧ d' = set_projects
                (<[id := with_members (filter (λ m, m ≠ memberId) (pd_members p)) p]>
                   (db_projects d)) d
       ∧ ∃ project, published tr = [ProjectMemberRemoved project memberId].

(** ** A view and the database *)

(** The task [k] is stored as a task of project [pid]. *)
Definition stored_in (pid : string) (d : Database) (k : string) : Prop :=
  ∃ t, db_tasks d !! k = Some t ∧ td_project t = pid.

(** The reference [r] of a task on the wire names the project [pid]: it is
    the bare identifier, or the populated summary of that project. *)
Definition names (pid : string) (r : Ref ProjectSummary.t) : Prop :=
  match r with
  | Unpopulated oid => oid = pid
  | Populated (Some p) => ProjectSummary._id p = pid
  | Populated None => False
  end.

(** The task [t] of a view shows the stored task [doc] as the database [d]
    has it: every field of the document, with the assignee and the creator
    resolved to the users of [d]. *)
Definition depicts (d : Database) (t : Task.t) (doc : TaskDoc) : Prop :=
  Task.title t = td_title doc
  ∧ Task.description t = td_description doc
  ∧ Task.status t = td_status doc
  ∧ Task.priority t = td_priority doc
  ∧ Task.assignee t = populate_user d <$> (Unpopulated <$> td_assignee doc)
  ∧ names (td_project doc) (Task.project t)
  ∧ Task.dueDate t = td_dueDate doc
  ∧ Task.tags t = td_tags doc
  ∧ Task.createdBy t = populate_user d (Unpopulated (td_createdBy doc))
  ∧ Task.createdAt t = td_createdAt doc.

(** The task list [l] of a view of project [pid] shows the tasks that the
    database holds for the project: each of them once, no other, and each
    as the database has it. *)
Definition in_sync (pid : string) (l : list Task.t) (d : Database) : Prop :=
  NoDup (ids l)
  ∧ (∀ k, k ∈ ids l ↔ stored_in pid d k)
  ∧ (∀ t, t ∈ l → ∃ doc, db_tasks d !! Task._id t = Some doc ∧ depicts d t doc).

(** The view shows no task that the database holds for another project. *)
Definition own_tasks (pid : string) (l : list Task.t) (d : Database) : Prop :=
  ∀ k doc, k ∈ ids l → db_tasks d !! k = Some doc → td_project doc = pid.

(** The mutation [mu] takes the database from [d] to [d'], and the task it
    carries shows the document it has written. *)
Definition carried_out (mu : Mutation) (d d' : Database) : Prop :=
  match mu with
  | Created task =>
      db_tasks d !! Task._id task = None
      ∧ ∃ doc, project_id task = Some (td_project doc)
               ∧ depicts d' task doc
               ∧ d' = set_tasks (<[Task._id task := doc]> (db_tasks d)) d
  | Updated task =>
      ∃ t doc, db_tasks d !! Task._id task = Some t
               ∧ td_project doc = td_project t
               ∧ project_id task = Some (td_project doc)
               ∧ depicts d' task doc
               ∧ d' = set_tasks (<[Task._id task := doc]> (db_tasks d)) d
  | Removed taskId projectId =>
      ∃ t, db_tasks d !! taskId = Some t
           ∧ td_project t = projectId
           ∧ d' = set_tasks (delete taskId (db_tasks d)) d
  end.

(** The response that tells the client of the mutation [mu]. *)
Definition answered (mu : Mutation) (r : Response) : Prop :=
  match mu with
  | Created task => r = {| res_status := 201; res_body := TaskBody task |}
  | Updated task => r = {| res_status := 200; res_body := TaskBody task |}
  | Removed _ _ => res_status r = 200
  end.

(** The mutation [mu] is what the request [m] asks for. *)
Definition asked (m : Mutating) (mu : Mutation) : Prop :=
  match m, mu with
  | PostTask body, Created task => project_id task = Some (ct_project body)
  | PutTask id _, Updated task => Task._id task = id
  | DeleteTask id, Removed taskId _ => taskId = id
  | _, _ => False
  end.

(** A request on a task route that was refused, or carried out as the one
    mutation it asks for, answered and published. *)
Definition settled (m : Mutating) (d : Database) (r : Response) (d' : Database)
    (tr : list Effect) : Prop :=
  (¬ succeeded r ∧ d' = d ∧ published tr = [])
  ∨ ∃ mu, asked m mu ∧ answered mu r ∧ carried_out mu d d'
          ∧ published tr = [echo mu].

(** The requests about tasks that the page of project [pid] makes in the
    state [v]: the creation its form describes (line 117 posts
    [project: id]), and the update or the deletion of a task it shows on a
    card. *)
Definition page_request (pid : string) (v : View) (m : Mutating) : Prop :=
  match m with
  | PostTask body =>
      body = create_payload pid (newTask v)
      ∧ truthy (Some pid) && truthy (Some (ct_title (newTask v))) = true
  | PutTask id _ | DeleteTask id => id ∈ ids (tasks v)
  | _ => False
  end.

(** The handler of the page that makes the request, run to its end. *)
Definition own_step (api : TasksAPI) (pid : string) (m : Mutating) (v : View) : View :=
  match m with
  | PostTask _ => handleCreateTask api (Some pid) v
  | PutTask id updates => handleUpdateTask api id updates v
  | DeleteTask id => handleDeleteTask api true id v
  | _ => v
  end.

(** Whether [user] owns the project [id], or belongs to it. *)
Definition owns (user id : string) (d : Database) : Prop :=
  ∃ p, db_projects d !! id = Some p ∧ pd_owner p = user.

Definition belongs (user id : string) (d : Database) : Prop :=
  ∃ p, db_projects d !! id = Some p ∧ (pd_owner p = user ∨ user ∈ pd_members p).

(** ** What the read routes answer with *)

#[global] Instance newer_first_total : Total newer_first.
Proof. intros a b. unfold newer_first. lia. Qed.
#[global] Instance newer_first_trans : Transitive newer_first.
Proof. intros a b c. unfold newer_first. lia. Qed.

(** What [get_project_tasks] has done: nothing, and when it answers 200
    the answer is the task list of a project the user belongs to. *)
Definition fetched (req : Request) (pid : string) (d : Database) (r : Response)
    (d' : Database) (tr : list Effect) : Prop :=
  d' = d ∧ published tr = []
  ∧ (res_status r = 200 →
     r = {| res_status := 200; res_body := TasksBody (find_project_tasks pid d) |}
     ∧ belongs (req_user req) pid d).

(** A task of an answer: it shows a stored task, which the query asked for
    and which belongs to a project of the user. *)
Definition visible (req : Request) (q : TaskQuery) (d : Database) (t : Task.t) : Prop :=
  ∃ doc, db_tasks d !! Task._id t = Some doc
         ∧ belongs (req_user req) (td_project doc) d
         ∧ Task.status t = td_status doc
         ∧ (∀ s, q_status q = Some s → td_status doc = s)
         ∧ (∀ p, q_project q = Some p → p ≠ EmptyString → td_project doc = p).

Definition listed (req : Request) (q : TaskQuery) (d : Database) (r : Response)
    (d' : Database) (tr : list Effect) : Prop :=
  d' = d ∧ published tr = []
  ∧ ∀ l, res_body r = TasksBody l → Forall (visible req q d) l.

Definition shown (req : Request) (id : string) (d : Database) (r : Response)
    (d' : Database) (tr : list Effect) : Prop :=
  d' = d ∧ published tr = []
  ∧ ∀ t, res_body r = TaskBody t →
         find_task_populated id d = Some t
         ∧ ∃ doc, db_tasks d !! id = Some doc
                  ∧ belongs (req_user req) (td_project doc) d.

Definition counted (req : Request) (id : string) (d : Database) (a : ProjectAnswer)
    (d' : Database) (tr : list Effect) : Prop :=
  ∀ project counts, a = ProjectWithCounts project counts →
    belongs (req_user req) id d
    ∧ Project._id project = id
    ∧ counts = task_counts id d.

(** A second member of the sample projects. *)
Definition as_bob : Request :=
  {| req_user := "u2"; req_valid := true; req_oid := "t4"; req_now := 40;
     req_email := lower_case |}.

Definition carol : UserDoc :=
  {| ud_name := "Carol"; ud_email := "carol@example.org"; ud_avatar := "c.png" |}.

Definition as_carol : Request :=
  {| req_user := "u3"; req_valid := true; req_oid := "t5"; req_now := 50;
     req_email := lower_case |}.

Definition bigger_db : Database :=
  {| db_users := {[ "u1" := alice; "u2" := bob; "u3" := carol ]};
     db_projects := db_projects sample_db;
     db_tasks := <["t7" := draft "Invoice run" "p2" Todo 15]> (db_tasks sample_db) |}.

(** The view of project p1 as a fetch has left it. *)
Definition fetched_view : View := view_of (find_project_tasks "p1" sample_db).

(** * Properties of the View Reconciler *)

(** ** The three list updates *)

Lemma exists_in_spec task prev :
  exists_in task prev = true ↔ Task._id task ∈ ids prev.
Proof.
  unfold exists_in, ids. rewrite existsb_exists, list_elem_of_fmap.
  split.
  - intros (t & Hin & Heq). apply bool_decide_eq_true in Heq.
    exists t. split; [done|]. by apply list_elem_of_In.
  - intros (t & Heq & Hin). exists t. split; [by apply list_elem_of_In|].
    by apply bool_decide_eq_true.
Qed.

Lemma exists_in_false task prev :
  exists_in task prev = false ↔ Task._id task ∉ ids prev.
Proof.
  rewrite <- exists_in_spec. destruct (exists_in task prev); naive_solver.
Qed.

Lemma prepend_if_absent_present task prev :
  Task._id task ∈ ids prev → prepend_if_absent task prev = prev.
Proof. intros H. unfold prepend_if_absent. by apply exists_in_spec in H as ->. Qed.

Lemma prepend_if_absent_absent task prev :
  Task._id task ∉ ids prev → prepend_if_absent task prev = task :: prev.
Proof. intros H. unfold prepend_if_absent. by apply exists_in_false in H as ->. Qed.

Lemma prepend_if_absent_idem task prev :
  prepend_if_absent task (prepend_if_absent task prev) = prepend_if_absent task prev.
Proof.
  destruct (decide (Task._id task ∈ ids prev)) as [Hin|Hout].
  - by rewrite !(prepend_if_absent_present task prev).
  - rewrite (prepend_if_absent_absent _ prev) by done.
    apply prepend_if_absent_present. unfold ids. set_solver.
Qed.

Lemma prepend_if_absent_NoDup task prev :
  NoDup (ids prev) → NoDup (ids (prepend_if_absent task prev)).
Proof.
  intros Hnd. destruct (decide (Task._id task ∈ ids prev)) as [Hin|Hout].
  - by rewrite prepend_if_absent_present.
  - rewrite prepend_if_absent_absent by done. simpl. by constructor.
Qed.

Lemma replace_by_id_ids taskId updated prev :
  Task._id updated = taskId → ids (replace_by_id taskId updated prev) = ids prev.
Proof.
  intros Hid. unfold replace_by_id, ids. rewrite <- list_fmap_compose.
  apply list_fmap_ext. intros _ t _. simpl. case_bool_decide; congruence.
Qed.

Lemma replace_by_id_absent taskId updated prev :
  taskId ∉ ids prev → replace_by_id taskId updated prev = prev.
Proof.
  intros Hout. unfold replace_by_id.
  rewrite <- (list_fmap_id prev) at 2. apply list_fmap_ext.
  intros i t Hi. simpl. case_bool_decide as Heq; [|done].
  destruct Hout. subst taskId. unfold ids. apply list_elem_of_fmap.
  exists t. split; [done|]. by eapply list_elem_of_lookup_2.
Qed.

Lemma replace_by_id_idem taskId updated prev :
  Task._id updated = taskId →
  replace_by_id taskId updated (replace_by_id taskId updated prev)
  = replace_by_id taskId updated prev.
Proof.
  intros Hid. unfold replace_by_id. rewrite <- list_fmap_compose.
  apply list_fmap_ext. intros _ t _. simpl.
  destruct (bool_decide (Task._id t = taskId)) eqn:Ht.
  - by rewrite bool_decide_eq_true_2.
  - by rewrite Ht.
Qed.

Lemma remove_by_id_ids taskId prev :
  ids (remove_by_id taskId prev) = filter (λ k, k ≠ taskId) (ids prev).
Proof.
  unfold remove_by_id, ids. induction prev as [|t prev IH]; [done|].
  rewrite fmap_cons, !filter_cons.
  case_decide; [rewrite fmap_cons|]; by rewrite IH.
Qed.

Lemma remove_by_id_idem taskId prev :
  remove_by_id taskId (remove_by_id taskId prev) = remove_by_id taskId prev.
Proof.
  unfold remove_by_id. induction prev as [|t prev IH]; [done|].
  rewrite filter_cons. case_decide as Ht; [|done].
  rewrite filter_cons, decide_True by done. by rewrite IH.
Qed.

Lemma remove_by_id_NoDup taskId prev :
  NoDup (ids prev) → NoDup (ids (remove_by_id taskId prev)).
Proof. intros H. rewrite remove_by_id_ids. by apply NoDup_filter. Qed.

Lemma remove_by_id_absent taskId prev :
  taskId ∉ ids prev → remove_by_id taskId prev = prev.
Proof.
  unfold remove_by_id, ids. induction prev as [|t prev IH]; [done|].
  simpl. intros Hout. apply not_elem_of_cons in Hout as [Hne Hout].
  rewrite filter_cons, decide_True by done. by rewrite IH.
Qed.

(** ** The event handlers *)

Lemma guard_true id task pid :
  id = Some pid → project_id task = Some pid → guard id task = true.
Proof.
  intros -> Hp. unfold guard. unfold project_id in Hp.
  destruct (Task.project task) as [oid|[p|]] eqn:E; try done.
  apply bool_decide_eq_true. unfold project_id. by rewrite E.
Qed.

Lemma guard_false id task : project_id task ≠ id → guard id task = false.
Proof.
  intros Hne. unfold guard.
  destruct (Task.project task) as [oid|[p|]]; try done;
    by apply bool_decide_eq_false.
Qed.

Lemma on_event_idem id e prev :
  on_event id e (on_event id e prev) = on_event id e prev.
Proof.
  destruct e; simpl; try done.
  - unfold on_task_created. destruct (guard id task); [|done].
    apply prepend_if_absent_idem.
  - unfold on_task_updated. destruct (guard id task); [|done].
    by apply replace_by_id_idem.
  - unfold on_task_deleted. case_bool_decide; [|done].
    apply remove_by_id_idem.
Qed.

Lemma on_event_NoDup id e prev :
  NoDup (ids prev) → NoDup (ids (on_event id e prev)).
Proof.
  intros Hnd. destruct e; simpl; try done.
  - unfold on_task_created. destruct (guard id task); [|done].
    by apply prepend_if_absent_NoDup.
  - unfold on_task_updated. destruct (guard id task); [|done].
    by rewrite replace_by_id_ids.
  - unfold on_task_deleted. case_bool_decide; [|done].
    by apply remove_by_id_NoDup.
Qed.

(** ** The REST handlers keep the identifiers distinct *)

Lemma fetchTasks_NoDup api id v :
  well_behaved api →
  NoDup (ids (tasks v)) → NoDup (ids (tasks (fetchTasks api id v))).
Proof.
  intros Hapi Hnd. unfold fetchTasks. destruct id as [pid|]; [|done].
  destruct (truthy _); [|done].
  destruct (getProjectTasks _ _) as [data|error] eqn:Eapi; [|done].
  simpl. by eapply fetch_distinct.
Qed.

Lemma handleCreateTask_NoDup api id v :
  NoDup (ids (tasks v)) → NoDup (ids (tasks (handleCreateTask api id v))).
Proof.
  intros Hnd. unfold handleCreateTask. destruct id as [pid|]; [|done].
  destruct (_ && _); [|done].
  destruct (createTask _ _) as [task|error]; [|done].
  simpl. by apply prepend_if_absent_NoDup.
Qed.

Lemma handleUpdateTask_NoDup api taskId updates v :
  well_behaved api →
  NoDup (ids (tasks v)) →
  NoDup (ids (tasks (handleUpdateTask api taskId updates v))).
Proof.
  intros Hapi Hnd. unfold handleUpdateTask.
  destruct (updateTask _ _ _) as [updated|error] eqn:Eapi; [|done].
  simpl. rewrite replace_by_id_ids; [done|]. by eapply update_same_id.
Qed.

Lemma handleDeleteTask_NoDup api confirmed taskId v :
  NoDup (ids (tasks v)) →
  NoDup (ids (tasks (handleDeleteTask api confirmed taskId v))).
Proof.
  intros Hnd. unfold handleDeleteTask. destruct confirmed; [|done].
  destruct (deleteTask _ _) as [[]|error]; [|done].
  simpl. by apply remove_by_id_NoDup.
Qed.

(** * Properties of the Client Event Bus *)

Section BusProperties.
Context {S D : Type}.
Implicit Types (svc : SocketService S D) (callback : Callback S D) (d : Dispatch S D).

Lemma call_invoked event data d callback :
  invoked (call event data d callback) = invoked d ++ [(cb_id callback, data)].
Proof. unfold call. by destruct (cb_run _ _ _). Qed.

Lemma call_app event data d callback :
  app (call event data d callback) = after (cb_run callback data (app d)).
Proof. unfold call. by destruct (cb_run _ _ _). Qed.

Lemma foldl_call_invoked event data l d :
  invoked (foldl (call event data) d l)
  = invoked d ++ ((λ callback, (cb_id callback, data)) <$> l).
Proof.
  revert d. induction l as [|c l IH]; intros d; simpl.
  - by rewrite app_nil_r.
  - rewrite IH, call_invoked. by rewrite <- app_assoc.
Qed.

Lemma foldl_call_app event data l d :
  app (foldl (call event data) d l) = run_all data l (app d).
Proof.
  revert d. induction l as [|c l IH]; intros d; simpl; [done|].
  by rewrite IH, call_app.
Qed.

Lemma emit_registered event data svc s :
  emit event data svc s
  = foldl (call event data) {| app := s; errors := []; invoked := [] |}
      (registered svc event).
Proof. unfold emit, registered. by destruct (listeners svc !! event). Qed.

Lemma foldl_call_errors event data l d :
  length (errors (foldl (call event data) d l))
  = length (errors d) + length (thrown data l (app d)).
Proof.
  revert d. induction l as [|c l IH]; intros d; simpl; [lia|].
  rewrite IH, call_app. unfold call, throws.
  destruct (cb_run c data (app d)); simpl; rewrite ?length_app; simpl; lia.
Qed.

Lemma registered_on event callback svc :
  registered (on event callback svc) event = registered svc event ++ [callback].
Proof. unfold registered at 1, on. simpl. by rewrite lookup_insert_eq. Qed.

Lemma registered_on_other event event' callback svc :
  event ≠ event' →
  registered (on event callback svc) event' = registered svc event'.
Proof. intros Hne. unfold registered, on. simpl. by rewrite lookup_insert_ne. Qed.

Lemma registered_off event callback svc :
  registered (off event callback svc) event
  = remove_first callback (registered svc event).
Proof.
  unfold registered, off. destruct (listeners svc !! event) as [l|] eqn:El; simpl.
  - by rewrite lookup_insert_eq.
  - by rewrite El.
Qed.

Lemma registered_disconnect svc event : registered (disconnect svc) event = [].
Proof. unfold registered, disconnect. simpl. by rewrite lookup_empty. Qed.

Lemma registered_on_all event l svc :
  registered (on_all event l svc) event = registered svc event ++ l.
Proof.
  unfold on_all. revert svc. induction l as [|c l IH]; intros svc; simpl.
  - by rewrite app_nil_r.
  - rewrite IH, registered_on. by rewrite <- app_assoc.
Qed.

(** Listeners that leave the registry alone are called one after the
    other, in the order of registration, each in the state its predecessors
    have left, whether they return or throw. *)
Lemma emit_of_quiet_listeners
    (event : string) (data : D) (l : list (Callback S D))
    (svc : SocketService S D) (s : S) :
  registered (on_all event l svc) event = registered svc event ++ l
  ∧ invoked (emit event data (on_all event l svc) s)
    = (λ callback, (cb_id callback, data)) <$> (registered svc event ++ l)
  ∧ app (emit event data (on_all event l svc) s)
    = run_all data (registered svc event ++ l) s
  ∧ length (errors (emit event data (on_all event l svc) s))
    = length (thrown data (registered svc event ++ l) s).
Proof.
  pose proof (registered_on_all event l svc) as Hreg.
  split; [done|]. rewrite emit_registered, Hreg.
  generalize (registered svc event ++ l). intros cbs.
  split; [|split].
  - by rewrite foldl_call_invoked.
  - by rewrite foldl_call_app.
  - by rewrite foldl_call_errors.
Qed.

(** C10.  [disconnect] closes the connection and clears the whole listener
    registry: afterwards no callback is registered for any event kind, so
    an event dispatched then invokes none, until [on] registers listeners
    again. *)
Theorem disconnect_clears_listeners
    (svc : SocketService S D) (event : string) (data : D) (s : S)
    (callback : Callback S D) :
  socket (disconnect svc) = None
  ∧ listeners (disconnect svc) !! event = None
  ∧ registered (disconnect svc) event = []
  ∧ emit event data (disconnect svc) s = {| app := s; errors := []; invoked := [] |}
  ∧ registered (on event callback (disconnect svc)) event = [callback]
  ∧ invoked (emit event data (on event callback (disconnect svc)) s)
    = [(cb_id callback, data)].
Proof.
  split; [done|]. split; [apply lookup_empty|].
  split; [apply registered_disconnect|].
  split; [by rewrite emit_registered, registered_disconnect|].
  split; [by rewrite registered_on, registered_disconnect|].
  by rewrite emit_registered, foldl_call_invoked, registered_on, registered_disconnect.
Qed.

End BusProperties.

(** The scenario of the design document: a listener registered for
    task-updated throws; the listener of the view, registered after it for
    the same kind, still receives the event. *)
Example second_listener_still_runs :
  let svc := on "task-updated" (task_listener 2 (Some "p1"))
               (on "task-updated" (broken 7) fresh_service) in
  let d := deliver "task-updated" (TaskUpdated landing_done) svc
             (view_of [contact; landing]) in
  invoked d = [(7, TaskUpdated landing_done); (2, TaskUpdated landing_done)]
  ∧ tasks (app d) = [contact; landing_done]
  ∧ length (errors d) = 1.
Proof. by vm_compute. Qed.

(** After a log-out the listeners of a still mounted view are gone. *)
Example no_listener_after_disconnect :
  let svc := disconnect (subscribe (Some "p1") fresh_service) in
  invoked (deliver "task-updated" (TaskUpdated landing_done) svc
             (view_of [contact; landing])) = []
  ∧ registered (unsubscribe (Some "p1") svc) "task-updated" = [].
Proof. by vm_compute. Qed.

(** ** What one inbound event does *)

(** C4.  An inbound task-created event for the viewed project prepends the
    task when no entry of the list has its identifier, so that the list is
    the new task followed by the old list and one longer; when an entry
    with that identifier is present, the list stays as it is.  This is what
    the handler does to the view it runs on: it hands the update to
    [setTasks] and changes nothing else. *)
Theorem task_created_prepends_or_ignores
    (id : option string) (pid : string) (task : Task.t) (prev : list Task.t)
    (v : View) :
  id = Some pid →
  project_id task = Some pid →
  ((Task._id task ∉ ids prev →
      on_event id (TaskCreated task) prev = task :: prev
      ∧ length (on_event id (TaskCreated task) prev) = S (length prev))
   ∧ (Task._id task ∈ ids prev →
      on_event id (TaskCreated task) prev = prev))
  ∧ (Task._id task ∉ ids (tasks v) →
       receive id (TaskCreated task) v = setTasks (λ _, task :: tasks v) v
       ∧ tasks (receive id (TaskCreated task) v) = task :: tasks v
       ∧ length (tasks (receive id (TaskCreated task) v)) = S (length (tasks v)))
  ∧ (Task._id task ∈ ids (tasks v) → receive id (TaskCreated task) v = v).
Proof.
  intros Hid Hp.
  assert (on_event id (TaskCreated task) = prepend_if_absent task) as Hev.
  { simpl. unfold on_task_created. by rewrite (guard_true id task pid). }
  unfold receive. rewrite Hev. split; [split|split].
  - intros Hout. by rewrite prepend_if_absent_absent.
  - apply prepend_if_absent_present.
  - intros Hout. unfold setTasks. simpl. by rewrite prepend_if_absent_absent.
  - intros Hin. unfold setTasks. rewrite prepend_if_absent_present by done.
    by destruct v.
Qed.

Lemma task_created_prepends_or_ignores_witness :
  ((on_event (Some "p1") (TaskCreated landing) [contact] = [landing; contact]
    ∧ length (on_event (Some "p1") (TaskCreated landing) [contact]) = 2)
   ∧ tasks (receive (Some "p1") (TaskCreated landing) (view_of [contact]))
     = [landing; contact])
  ∧ on_event (Some "p1") (TaskCreated contact) [contact] = [contact]
  ∧ receive (Some "p1") (TaskCreated contact) (view_of [contact]) = view_of [contact].
Proof.
  assert (Task._id landing ∉ ids [contact]) as Hout.
  { apply not_elem_of_cons. split; [discriminate | apply not_elem_of_nil]. }
  assert (Task._id contact ∈ ids [contact]) as Hin by constructor.
  destruct (task_created_prepends_or_ignores (Some "p1") "p1" landing [contact]
              (view_of [contact]) eq_refl eq_refl) as ((Hnew & _) & Hview & _).
  destruct (task_created_prepends_or_ignores (Some "p1") "p1" contact [contact]
              (view_of [contact]) eq_refl eq_refl) as ((_ & Hold) & _ & Hsame).
  split; [split; [exact (Hnew Hout) | exact (proj1 (proj2 (Hview Hout)))]|].
  split; [exact (Hold Hin) | exact (Hsame Hin)].
Defined.

(** C5.  Applying the same task-created, task-updated or task-deleted event
    twice in succession gives the list that applying it once gives. *)
Theorem reconciliation_step_idempotent
    (id : option string) (e : SocketEvent) (prev : list Task.t) (v : View) :
  on_event id e (on_event id e prev) = on_event id e prev
  ∧ receive id e (receive id e v) = receive id e v.
Proof.
  split; [apply on_event_idem|].
  unfold receive, setTasks. simpl. by rewrite on_event_idem.
Qed.

(** C8.  An inbound task event whose project identifier is not the
    identifier of the viewed project leaves the task list, and the whole
    view, unchanged. *)
Theorem foreign_event_ignored (id : option string) (e : SocketEvent) (v : View) :
  is_task_event e = true →
  event_project e ≠ id →
  on_event id e (tasks v) = tasks v ∧ receive id e v = v.
Proof.
  intros _ Hne.
  assert (on_event id e = λ prev, prev) as Heq.
  { destruct e; simpl in *; try done.
    - unfold on_task_created. by rewrite guard_false.
    - unfold on_task_updated. by rewrite guard_false.
    - unfold on_task_deleted. by rewrite bool_decide_eq_false_2. }
  unfold receive. rewrite Heq. split; [done|]. by destruct v.
Qed.

Lemma foreign_event_ignored_witness :
  on_event (Some "p1") (TaskUpdated invoice) (tasks (view_of [landing; contact]))
  = [landing; contact]
  ∧ receive (Some "p1") (TaskUpdated invoice) (view_of [landing; contact])
    = view_of [landing; contact].
Proof.
  apply (foreign_event_ignored (Some "p1") (TaskUpdated invoice)
           (view_of [landing; contact]) eq_refl).
  simpl. unfold project_id. simpl. congruence.
Defined.

(** ** Locally initiated mutations *)

(** C7.  When the REST call of a locally initiated create, update or delete
    fails, the task list is left as it was: the error path of each handler
    changes no component state, it only reports the error on the console.
    Each of the three handlers is taken alone, with the one call it makes;
    the server behind [server_api] fails so for a caller who is no member of
    the project. *)
Theorem failed_mutation_changes_nothing
    (api : TasksAPI) (id : option string) (taskId : string)
    (updates : UpdateTaskData) (confirmed : bool) (v : View) :
  (∀ pid error,
     id = Some pid →
     createTask api (create_payload pid (newTask v)) = Rejected error →
     unchanged v (handleCreateTask api id v)
     ∧ (truthy id && truthy (Some (ct_title (newTask v))) = true →
        console (handleCreateTask api id v)
        = console v ++ ["Failed to create task:" +:+ error]))
  ∧ (∀ error,
       updateTask api taskId updates = Rejected error →
       unchanged v (handleUpdateTask api taskId updates v)
       ∧ console (handleUpdateTask api taskId updates v)
         = console v ++ ["Failed to update task:" +:+ error])
  ∧ (∀ error,
       deleteTask api taskId = Rejected error →
       unchanged v (handleDeleteTask api confirmed taskId v)
       ∧ (confirmed = true →
          console (handleDeleteTask api confirmed taskId v)
          = console v ++ ["Failed to delete task:" +:+ error])).
Proof.
  unfold unchanged. split; [|split].
  - intros pid error -> Hc. unfold handleCreateTask.
    destruct (_ && _); [|done]. by rewrite Hc.
  - intros error Hu. unfold handleUpdateTask. by rewrite Hu.
  - intros error Hd. unfold handleDeleteTask. destruct confirmed; [|done].
    by rewrite Hd.
Qed.

Lemma failed_mutation_changes_nothing_witness :
  let forbidden := server_api (start sample_db None) as_carol in
  let v := view_of [landing] in
  unchanged v (handleCreateTask offline (Some "p1") v)
  ∧ unchanged v (handleCreateTask forbidden (Some "p1") v)
  ∧ (unchanged v (handleUpdateTask forbidden "t1" (only_status Done) v)
     ∧ console (handleUpdateTask forbidden "t1" (only_status Done) v)
       = ["Failed to update task:Task not found or access denied"])
  ∧ unchanged v (handleDeleteTask forbidden true "t1" v)
  ∧ tasks (handleDeleteTask forbidden true "t1" v) = [landing].
Proof.
  intros forbidden v.
  destruct (failed_mutation_changes_nothing offline (Some "p1") "t1"
              (only_status Done) true v) as (Hoffline & _ & _).
  destruct (failed_mutation_changes_nothing forbidden (Some "p1") "t1"
              (only_status Done) true v) as (Hcreate & Hupdate & Hdelete).
  split; [exact (proj1 (Hoffline "p1" "Network Error" eq_refl eq_refl))|].
  split; [apply (Hcreate "p1" "Project not found or access denied" eq_refl);
          by vm_compute|].
  split; [apply (Hupdate "Task not found or access denied"); by vm_compute|].
  assert (unchanged v (handleDeleteTask forbidden true "t1" v)) as Hun.
  { apply (Hdelete "Task not found or access denied"). by vm_compute. }
  split; [exact Hun | exact (proj1 Hun)].
Defined.

(** * Properties of the Mutation Pipeline *)

(** ** Populated entities *)

Lemma populate_user_populated d r : is_populated (populate_user d r) = true.
Proof. by destruct r. Qed.

Lemma populate_task_populated_any d1 d2 d3 t :
  task_populated (populate_task_createdBy d3
                    (populate_task_assignee d2 (populate_task_project d1 t)))
  = true.
Proof.
  unfold task_populated. simpl. rewrite populate_user_populated, andb_true_r.
  apply andb_true_iff. split.
  - by destruct (Task.project t).
  - destruct (Task.assignee t) as [r|]; simpl; [|done].
    apply populate_user_populated.
Qed.

Lemma populate_member_populated d r r' :
  populate_member d r = Some r' → is_populated r' = true.
Proof.
  unfold populate_member. destruct r as [oid|doc]; simpl.
  - destruct (db_users d !! oid); simpl; by intros [= <-].
  - destruct doc; by intros [= <-].
Qed.

Lemma populate_project_populated_any d1 d2 p :
  project_populated (populate_project_members d2 (populate_project_owner d1 p)) = true.
Proof.
  unfold project_populated. simpl. rewrite populate_user_populated. simpl.
  apply forallb_forall. intros r Hin. apply list_elem_of_In in Hin.
  apply list_elem_of_omap in Hin as (r0 & _ & Hr).
  by eapply populate_member_populated.
Qed.

(** ** Following a handler along its trace *)

Section Runs.
Context (E : list Effect → Prop).

Lemma runs_ret {A} tr0 (a : A) (Q : A → list Effect → Prop) :
  Q a tr0 → runs tr0 (ret a) Q E.
Proof. intros H w o w' <- [= <- <-]. done. Qed.

Lemma runs_throw {A} tr0 (Q : A → list Effect → Prop) :
  E tr0 → runs tr0 throw Q E.
Proof. intros H w o w' <- [= <- <-]. done. Qed.

Lemma runs_bind {A B} tr0 (m : M A) (k : A → M B) R Q :
  runs tr0 m R E → (∀ a tr1, R a tr1 → runs tr1 (k a) Q E) →
  runs tr0 (bind m k) Q E.
Proof.
  intros Hm Hk w o w' Hw. unfold bind.
  destruct (m w) as [[a|] w1] eqn:Em.
  - intros Hka.
    exact (Hk a (trace w1) (Hm w (Val a) w1 Hw Em) w1 o w' eq_refl Hka).
  - intros [= <- <-]. exact (Hm w Exn w1 Hw Em).
Qed.

Lemma runs_post {A} tr0 (m : M A) (Q Q' : A → list Effect → Prop) :
  runs tr0 m Q' E → (∀ a tr, Q' a tr → Q a tr) → runs tr0 m Q E.
Proof.
  intros H HQ w o w' Hw Hm. specialize (H w o w' Hw Hm). destruct o; auto.
Qed.

Lemma runs_await {A} tr0 (op : Database → Outcome A * Database) :
  E tr0 → runs tr0 (await op) (λ _ tr, tr = tr0) E.
Proof.
  intros HE w o w' <-. unfold await.
  destruct (fault w) as [[|n]|].
  - by intros [= <- <-].
  - destruct (op (db w)) as [[a|] d']; by intros [= <- <-].
  - destruct (op (db w)) as [[a|] d']; by intros [= <- <-].
Qed.

Lemma runs_query {A} tr0 (q : Database → A) :
  E tr0 → runs tr0 (query q) (λ a tr, tr = tr0 ∧ ∃ d, a = q d) E.
Proof.
  intros HE w o w' <-. unfold query, await.
  destruct (fault w) as [[|n]|]; intros [= <- <-]; simpl; eauto.
Qed.

Lemma runs_log tr0 e : runs tr0 (log e) (λ _ tr, tr = tr0 ++ [e]) E.
Proof. by intros w o w' <- [= <- <-]. Qed.

(** A write: the awaited operation, then its entry in the trace. *)
Lemma runs_write {A} tr0 (op : Database → Outcome A * Database) x :
  E tr0 → runs tr0 (bind (await op) (λ _, log x)) (λ _ tr, tr = tr0 ++ [x]) E.
Proof.
  intros HE. eapply runs_bind; [by apply runs_await|].
  intros _ tr ->. apply runs_log.
Qed.

Context (Hquiet : ∀ tr x, passive x = true → E tr → E (tr ++ [x])).

Lemma runs_populate {A} tr0 path (f : Database → A → A) doc :
  E tr0 →
  runs tr0 (populate path f doc)
    (λ doc' tr, tr = tr0 ++ [PopulatedPath path] ∧ ∃ d, doc' = f d doc) E.
Proof.
  intros HE. unfold populate. eapply runs_bind; [by apply runs_query|].
  intros doc' tr [-> Hd]. eapply runs_bind; [apply runs_log|].
  intros _ tr ->. by apply runs_ret.
Qed.

Lemma runs_populate_task tr0 t :
  E tr0 →
  runs tr0 (populate_task t)
    (λ t' tr,
       tr = tr0 ++ [PopulatedPath "project"; PopulatedPath "assignee";
                    PopulatedPath "createdBy"]
       ∧ ∃ d1 d2 d3, t' = populate_task_createdBy d3
                            (populate_task_assignee d2 (populate_task_project d1 t))) E.
Proof.
  intros HE. unfold populate_task.
  eapply runs_bind; [by apply runs_populate|]. intros t1 tr1 [-> [d1 ->]].
  eapply runs_bind; [apply runs_populate; by apply Hquiet|]. intros t2 tr2 [-> [d2 ->]].
  eapply runs_post; [apply runs_populate; by repeat apply Hquiet|].
  intros t3 tr3 [-> [d3 ->]]. rewrite <- !app_assoc. eauto 6.
Qed.

Lemma runs_populate_project tr0 p :
  E tr0 →
  runs tr0 (populate_project p)
    (λ p' tr,
       tr = tr0 ++ [PopulatedPath "owner"; PopulatedPath "members"]
       ∧ ∃ d1 d2, p' = populate_project_members d2 (populate_project_owner d1 p)) E.
Proof.
  intros HE. unfold populate_project.
  eapply runs_bind; [by apply runs_populate|]. intros p1 tr1 [-> [d1 ->]].
  eapply runs_post; [apply runs_populate; by apply Hquiet|].
  intros p2 tr2 [-> [d2 ->]]. rewrite <- !app_assoc. eauto.
Qed.

End Runs.

Ltac run_step :=
  lazymatch goal with
  | |- runs _ (respond _ _) _ _ => apply runs_ret
  | |- runs _ (not_found _) _ _ => apply runs_ret
  | |- runs _ (ret _) _ _ => apply runs_ret
  | |- runs _ (bind (query _) _) _ _ =>
      eapply runs_bind; [apply runs_query | intros ? ? [-> [? ->]]]
  | |- runs _ (bind (populate_task _) _) _ _ =>
      eapply runs_bind; [apply runs_populate_task | intros ? ? [-> (? & ? & ? & ->)]]
  | |- runs _ (bind (populate_project _) _) _ _ =>
      eapply runs_bind; [apply runs_populate_project | intros ? ? [-> (? & ? & ->)]]
  | |- runs _ (bind (io_emit _ _) _) _ _ =>
      eapply runs_bind; [apply runs_log | intros _ ? ->]
  | |- runs _ (bind (insert_task _ _) _) _ _ =>
      eapply runs_bind; [apply runs_write | intros _ ? ->]
  | |- runs _ (bind (update_task _ _) _) _ _ =>
      eapply runs_bind; [apply runs_write | intros _ ? ->]
  | |- runs _ (bind (delete_task _) _) _ _ =>
      eapply runs_bind; [apply runs_write | intros _ ? ->]
  | |- runs _ (bind (delete_tasks_of _) _) _ _ =>
      eapply runs_bind; [apply runs_write | intros _ ? ->]
  | |- runs _ (bind (insert_project _ _) _) _ _ =>
      eapply runs_bind; [apply runs_write | intros _ ? ->]
  | |- runs _ (bind (update_project _ _) _) _ _ =>
      eapply runs_bind; [apply runs_write | intros _ ? ->]
  | |- runs _ (bind (delete_project _) _) _ _ =>
      eapply runs_bind; [apply runs_write | intros _ ? ->]
  | |- runs _ (if ?b then _ else _) _ _ => destruct b eqn:?
  | |- runs _ (match ?x with Some _ => _ | None => _ end) _ _ => destruct x eqn:?
  | |- runs _ (match ?x with (_, _) => _ end) _ _ => destruct x eqn:?
  end.

(** ** The two disciplines *)

Lemma commit_first_snoc past tr x :
  commit_first past (tr ++ [x])
  = commit_first past tr
    && match x with
       | Emitted _ e => bool_decide (commit_of e ∈ past ++ tr) && assembled e
       | _ => true
       end.
Proof.
  revert past. induction tr as [|y tr IH]; intros past; simpl.
  - by rewrite app_nil_r, andb_true_r.
  - rewrite IH, <- app_assoc. simpl. by rewrite andb_assoc.
Qed.

Lemma publish_first_snoc past tr x :
  publish_first past (tr ++ [x])
  = publish_first past tr
    && match x with
       | Emitted _ e => bool_decide (commit_of e ∉ past ++ tr) && cleared (past ++ tr) e
       | Deleted _ _ => existsb (announces x) (past ++ tr)
       | DeletedTasksOf projectId =>
           negb (existsb (announces (Deleted Projects projectId)) (past ++ tr))
       | _ => true
       end.
Proof.
  revert past. induction tr as [|y tr IH]; intros past; simpl.
  - by rewrite app_nil_r, andb_true_r.
  - rewrite IH, <- app_assoc. simpl. by rewrite andb_assoc.
Qed.

Lemma commits_first_quiet tr x :
  is_emit x = false → commits_first tr → commits_first (tr ++ [x]).
Proof.
  unfold commits_first. intros Hx Htr. rewrite commit_first_snoc, Htr.
  by destruct x.
Qed.

Lemma commits_first_emit tr room e :
  commits_first tr → commit_of e ∈ tr → assembled e = true →
  commits_first (tr ++ [Emitted room e]).
Proof.
  unfold commits_first. intros Htr Hin Ha.
  rewrite commit_first_snoc, Htr, Ha. simpl.
  by rewrite bool_decide_eq_true_2.
Qed.

Lemma commits_first_passive tr x :
  passive x = true → commits_first tr → commits_first (tr ++ [x]).
Proof. intros Hx. apply commits_first_quiet. by destruct x. Qed.

Lemma publishes_first_passive tr x :
  passive x = true → publishes_first tr → publishes_first (tr ++ [x]).
Proof.
  unfold publishes_first. intros Hx Htr. rewrite publish_first_snoc, Htr.
  by destruct x.
Qed.

Lemma publishes_first_emit tr room e :
  publishes_first tr → commit_of e ∉ tr → cleared tr e = true →
  publishes_first (tr ++ [Emitted room e]).
Proof.
  unfold publishes_first. intros Htr Hout Hcleared.
  rewrite publish_first_snoc, Htr. simpl.
  by rewrite bool_decide_eq_true_2, Hcleared.
Qed.

Lemma publishes_first_delete tr room e c k :
  publishes_first tr → Emitted room e ∈ tr → commit_of e = Deleted c k →
  publishes_first (tr ++ [Deleted c k]).
Proof.
  unfold publishes_first. intros Htr Hin Hc.
  rewrite publish_first_snoc, Htr. simpl.
  apply existsb_exists. exists (Emitted room e).
  split; [by apply list_elem_of_In|]. simpl. by apply bool_decide_eq_true_2.
Qed.

(** From a handler to the trace of the request it serves. *)
Lemma serve_trace (I : list Effect → Prop) handler d f :
  (∀ tr x, passive x = true → I tr → I (tr ++ [x])) →
  runs [] handler (λ _, I) I →
  I (trace_of handler d f).
Proof.
  intros Hquiet Hruns. unfold trace_of, serve, route.
  destruct (handler (start d f)) as [o w'] eqn:Erun. simpl.
  apply Hquiet; [done|].
  specialize (Hruns (start d f) o w' eq_refl Erun). by destruct o.
Qed.

Ltac commits :=
  repeat (run_step; try done; try exact commits_first_passive;
          try (by repeat apply commits_first_quiet)).

Ltac emitted :=
  apply commits_first_emit;
  [done | rewrite list_elem_of_In; simpl; tauto | simpl].

(** ** Create and update routes commit, populate, then publish *)

Lemma post_task_commits req body :
  runs [] (post_task req body) (λ _, commits_first) commits_first.
Proof.
  unfold post_task. commits.
  emitted. apply populate_task_populated_any.
Qed.

Lemma put_task_commits req id body :
  runs [] (put_task req id body) (λ _, commits_first) commits_first.
Proof.
  unfold put_task. commits.
  eapply runs_bind with (R := λ _ tr, tr = _).
  - unfold room_of_task. destruct (Task.project _) as [?|[?|]];
      by (apply runs_ret || apply runs_throw).
  - intros r tr ->. commits. emitted. apply populate_task_populated_any.
Qed.

Lemma post_project_commits req body :
  runs [] (post_project req body) (λ _, commits_first) commits_first.
Proof.
  unfold post_project. commits.
  emitted. apply populate_project_populated_any.
Qed.

Lemma put_project_commits req id body :
  runs [] (put_project req id body) (λ _, commits_first) commits_first.
Proof.
  unfold put_project. commits.
  emitted. apply populate_project_populated_any.
Qed.

Lemma post_member_commits req id email :
  runs [] (post_member req id email) (λ _, commits_first) commits_first.
Proof.
  unfold post_member. commits.
  emitted. apply populate_project_populated_any.
Qed.

Lemma delete_member_commits req id memberId :
  runs [] (delete_member req id memberId) (λ _, commits_first) commits_first.
Proof.
  unfold delete_member. commits.
  emitted. apply populate_project_populated_any.
Qed.

(** ** Delete routes publish, then delete *)

Lemma delete_task_route_publishes req id :
  runs [] (delete_task_route req id) (λ _, publishes_first) publishes_first.
Proof.
  unfold delete_task_route.
  repeat (run_step; try done; try exact publishes_first_passive).
  eapply publishes_first_delete; [done | by constructor | done].
Qed.

Lemma delete_project_route_publishes req id :
  runs [] (delete_project_route req id) (λ _, publishes_first) publishes_first.
Proof.
  assert (publishes_first [DeletedTasksOf id; Emitted (room id) (ProjectDeleted id)])
    as Hemitted.
  { apply (publishes_first_emit [DeletedTasksOf id]); [done| |].
    - by intros [=]%list_elem_of_singleton.
    - simpl. apply bool_decide_eq_true_2. by constructor. }
  unfold delete_project_route.
  repeat (run_step; try done; try exact publishes_first_passive).
  eapply publishes_first_delete; [done | by repeat constructor | done].
Qed.

(** ** What a successful request answers and publishes *)

Lemma published_app tr1 tr2 : published (tr1 ++ tr2) = published tr1 ++ published tr2.
Proof. apply omap_app. Qed.

Ltac answers :=
  repeat (run_step; try done);
  try (intros ? [=]);
  try (intros [=]).

Lemma post_task_answer req body tr0 :
  runs tr0 (post_task req body)
    (λ r tr, ∀ t, res_body r = TaskBody t →
       Task._id t = req_oid req
       ∧ published tr = published tr0 ++ [TaskCreated t])
    (λ _, True).
Proof.
  unfold post_task. answers. subst. split; [done|].
  rewrite !published_app; simpl. by rewrite ?app_nil_r.
Qed.

Lemma put_task_answer req id body tr0 :
  runs tr0 (put_task req id body)
    (λ r tr, ∀ t, res_body r = TaskBody t →
       Task._id t = id
       ∧ published tr = published tr0 ++ [TaskUpdated t])
    (λ _, True).
Proof.
  unfold put_task. answers.
  eapply runs_bind with (R := λ _ tr, tr = _).
  - unfold room_of_task. destruct (Task.project _) as [?|[?|]];
      by (apply runs_ret || apply runs_throw).
  - intros r tr ->. answers. subst. split; [done|].
    rewrite !published_app; simpl. by rewrite ?app_nil_r.
Qed.

Lemma delete_task_route_answer req id tr0 :
  runs tr0 (delete_task_route req id)
    (λ r tr, res_status r = 200 →
       ∃ projectId, published tr = published tr0 ++ [TaskDeleted id projectId])
    (λ _, True).
Proof.
  unfold delete_task_route. answers.
  eexists. rewrite !published_app; simpl. by rewrite ?app_nil_r.
Qed.

Lemma newest_first_ids projectId d :
  ids (find_project_tasks projectId d)
  ≡ₚ (filter (λ '(_, t), td_project t = projectId) (map_to_list (db_tasks d))).*1.
Proof.
  unfold find_project_tasks, ids.
  rewrite merge_sort_Permutation, <- list_fmap_compose.
  apply reflexive_eq, list_fmap_ext. by intros _ [k t] _.
Qed.

Lemma find_project_tasks_NoDup projectId d :
  NoDup (ids (find_project_tasks projectId d)).
Proof.
  rewrite newest_first_ids.
  apply (sublist_NoDup _ (map_to_list (db_tasks d)).*1).
  - apply NoDup_fst_map_to_list.
  - apply fmap_sublist, sublist_filter.
Qed.

Lemma get_project_tasks_answer req projectId tr0 :
  runs tr0 (get_project_tasks req projectId)
    (λ r tr, ∀ l, res_body r = TasksBody l → NoDup (ids l))
    (λ _, True).
Proof.
  unfold get_project_tasks. answers. subst. apply find_project_tasks_NoDup.
Qed.

(** ** The REST client over these routes *)

Lemma route_answer {Q : Response → list Effect → Prop} handler w r w' :
  runs (trace w) handler Q (λ _, True) →
  route handler w = (r, w') →
  (∃ tr, Q r tr) ∨ r = {| res_status := 500; res_body := Message "Server error" |}.
Proof.
  intros Hruns. unfold route.
  destruct (handler w) as [o w1] eqn:Erun. intros [= <- <-].
  specialize (Hruns w o w1 eq_refl Erun). destruct o; eauto.
Qed.

(** The status tests of the REST client. *)
Lemma status_200 {A} (status : nat) (x y : A) :
  match status with 200 => x | _ => y end = if decide (status = 200) then x else y.
Proof.
  destruct (decide (status = 200)) as [->|Hne]; [reflexivity|].
  do 200 (destruct status as [|status]; [reflexivity|]).
  destruct status as [|status]; [done|reflexivity].
Qed.

Lemma status_201 {A} (status : nat) (x y : A) :
  match status with 201 => x | _ => y end = if decide (status = 201) then x else y.
Proof.
  destruct (decide (status = 201)) as [->|Hne]; [reflexivity|].
  do 201 (destruct status as [|status]; [reflexivity|]).
  destruct status as [|status]; [done|reflexivity].
Qed.

Lemma server_fetch_distinct w req projectId data :
  getProjectTasks (server_api w req) projectId = Resolved data → NoDup (ids data).
Proof.
  simpl. destruct (route _ w) as [r w'] eqn:Er. simpl.
  destruct (route_answer _ _ _ _ (get_project_tasks_answer req projectId (trace w)) Er)
    as [[tr HQ]| ->]; [|done].
  destruct r as [status body]. simpl in *.
  rewrite status_200. case_decide; [|done].
  destruct body; try done. intros [= <-]. by apply HQ.
Qed.

Lemma server_update_same_id w req taskId updates updated :
  updateTask (server_api w req) taskId updates = Resolved updated →
  Task._id updated = taskId.
Proof.
  simpl. destruct (route _ w) as [r w'] eqn:Er. simpl.
  destruct (route_answer _ _ _ _ (put_task_answer req taskId updates (trace w)) Er)
    as [[tr HQ]| ->]; [|done].
  destruct r as [status body]. simpl in *.
  rewrite status_200. case_decide; [|done].
  destruct body; try done. intros [= <-]. by apply HQ.
Qed.

Lemma server_api_well_behaved w req : well_behaved (server_api w req).
Proof.
  split.
  - apply server_fetch_distinct.
  - apply server_update_same_id.
Qed.

(** * Properties of the project view in operation *)

Lemma step_NoDup id v o :
  NoDup (ids (tasks v)) → NoDup (ids (tasks (step id v o))).
Proof.
  intros Hnd. destruct o as [w req|e|form|w req|w req taskId updates|w req c taskId];
    unfold step.
  - apply fetchTasks_NoDup; [apply server_api_well_behaved | done].
  - unfold receive. simpl. by apply on_event_NoDup.
  - done.
  - by apply handleCreateTask_NoDup.
  - apply handleUpdateTask_NoDup; [apply server_api_well_behaved | done].
  - by apply handleDeleteTask_NoDup.
Qed.

(** C1 (invariant I3).  Whatever sequence of reconciliation operations is
    applied to the task list of a view -- the fetch that replaces it,
    task-created, task-updated and task-deleted events, and the results of
    locally initiated REST creates, updates and deletes, each result being
    the answer of the route to the call the handler makes -- if the list
    starts with pairwise distinct task identifiers, then after every
    operation no two of its entries have the same task identifier. *)
Theorem task_identifiers_stay_distinct
    (id : option string) (ops : list Operation) (v : View) :
  NoDup (ids (tasks v)) →
  ∀ n, NoDup (ids (tasks (run id (take n ops) v))).
Proof.
  intros Hnd n. unfold run.
  generalize (take n ops). clear n ops. intros ops.
  revert v Hnd. induction ops as [|o ops IH]; intros v Hnd; simpl.
  - exact Hnd.
  - apply IH. by apply step_NoDup.
Qed.

Lemma task_identifiers_stay_distinct_witness :
  NoDup (ids (tasks empty_view))
  ∧ NoDup (ids (tasks (run (Some "p1") (take 9 session) empty_view))).
Proof.
  split; [constructor|].
  apply (task_identifiers_stay_distinct (Some "p1") session empty_view).
  constructor.
Defined.


(** ** One mutation, two paths *)

(** The three REST handlers hand [rest] to [setTasks] when their call
    resolves. *)
Lemma handleCreateTask_resolved api pid v task :
  truthy (Some pid) = true → truthy (Some (ct_title (newTask v))) = true →
  createTask api (create_payload pid (newTask v)) = Resolved task →
  tasks (handleCreateTask api (Some pid) v) = rest (Created task) (tasks v).
Proof. intros Hid Htitle Hapi. unfold handleCreateTask. by rewrite Hid, Htitle, Hapi. Qed.

Lemma handleUpdateTask_resolved api updates v task :
  updateTask api (Task._id task) updates = Resolved task →
  tasks (handleUpdateTask api (Task._id task) updates v) = rest (Updated task) (tasks v).
Proof. intros Hapi. unfold handleUpdateTask. by rewrite Hapi. Qed.

Lemma handleDeleteTask_resolved api taskId projectId v :
  deleteTask api taskId = Resolved tt →
  tasks (handleDeleteTask api true taskId v) = rest (Removed taskId projectId) (tasks v).
Proof. intros Hapi. unfold handleDeleteTask. by rewrite Hapi. Qed.

(** On the server, one successful request is one [Mutation]: what it
    answers is what it publishes. *)
Lemma serve_answer {Q : Response → list Effect → Prop} handler d f :
  runs [] handler Q (λ _, True) →
  (∃ tr, trace_of handler d f = tr ++ [Responded (serve handler d f).1]
         ∧ Q (serve handler d f).1 tr)
  ∨ (serve handler d f).1 = {| res_status := 500; res_body := Message "Server error" |}.
Proof.
  intros Hruns. unfold trace_of, serve, route.
  destruct (handler (start d f)) as [o w1] eqn:Erun. simpl.
  specialize (Hruns (start d f) o w1 eq_refl Erun). destruct o; eauto.
Qed.

Lemma published_responded tr r : published (tr ++ [Responded r]) = published tr.
Proof. rewrite published_app. simpl. apply app_nil_r. Qed.

Lemma create_is_one_mutation req body d f task :
  res_body (serve (post_task req body) d f).1 = TaskBody task →
  published (trace_of (post_task req body) d f) = [echo (Created task)].
Proof.
  intros Hbody.
  destruct (serve_answer _ d f (post_task_answer req body [])) as [(tr & -> & HQ)|Herr].
  - rewrite published_responded. by apply HQ.
  - by rewrite Herr in Hbody.
Qed.

Lemma update_is_one_mutation req id body d f task :
  res_body (serve (put_task req id body) d f).1 = TaskBody task →
  Task._id task = id
  ∧ published (trace_of (put_task req id body) d f) = [echo (Updated task)].
Proof.
  intros Hbody.
  destruct (serve_answer _ d f (put_task_answer req id body [])) as [(tr & -> & HQ)|Herr].
  - rewrite published_responded. by apply HQ.
  - by rewrite Herr in Hbody.
Qed.

Lemma delete_is_one_mutation req id d f :
  res_status (serve (delete_task_route req id) d f).1 = 200 →
  ∃ projectId,
    published (trace_of (delete_task_route req id) d f) = [echo (Removed id projectId)].
Proof.
  intros Hstatus.
  destruct (serve_answer _ d f (delete_task_route_answer req id [])) as [(tr & -> & HQ)|Herr].
  - rewrite published_responded. by apply HQ.
  - by rewrite Herr in Hstatus.
Qed.

Lemma server_update_resolved d f req taskId updates updated :
  updateTask (server_api (start d f) req) taskId updates = Resolved updated →
  res_body (serve (put_task req taskId updates) d f).1 = TaskBody updated.
Proof.
  simpl. unfold serve. destruct (route _ _) as [[status body] w']. simpl.
  rewrite status_200. case_decide; [|done].
  destruct body; try done. by intros [= <-].
Qed.

Lemma server_create_resolved d f req data task :
  createTask (server_api (start d f) req) data = Resolved task →
  res_body (serve (post_task req data) d f).1 = TaskBody task.
Proof.
  simpl. unfold serve. destruct (route _ _) as [[status body] w']. simpl.
  rewrite status_201. case_decide; [|done].
  destruct body; try done. by intros [= <-].
Qed.

Lemma server_delete_resolved d f req taskId :
  deleteTask (server_api (start d f) req) taskId = Resolved tt →
  res_status (serve (delete_task_route req taskId) d f).1 = 200.
Proof.
  simpl. unfold serve. destruct (route _ _) as [[status body] w']. simpl.
  rewrite status_200. by case_decide.
Qed.

Lemma push_is_rest id pid m :
  id = Some pid → event_project (echo m) = Some pid → push id m = rest m.
Proof.
  intros -> Hp. unfold push. destruct m as [task|task|taskId projectId]; simpl in *.
  - unfold on_task_created. by erewrite guard_true.
  - unfold on_task_updated. by erewrite guard_true.
  - unfold on_task_deleted. by rewrite bool_decide_eq_true_2.
Qed.

Lemma rest_idem m prev : rest m (rest m prev) = rest m prev.
Proof.
  destruct m as [task|task|taskId projectId]; simpl.
  - apply prepend_if_absent_idem.
  - by apply replace_by_id_idem.
  - apply remove_by_id_idem.
Qed.

(** The update of a task of the viewed project, end to end: the view that
    made the REST call and then receives what the route published holds
    the list the REST answer alone gives, and so does a view that only
    receives the publication. *)
Lemma update_reaches_view_once d f req taskId updates pid v updated :
  updateTask (server_api (start d f) req) taskId updates = Resolved updated →
  project_id updated = Some pid →
  let api := server_api (start d f) req in
  let events := published (trace_of (put_task req taskId updates) d f) in
  tasks (receive_all (Some pid) events (handleUpdateTask api taskId updates v))
  = tasks (handleUpdateTask api taskId updates v)
  ∧ tasks (receive_all (Some pid) events v)
    = tasks (handleUpdateTask api taskId updates v).
Proof.
  intros Hapi Hp api events.
  destruct (update_is_one_mutation req taskId updates d f updated
              (server_update_resolved _ _ _ _ _ _ Hapi)) as [Hid Hev].
  subst events api taskId. rewrite Hev.
  unfold receive_all, receive. cbn [foldl tasks setTasks].
  rewrite handleUpdateTask_resolved by done.
  change (on_event (Some pid) (echo (Updated updated)))
    with (push (Some pid) (Updated updated)).
  rewrite (push_is_rest (Some pid) pid (Updated updated)) by done.
  split; [apply rest_idem | done].
Qed.

Lemma delete_reaches_view_once d f req taskId pid v :
  deleteTask (server_api (start d f) req) taskId = Resolved tt →
  published (trace_of (delete_task_route req taskId) d f) = [TaskDeleted taskId pid] →
  let api := server_api (start d f) req in
  let events := published (trace_of (delete_task_route req taskId) d f) in
  tasks (receive_all (Some pid) events (handleDeleteTask api true taskId v))
  = tasks (handleDeleteTask api true taskId v)
  ∧ tasks (receive_all (Some pid) events v)
    = tasks (handleDeleteTask api true taskId v).
Proof.
  intros Hapi Hev api events. subst events api. rewrite Hev.
  unfold receive_all, receive. cbn [foldl tasks setTasks].
  rewrite (handleDeleteTask_resolved _ taskId pid) by done.
  change (on_event (Some pid) (TaskDeleted taskId pid))
    with (push (Some pid) (Removed taskId pid)).
  rewrite (push_is_rest (Some pid) pid (Removed taskId pid)) by done.
  split; [apply rest_idem | done].
Qed.

(** * Properties of the Mutation Pipeline, by route *)

(** C3, as the code has it.  In the create and update routes of tasks and
    projects, and in the two membership routes, an event is published only
    after the write of its entity has committed and the entity has been
    populated.  In the two delete routes the event is published before the
    entity is deleted (for a project, after its tasks have been deleted):
    every publication there precedes the deletion it announces. *)
Theorem publication_order (req : Request) (d : Database) (f : option nat) :
  (∀ body, commits_first (trace_of (post_task req body) d f))
  ∧ (∀ id body, commits_first (trace_of (put_task req id body) d f))
  ∧ (∀ body, commits_first (trace_of (post_project req body) d f))
  ∧ (∀ id body, commits_first (trace_of (put_project req id body) d f))
  ∧ (∀ id email, commits_first (trace_of (post_member req id email) d f))
  ∧ (∀ id memberId, commits_first (trace_of (delete_member req id memberId) d f))
  ∧ (∀ id, publishes_first (trace_of (delete_task_route req id) d f))
  ∧ (∀ id, publishes_first (trace_of (delete_project_route req id) d f)).
Proof.
  repeat split; intros.
  - apply serve_trace; [apply commits_first_passive | apply post_task_commits].
  - apply serve_trace; [apply commits_first_passive | apply put_task_commits].
  - apply serve_trace; [apply commits_first_passive | apply post_project_commits].
  - apply serve_trace; [apply commits_first_passive | apply put_project_commits].
  - apply serve_trace; [apply commits_first_passive | apply post_member_commits].
  - apply serve_trace; [apply commits_first_passive | apply delete_member_commits].
  - apply serve_trace; [apply publishes_first_passive | apply delete_task_route_publishes].
  - apply serve_trace; [apply publishes_first_passive | apply delete_project_route_publishes].
Qed.

(** C3, as stated, fails on the delete routes: the task-deleted event is in
    the trace before the deletion. *)
Lemma delete_publishes_before_commit :
  ¬ commits_first (trace_of (delete_task_route as_alice "t1") sample_db None).
Proof. unfold commits_first. by vm_compute. Qed.

Example delete_task_trace :
  trace_of (delete_task_route as_alice "t1") sample_db None
  = [ Emitted "project-p1" (TaskDeleted "t1" "p1");
      Deleted Tasks "t1";
      Responded {| res_status := 200; res_body := Message "Task deleted successfully" |} ].
Proof. by vm_compute. Qed.

Example delete_project_trace :
  trace_of (delete_project_route as_alice "p1") sample_db None
  = [ DeletedTasksOf "p1";
      Emitted "project-p1" (ProjectDeleted "p1");
      Deleted Projects "p1";
      Responded {| res_status := 200; res_body := Message "Project deleted successfully" |} ].
Proof. by vm_compute. Qed.

(** The order matters to the discipline: a project route that published
    before it deleted the tasks, or deleted the project unannounced, would
    not follow it. *)
Example publishing_before_the_tasks_go_is_another_order :
  ¬ publishes_first [ Emitted "project-p1" (ProjectDeleted "p1");
                      DeletedTasksOf "p1"; Deleted Projects "p1" ]
  ∧ ¬ publishes_first [ DeletedTasksOf "p1"; Deleted Projects "p1";
                        Emitted "project-p1" (ProjectDeleted "p1") ]
  ∧ ¬ publishes_first [ Emitted "project-p1" (ProjectDeleted "p1");
                        Deleted Projects "p1"; DeletedTasksOf "p1" ].
Proof. unfold publishes_first. by vm_compute. Qed.

(** When the deletion itself fails, its event has gone out all the same. *)
Example delete_published_but_not_done :
  let '(r, w) := serve (delete_task_route as_alice "t1") sample_db (Some 2) in
  res_status r = 500
  ∧ published (trace w) = [TaskDeleted "t1" "p1"]
  ∧ db_tasks (db w) !! "t1" = Some (draft "Landing page" "p1" Todo 10).
Proof. by vm_compute. Qed.

Example update_task_trace :
  trace_of (put_task as_alice "t1" (only_status Done)) sample_db None
  = [ Saved Tasks "t1";
      PopulatedPath "project"; PopulatedPath "assignee"; PopulatedPath "createdBy";
      Emitted "project-p1" (TaskUpdated landing_done);
      Responded {| res_status := 200; res_body := TaskBody landing_done |} ].
Proof. by vm_compute. Qed.

(** C9.  When the owner of a project asks to remove the member whose
    identifier is the owner's own, the request fails with status 400 and
    the message 'Cannot remove project owner', the member list of the
    project (indeed the whole database) is unchanged, and no
    project-member-removed event, nor any other, is published. *)
Theorem owner_cannot_be_removed
    (req : Request) (id memberId : string) (p : ProjectDoc)
    (d : Database) (f : option nat) :
  db_projects d !! id = Some p →
  pd_owner p = req_user req →
  memberId = pd_owner p →
  f ≠ Some 0 →
  (serve (delete_member req id memberId) d f).1
    = {| res_status := 400; res_body := Message "Cannot remove project owner" |}
  ∧ db (serve (delete_member req id memberId) d f).2 = d
  ∧ db_projects (db (serve (delete_member req id memberId) d f).2) !! id = Some p
  ∧ published (trace_of (delete_member req id memberId) d f) = [].
Proof.
  intros Hp Howner -> Hf.
  assert (find_project_of_owner id (req_user req) d = Some p) as Hfind.
  { unfold find_project_of_owner. rewrite Hp. simpl.
    by rewrite bool_decide_eq_true_2. }
  unfold trace_of, serve, route, start, delete_member, bind, query, await. simpl.
  destruct f as [[|n]|]; [done| |]; simpl; rewrite Hfind;
    rewrite bool_decide_eq_true_2 by done; done.
Qed.

Lemma owner_cannot_be_removed_witness :
  (serve (delete_member as_alice "p1" "u1") sample_db None).1
    = {| res_status := 400; res_body := Message "Cannot remove project owner" |}
  ∧ db (serve (delete_member as_alice "p1" "u1") sample_db None).2 = sample_db
  ∧ db_projects (db (serve (delete_member as_alice "p1" "u1") sample_db None).2) !! "p1"
    = Some website
  ∧ published (trace_of (delete_member as_alice "p1" "u1") sample_db None) = [].
Proof.
  apply (owner_cannot_be_removed as_alice "p1" "u1" website sample_db None);
    [by vm_compute | reflexivity | reflexivity | discriminate].
Defined.

(** Any other member is removed, and the removal is published. *)
Example member_removed :
  let '(r, w) := serve (delete_member as_alice "p1" "u2") sample_db None in
  res_status r = 200
  ∧ pd_members <$> db_projects (db w) !! "p1" = Some ["u1"]
  ∧ kind <$> published (trace w) = ["project-member-removed"].
Proof. by vm_compute. Qed.

(** Whatever goes wrong, the owner stays a member and nothing is published. *)
Lemma owner_removal_never_published req id p d f :
  db_projects d !! id = Some p →
  pd_owner p = req_user req →
  db (serve (delete_member req id (pd_owner p)) d f).2 = d
  ∧ published (trace_of (delete_member req id (pd_owner p)) d f) = [].
Proof.
  intros Hp Howner.
  assert (find_project_of_owner id (req_user req) d = Some p) as Hfind.
  { unfold find_project_of_owner. rewrite Hp. simpl.
    by rewrite bool_decide_eq_true_2. }
  unfold trace_of, serve, route, start, delete_member, bind, query, await. simpl.
  destruct f as [[|n]|]; simpl; [by destruct d| |]; rewrite Hfind;
    rewrite bool_decide_eq_true_2 by done; done.
Qed.

(** * Properties of the bus while an event is dispatched *)

Section LiveProperties.
Context {S D : Type}.
Implicit Types (reg : gmap string (list (Reactive S D))) (r : Reactive S D)
  (w : Walk S D).

Lemma listening_live_on event r reg :
  listening (live_on event r reg) event = listening reg event ++ [r].
Proof. unfold listening at 1, live_on. by rewrite lookup_insert_eq. Qed.

Lemma listening_live_on_all event l reg :
  listening (live_on_all event l reg) event = listening reg event ++ l.
Proof.
  unfold live_on_all. revert reg. induction l as [|r l IH]; intros reg; simpl.
  - by rewrite app_nil_r.
  - rewrite IH, listening_live_on. by rewrite <- app_assoc.
Qed.

Lemma live_on_all_lookup event l reg :
  l ≠ [] → live_on_all event l reg !! event = Some (listening reg event ++ l).
Proof.
  intros Hl. pose proof (listening_live_on_all event l reg) as Hreg.
  unfold listening at 1 in Hreg.
  destruct (live_on_all event l reg !! event) as [x|] eqn:E; simpl in Hreg.
  - by rewrite Hreg.
  - destruct l; [done|]. by destruct (listening reg event).
Qed.

(** A call that spares the event leaves the course as it is, and the
    walked array too, but for listeners appended to it. *)
Lemma perform_spares event w c :
  spares event c →
  (∃ more, walked (perform event w c) = walked w ++ more)
  ∧ course (perform event w c) = course w.
Proof.
  destruct c as [e r|e callback|]; simpl; intros He.
  - split; [|done]. destruct (linked w && bool_decide (e = event)).
    + by exists [r].
    + exists []. by rewrite app_nil_r.
  - split; [|done]. exists [].
    by rewrite bool_decide_eq_false_2, andb_false_r, app_nil_r.
  - split; [|done]. exists []. by rewrite app_nil_r.
Qed.

Lemma foldl_perform_spares event cs w :
  Forall (spares event) cs →
  (∃ more, walked (foldl (perform event) w cs) = walked w ++ more)
  ∧ course (foldl (perform event) w cs) = course w.
Proof.
  revert w. induction cs as [|c cs IH]; intros w Hcs; simpl.
  - split; [|done]. exists []. by rewrite app_nil_r.
  - apply Forall_cons in Hcs as [Hc Hcs].
    destruct (IH (perform event w c) Hcs) as [[more2 ->] ->].
    destruct (perform_spares event w c Hc) as [[more1 ->] ->].
    split; [|done]. exists (more1 ++ more2). by rewrite <- app_assoc.
Qed.

Lemma visit_steady event data w k r :
  walked w !! k = Some r → steady event r →
  (∃ more, walked (visit event data w k) = walked w ++ more)
  ∧ course (visit event data w k) = call event data (course w) (base_of r).
Proof.
  intros Hk Hr. unfold visit. rewrite Hk.
  exact (foldl_perform_spares event (calls_of r data (app (course w)))
           {| walked := walked w; linked := linked w; registry := registry w;
              course := call event data (course w) (base_of r) |}
           (Hr data (app (course w)))).
Qed.

(** Walking steady listeners is folding over the list as it was when the
    walk began. *)
Lemma walk_steady event data l1 l2 more w :
  walked w = l1 ++ l2 ++ more → Forall (steady event) l2 →
  course (foldl (visit event data) w (seq (length l1) (length l2)))
  = foldl (call event data) (course w) (base_of <$> l2).
Proof.
  revert l1 more w. induction l2 as [|r l2 IH]; intros l1 more w Hw Hl2; [done|].
  apply Forall_cons in Hl2 as [Hr Hl2]. simpl.
  assert (walked w !! length l1 = Some r) as Hk.
  { rewrite Hw. by apply list_lookup_middle. }
  destruct (visit_steady event data w (length l1) r Hk Hr) as [[more' Hwalked] Hcourse].
  replace (Datatypes.S (length l1)) with (length (l1 ++ [r]))
    by (rewrite length_app; simpl; lia).
  rewrite (IH (l1 ++ [r]) (more ++ more') (visit event data w (length l1))); [|..|done].
  - by rewrite Hcourse.
  - rewrite Hwalked, Hw. by rewrite <- !app_assoc.
Qed.

Lemma live_emit_steady event data reg s :
  Forall (steady event) (listening reg event) →
  course (live_emit event data reg s)
  = foldl (call event data) {| app := s; errors := []; invoked := [] |}
      (base_of <$> listening reg event).
Proof.
  intros Hl. unfold live_emit, listening in *.
  destruct (reg !! event) as [l|]; simpl in *; [|done].
  by rewrite (walk_steady event data [] l []); [|rewrite app_nil_r|].
Qed.


(** On listeners that leave the service alone, the walk is the fold. *)
Lemma live_emit_passive event data (svc : SocketService S D) s :
  course (live_emit event data (fmap (M := list) passive_listener <$> listeners svc) s)
  = emit event data svc s.
Proof.
  rewrite live_emit_steady.
  - unfold listening. rewrite emit_registered, lookup_fmap. unfold registered.
    destruct (listeners svc !! event) as [l|]; simpl; [|done].
    rewrite <- list_fmap_compose. f_equal. by rewrite <- (list_fmap_id l) at 2.
  - unfold listening. rewrite lookup_fmap.
    destruct (listeners svc !! event) as [l|]; simpl; [|done].
    apply Forall_fmap, Forall_forall. intros callback _ data' s'. constructor.
Qed.

End LiveProperties.



Example the_next_listener_is_skipped :
  let w := live_emit "task-updated" (TaskUpdated landing_done) once_then_view
             (view_of [contact; landing]) in
  cb_id ∘ base_of <$> listening once_then_view "task-updated" = [1; 2]
  ∧ invoked (course w) = [(1, TaskUpdated landing_done)]
  ∧ cb_id ∘ base_of <$> listening (registry w) "task-updated" = [2].
Proof. by vm_compute. Qed.

(** A listener that calls [disconnect] does not stop the dispatch: the
    array being walked is not the map that is cleared. *)
Example disconnect_during_dispatch :
  let w := live_emit "task-updated" (TaskUpdated landing_done)
             (live_on_all "task-updated" three_listeners ∅)
             (view_of [contact; landing]) in
  fst <$> invoked (course w) = [7; 1; 2]
  ∧ listening (registry w) "task-updated" = [].
Proof. by vm_compute. Qed.

(** * More properties of the project page *)

Lemma filteredTasks_spec f l t :
  t ∈ filteredTasks f l ↔ t ∈ l ∧ passes f t = true.
Proof.
  unfold filteredTasks. rewrite !list_elem_of_In. apply filter_In.
Qed.

Lemma filter_by_status_split (l : list Task.t) :
  List.filter (λ t, bool_decide (Task.status t = Todo)) l
  ++ List.filter (λ t, bool_decide (Task.status t = InProgress)) l
  ++ List.filter (λ t, bool_decide (Task.status t = Done)) l
  ≡ₚ l.
Proof.
  induction l as [|t l IH]; [done|].
  simpl. destruct (Task.status t); simpl.
  - by rewrite IH.
  - rewrite <- Permutation_middle. by rewrite IH.
  - rewrite app_assoc, <- Permutation_middle, <- app_assoc. by rewrite IH.
Qed.

Lemma concat_board f l :
  concat (board f l)
  = column f Todo l ++ column f InProgress l ++ column f Done l.
Proof. unfold board. simpl. by rewrite app_nil_r. Qed.

Lemma filter_sublist_bool {A} (p : A → bool) (l : list A) :
  List.filter p l `sublist_of` l.
Proof.
  induction l as [|x l IH]; simpl; [constructor|].
  destruct (p x); by constructor.
Qed.

(** X1.  The board shows every task that passes the filters exactly once,
    in the column of its status; and when the tasks of the list have
    distinct identifiers, so have the cards on the board. *)
Theorem board_shows_each_task_once (f : Filters) (l : list Task.t) :
  concat (board f l) ≡ₚ filteredTasks f l
  ∧ (∀ s t, t ∈ column f s l ↔ t ∈ filteredTasks f l ∧ Task.status t = s)
  ∧ (NoDup (ids l) → NoDup (ids (concat (board f l)))).
Proof.
  split; [|split].
  - rewrite concat_board. unfold column. apply filter_by_status_split.
  - intros s t. unfold column. rewrite list_elem_of_In, filter_In.
    rewrite <- list_elem_of_In, bool_decide_eq_true. done.
  - intros Hnd. unfold ids.
    rewrite concat_board. unfold column.
    rewrite (filter_by_status_split (filteredTasks f l)).
    eapply sublist_NoDup; [exact Hnd|].
    apply fmap_sublist, filter_sublist_bool.
Qed.

Lemma board_shows_each_task_once_witness :
  NoDup (ids [landing; contact])
  ∧ NoDup (ids (concat (board no_filters [landing; contact]))).
Proof.
  assert (NoDup (ids [landing; contact])) as Hnd.
  { apply (bool_decide_unpack _). by vm_compute. }
  split; [exact Hnd|].
  by apply (board_shows_each_task_once no_filters [landing; contact]).
Defined.

(** X2.  With no filter chosen every task is shown.  In general a task is
    shown exactly when it is in the list, has the chosen status if one is
    chosen, and has a populated assignee with the chosen identifier if an
    assignee is chosen; so a task without assignee is hidden by every
    assignee filter. *)
Theorem filteredTasks_shows (f : Filters) (l : list Task.t) (t : Task.t) :
  filteredTasks no_filters l = l
  ∧ filteredTasks (choose_assignee EmptyString (choose_status None f)) l = l
  ∧ (t ∈ filteredTasks f l ↔
       t ∈ l
       ∧ (∀ s, f_status f = Some s → Task.status t = s)
       ∧ (∀ a, f_assignee f = Some a → a ≠ EmptyString → assignee_id t = Some a)).
Proof.
  assert (∀ l : list Task.t, List.filter (λ _, true) l = l) as Hall.
  { intros l0. induction l0 as [|x l0 IH]; simpl; by rewrite ?IH. }
  split; [apply Hall|]. split; [apply Hall|].
  rewrite filteredTasks_spec. unfold passes, truthy.
  destruct (f_status f) as [s|], (f_assignee f) as [a|]; simpl;
    rewrite ?andb_true_r, ?andb_true_iff; repeat case_bool_decide;
    naive_solver.
Qed.

Lemma filteredTasks_shows_witness :
  landing ∈ filteredTasks {| f_status := Some Todo; f_assignee := None |}
              [contact; landing].
Proof.
  apply (filteredTasks_shows {| f_status := Some Todo; f_assignee := None |}
           [contact; landing] landing).
  split; [apply list_elem_of_further, list_elem_of_here|].
  split; [by intros s [= <-] | by intros a [=]].
Defined.

(** X3.  Submitting the new-task form twice in a row creates one task: once
    a submission has resolved, the form is blank, and the second submission
    does nothing.  This holds whenever the call does not reject. *)
Theorem create_form_submits_once (api : TasksAPI) (id : option string) (v : View) :
  (∀ pid error, id = Some pid →
     createTask api (create_payload pid (newTask v)) ≠ Rejected error) →
  handleCreateTask api id (handleCreateTask api id v) = handleCreateTask api id v.
Proof.
  intros Hok. unfold handleCreateTask at 2 3.
  destruct id as [pid|]; [|done].
  destruct (truthy (Some pid) && truthy (Some (ct_title (newTask v)))) eqn:Hgo.
  - destruct (createTask api _) as [task|error] eqn:Hapi.
    + unfold handleCreateTask. simpl. by rewrite andb_false_r.
    + by destruct (Hok pid error eq_refl).
  - unfold handleCreateTask. by rewrite Hgo.
Qed.

Lemma create_form_submits_once_witness :
  let api := server_api (start sample_db None) as_alice in
  ids (tasks (handleCreateTask api (Some "p1")
                (handleCreateTask api (Some "p1") (view_of [landing]))))
  = ["t3"; "t1"].
Proof.
  intros api.
  rewrite (create_form_submits_once api (Some "p1") (view_of [landing])).
  - by vm_compute.
  - intros pid error [= <-]. by vm_compute.
Defined.

Lemma on_project_event_view id e pg :
  pg_view (on_project_event id e pg) = pg_view pg.
Proof. destruct e; simpl; try done; by destruct (about id _). Qed.

Lemma on_project_event_on_view id e g pg :
  on_project_event id e (on_view g pg) = on_view g (on_project_event id e pg).
Proof. destruct e; simpl; try done; by destruct (about id _). Qed.

(** X4.  Events about tasks and events about the project do not interfere:
    a project event never changes the task list, a task event never changes
    the project, and the page ends in the same state whichever of the two
    arrives first. *)
Theorem task_and_project_events_commute
    (id : option string) (e1 e2 : SocketEvent) (pg : Page) :
  is_task_event e1 = true →
  is_task_event e2 = false →
  pg_view (page_receive id e2 pg) = pg_view pg
  ∧ pg_project (page_receive id e1 pg) = pg_project pg
  ∧ page_receive id e1 (page_receive id e2 pg)
    = page_receive id e2 (page_receive id e1 pg).
Proof.
  intros H1 H2. unfold page_receive.
  assert (∀ pg, on_project_event id e1 pg = pg) as Hp1.
  { intros pg0. by destruct e1. }
  assert (∀ pg, on_view (receive id e2) pg = pg) as Hv2.
  { intros [[] ? ? ? ?]. by destruct e2. }
  rewrite !Hp1, !Hv2. split; [apply on_project_event_view|].
  split; [done|]. by rewrite on_project_event_on_view.
Qed.

Lemma task_and_project_events_commute_witness :
  let pg := page_of [contact; landing] in
  page_receive (Some "p1") (TaskUpdated landing_done)
    (page_receive (Some "p1") (ProjectUpdated website_wire) pg)
  = page_receive (Some "p1") (ProjectUpdated website_wire)
      (page_receive (Some "p1") (TaskUpdated landing_done) pg).
Proof.
  intros pg.
  apply (task_and_project_events_commute (Some "p1") (TaskUpdated landing_done)
           (ProjectUpdated website_wire) pg eq_refl eq_refl).
Defined.

(** X5.  A project-updated, project-member-added or project-member-removed
    event is stored only when it is about the viewed project: then the
    project of the page becomes the project of the event; an event about
    any other project leaves the page as it is. *)
Theorem project_event_guarded
    (id : option string) (proj : Project.t) (newMember : User.t)
    (removedMemberId : string) (pg : Page) :
  (Some (Project._id proj) = id →
     pg_project (page_receive id (ProjectUpdated proj) pg) = Some proj
     ∧ pg_project (page_receive id (ProjectMemberAdded proj newMember) pg) = Some proj
     ∧ pg_project (page_receive id (ProjectMemberRemoved proj removedMemberId) pg)
       = Some proj)
  ∧ (Some (Project._id proj) ≠ id →
     page_receive id (ProjectUpdated proj) pg = pg
     ∧ page_receive id (ProjectMemberAdded proj newMember) pg = pg
     ∧ page_receive id (ProjectMemberRemoved proj removedMemberId) pg = pg).
Proof.
  unfold page_receive. simpl. unfold about. split; intros Hid.
  - by rewrite bool_decide_eq_true_2.
  - rewrite bool_decide_eq_false_2 by done. by destruct pg as [[] ? ? ? ?].
Qed.

Lemma project_event_guarded_witness :
  pg_project (page_receive (Some "p1") (ProjectUpdated website_wire) (page_of []))
  = Some website_wire
  ∧ page_receive (Some "p1") (ProjectUpdated billing_wire) (page_of []) = page_of [].
Proof.
  split.
  - apply (project_event_guarded (Some "p1") website_wire (user_of "u2" bob) "u2"
             (page_of [])). reflexivity.
  - apply (project_event_guarded (Some "p1") billing_wire (user_of "u2" bob) "u2"
             (page_of [])). discriminate.
Defined.

(** X6.  Adding a member: when the call rejects, or the e-mail field is
    empty, neither the project nor the dialog nor the task list changes;
    when it resolves, the project becomes the answer, the e-mail field is
    cleared and the dialog is closed, and the task list stays as it is. *)
Theorem add_member_outcomes
    (api : ProjectsAPI) (pid : string) (pg : Page) :
  (∀ error, addMember api pid (pg_memberEmail pg) = Rejected error →
     pg_project (handleAddMember api (Some pid) pg) = pg_project pg
     ∧ pg_showMemberModal (handleAddMember api (Some pid) pg) = pg_showMemberModal pg
     ∧ pg_memberEmail (handleAddMember api (Some pid) pg) = pg_memberEmail pg
     ∧ tasks (pg_view (handleAddMember api (Some pid) pg)) = tasks (pg_view pg))
  ∧ (pg_memberEmail pg = EmptyString → handleAddMember api (Some pid) pg = pg)
  ∧ (∀ proj, addMember api pid (pg_memberEmail pg) = Resolved proj →
     pid ≠ EmptyString → pg_memberEmail pg ≠ EmptyString →
     handleAddMember api (Some pid) pg
     = {| pg_view := pg_view pg; pg_project := Some proj;
          pg_showMemberModal := false; pg_memberEmail := EmptyString;
          pg_filters := pg_filters pg |}).
Proof.
  unfold handleAddMember. split; [|split].
  - intros error Hapi. destruct (_ && _); [|done]. by rewrite Hapi.
  - intros ->. simpl. by rewrite andb_false_r.
  - intros proj Hapi Hpid Hemail. simpl.
    rewrite !bool_decide_eq_true_2 by done. simpl. by rewrite Hapi.
Qed.

Lemma add_member_outcomes_witness :
  pg_project (handleAddMember projects_offline (Some "p1") (page_of [landing]))
  = Some website_wire
  ∧ pg_showMemberModal (handleAddMember projects_offline (Some "p1") (page_of [landing]))
    = true.
Proof.
  destruct (add_member_outcomes projects_offline "p1" (page_of [landing]))
    as [Hfail _].
  destruct (Hfail "Network Error" eq_refl) as (Hp & Hm & _).
  split; [exact Hp | exact Hm].
Defined.

(** * More properties of the Client Event Bus *)

Section MoreBusProperties.
Context {S D : Type}.
Implicit Types (svc : SocketService S D) (callback : Callback S D).

Lemma remove_first_absent callback (l : list (Callback S D)) :
  cb_id callback ∉ cb_id <$> l → remove_first callback l = l.
Proof.
  induction l as [|c l IH]; [done|]. simpl. intros Hout.
  apply not_elem_of_cons in Hout as [Hne Hout].
  rewrite bool_decide_eq_false_2 by done. by rewrite IH.
Qed.

Lemma remove_first_snoc callback (l : list (Callback S D)) :
  cb_id callback ∉ cb_id <$> l → remove_first callback (l ++ [callback]) = l.
Proof.
  induction l as [|c l IH]; simpl.
  - intros _. by rewrite bool_decide_eq_true_2.
  - intros Hout. apply not_elem_of_cons in Hout as [Hne Hout].
    rewrite bool_decide_eq_false_2 by done. by rewrite IH.
Qed.

Lemma remove_first_length callback (l : list (Callback S D)) :
  length (remove_first callback l)
  = length l - (if bool_decide (cb_id callback ∈ cb_id <$> l) then 1 else 0).
Proof.
  induction l as [|c l IH]; [done|]. simpl.
  destruct (bool_decide (cb_id c = cb_id callback)) eqn:Ec.
  - apply bool_decide_eq_true in Ec.
    rewrite bool_decide_eq_true_2 by (rewrite Ec; left). lia.
  - apply bool_decide_eq_false in Ec. simpl. rewrite IH.
    destruct (bool_decide (cb_id callback ∈ cb_id <$> l)) eqn:Ein.
    + apply bool_decide_eq_true in Ein.
      rewrite bool_decide_eq_true_2 by (by right).
      destruct l; [by apply elem_of_nil in Ein|]. simpl. lia.
    + apply bool_decide_eq_false in Ein.
      rewrite bool_decide_eq_false_2; [lia|].
      intros Hin. apply elem_of_cons in Hin as [Heq|Hin]; [by destruct Ec|done].
Qed.

Lemma off_other event event' callback svc :
  event ≠ event' →
  registered (off event callback svc) event' = registered svc event'.
Proof.
  intros Hne. unfold registered, off.
  destruct (listeners svc !! event); [|done]. simpl.
  by rewrite lookup_insert_ne.
Qed.

(** X7.  Mounting and unmounting a [useSocket] hook leaves the bus as it
    found it: when the wrapper is not registered for the event yet, [off]
    after [on] gives back the listeners of that event, and the listeners of
    every other event are not touched at either step. *)
Theorem useSocket_leaves_no_listener
    (event other : string) (wrapped : Callback S D) (svc : SocketService S D) :
  ¬ listens svc event wrapped →
  registered (useSocket_cleanup event wrapped (useSocket_effect event wrapped svc)) event
  = registered svc event
  ∧ (other ≠ event →
     registered (useSocket_effect event wrapped svc) other = registered svc other
     ∧ registered (useSocket_cleanup event wrapped (useSocket_effect event wrapped svc))
         other
       = registered svc other).
Proof.
  unfold listens, useSocket_cleanup, useSocket_effect. intros Hnew. split.
  - rewrite registered_off, registered_on. by apply remove_first_snoc.
  - intros Hne. rewrite off_other, registered_on_other by done. done.
Qed.

(** X8.  [off] removes one registration at most: the listeners of the
    event become one fewer when the callback is registered for it, whatever
    the number of times it is, and stay as they are when it is not, or when
    nothing was ever registered for the event. *)
Theorem off_removes_one
    (event : string) (callback : Callback S D) (svc : SocketService S D) :
  length (registered (off event callback svc) event)
  = length (registered svc event)
    - (if bool_decide (listens svc event callback) then 1 else 0)
  ∧ (¬ listens svc event callback →
     registered (off event callback svc) event = registered svc event)
  ∧ (listeners svc !! event = None → off event callback svc = svc).
Proof.
  unfold listens. split; [|split].
  - rewrite registered_off. apply remove_first_length.
  - intros Hout. rewrite registered_off. by apply remove_first_absent.
  - intros Hnone. unfold off. by rewrite Hnone.
Qed.

(** X9.  An event reaches the listeners of its own kind only: registering
    or unregistering a callback for another kind changes nothing in its
    dispatch, and with no listener for its kind the event is dropped,
    leaving the application state as it is and reporting nothing. *)
Theorem emit_is_per_kind
    (event other : string) (data : D) (callback : Callback S D)
    (svc : SocketService S D) (s : S) :
  other ≠ event →
  emit event data (on other callback svc) s = emit event data svc s
  ∧ emit event data (off other callback svc) s = emit event data svc s
  ∧ (registered svc event = [] →
     emit event data svc s = {| app := s; errors := []; invoked := [] |}).
Proof.
  intros Hne. rewrite !emit_registered.
  rewrite registered_on_other, off_other by done.
  split; [done|]. split; [done|]. by intros ->.
Qed.

Lemma send_listeners message projectId svc :
  listeners (send message projectId svc) = listeners svc.
Proof. unfold send. by destruct (socket svc). Qed.

(** X10.  [joinProject] and [leaveProject] never touch the listeners.  On
    an open socket they are sent in the order they are called; without a
    socket -- before [connect], or after [disconnect] -- they are dropped
    and the service stays as it is. *)
Theorem join_and_leave_need_a_socket
    (projectId : string) (svc : SocketService S D) :
  listeners (joinProject projectId svc) = listeners svc
  ∧ listeners (leaveProject projectId svc) = listeners svc
  ∧ (socket svc = None →
     joinProject projectId svc = svc ∧ leaveProject projectId svc = svc)
  ∧ joinProject projectId (disconnect svc) = disconnect svc
  ∧ (socket svc ≠ None →
     outbox (leaveProject projectId (joinProject projectId svc))
     = outbox svc ++ [("join-project", projectId); ("leave-project", projectId)]).
Proof.
  unfold joinProject, leaveProject.
  split; [apply send_listeners|]. split; [apply send_listeners|].
  split; [|split].
  - intros Hnone. unfold send. by rewrite Hnone.
  - done.
  - intros Hsome. unfold send, outbox.
    destruct (socket svc) as [sock|]; [|done]. simpl. by rewrite <- app_assoc.
Qed.

(** X11.  [connect] keeps every registered listener.  It does nothing when
    the socket is connected; after [disconnect] it opens a socket on which
    nothing has been sent, so what was joined before has to be joined
    again, and the listeners cleared by [disconnect] stay cleared. *)
Theorem connect_keeps_listeners
    (event : string) (svc : SocketService S D) :
  registered (connect svc) event = registered svc event
  ∧ (isConnected svc = true → connect svc = svc)
  ∧ outbox (connect (disconnect svc)) = []
  ∧ isConnected (connect (disconnect svc)) = false
  ∧ isConnected (established (connect (disconnect svc))) = true
  ∧ registered (established (connect (disconnect svc))) event = [].
Proof.
  split; [|split].
  - unfold connect, registered.
    destruct (socket svc) as [[[] ?]|]; done.
  - unfold isConnected, connect.
    destruct (socket svc) as [[[] ?]|]; done.
  - split; [done|]. split; [done|]. split; [done|].
    unfold registered. simpl. by rewrite lookup_empty.
Qed.

End MoreBusProperties.

Lemma useSocket_leaves_no_listener_witness :
  let svc := on "task-updated" (broken 7) fresh_service in
  registered (useSocket_cleanup "task-updated" (task_listener 2 (Some "p1"))
                (useSocket_effect "task-updated" (task_listener 2 (Some "p1")) svc))
    "task-updated"
  = registered svc "task-updated".
Proof.
  intros svc.
  apply (useSocket_leaves_no_listener "task-updated" "task-created"
           (task_listener 2 (Some "p1")) svc).
  unfold listens. intros Hin. vm_compute in Hin.
  apply elem_of_cons in Hin as [Heq|Hin]; [discriminate|by apply elem_of_nil in Hin].
Defined.

Lemma off_removes_one_witness :
  let svc := on "task-updated" (broken 7) (on "task-updated" (broken 7) fresh_service) in
  registered (off "task-updated" (task_listener 2 None) svc) "task-updated"
  = registered svc "task-updated"
  ∧ length (registered (off "task-updated" (broken 7) svc) "task-updated") = 1.
Proof.
  intros svc. split.
  - apply (off_removes_one "task-updated" (task_listener 2 None) svc).
    unfold listens. intros Hin. vm_compute in Hin.
    repeat (apply elem_of_cons in Hin as [Heq|Hin]; [discriminate|]).
    by apply elem_of_nil in Hin.
  - by vm_compute.
Defined.

Lemma emit_is_per_kind_witness :
  emit "task-updated" (TaskUpdated landing_done)
    (on "task-created" (broken 7) (subscribe (Some "p1") fresh_service))
    (view_of [landing])
  = emit "task-updated" (TaskUpdated landing_done)
      (subscribe (Some "p1") fresh_service) (view_of [landing]).
Proof.
  apply (emit_is_per_kind "task-updated" "task-created" (TaskUpdated landing_done)
           (broken 7) (subscribe (Some "p1") fresh_service) (view_of [landing])).
  discriminate.
Defined.

Lemma join_and_leave_need_a_socket_witness :
  outbox (leaveProject "p1" (joinProject "p1" fresh_service))
  = [("join-project", "p1"); ("leave-project", "p1")]
  ∧ joinProject "p1" (disconnect fresh_service) = disconnect fresh_service.
Proof.
  split.
  - apply (join_and_leave_need_a_socket "p1" fresh_service). discriminate.
  - apply (join_and_leave_need_a_socket "p1" fresh_service).
Defined.

Lemma connect_keeps_listeners_witness :
  connect (established (connect (subscribe (Some "p1") (disconnect fresh_service))))
  = established (connect (subscribe (Some "p1") (disconnect fresh_service))).
Proof.
  apply (connect_keeps_listeners "task-created"
           (established (connect (subscribe (Some "p1") (disconnect fresh_service))))).
  reflexivity.
Defined.

(** * Following a handler through the database *)

Section Follows.
Context (E : Database → list Effect → Prop).

Lemma follows_ret {A} d0 tr0 (a : A) (Q : A → Database → list Effect → Prop) :
  Q a d0 tr0 → follows d0 tr0 (ret a) Q E.
Proof. intros H w o w' <- <- [= <- <-]. done. Qed.

Lemma follows_throw {A} d0 tr0 (Q : A → Database → list Effect → Prop) :
  E d0 tr0 → follows d0 tr0 throw Q E.
Proof. intros H w o w' <- <- [= <- <-]. done. Qed.

Lemma follows_bind {A B} d0 tr0 (m : M A) (k : A → M B) R Q :
  follows d0 tr0 m R E →
  (∀ a d1 tr1, R a d1 tr1 → follows d1 tr1 (k a) Q E) →
  follows d0 tr0 (bind m k) Q E.
Proof.
  intros Hm Hk w o w' Hd Ht. unfold bind.
  destruct (m w) as [[a|] w1] eqn:Em.
  - intros Hka.
    exact (Hk a (db w1) (trace w1) (Hm w (Val a) w1 Hd Ht Em) w1 o w'
             eq_refl eq_refl Hka).
  - intros [= <- <-]. exact (Hm w Exn w1 Hd Ht Em).
Qed.

Lemma follows_post {A} d0 tr0 (m : M A) (Q Q' : A → Database → list Effect → Prop) :
  follows d0 tr0 m Q' E → (∀ a d tr, Q' a d tr → Q a d tr) →
  follows d0 tr0 m Q E.
Proof.
  intros H HQ w o w' Hd Ht Hm. specialize (H w o w' Hd Ht Hm).
  destruct o; auto.
Qed.

Lemma follows_query {A} d0 tr0 (q : Database → A) :
  E d0 tr0 →
  follows d0 tr0 (query q) (λ a d tr, a = q d0 ∧ d = d0 ∧ tr = tr0) E.
Proof.
  intros HE w o w' <- <-. unfold query, await.
  destruct (fault w) as [[|n]|]; by intros [= <- <-].
Qed.

Lemma follows_log d0 tr0 e :
  follows d0 tr0 (log e) (λ _ d tr, d = d0 ∧ tr = tr0 ++ [e]) E.
Proof. by intros w o w' <- <- [= <- <-]. Qed.

(** A write that cannot be refused. *)
Lemma follows_write d0 tr0 (g : Database → Database) x :
  E d0 tr0 →
  follows d0 tr0 (bind (await (λ d, (Val tt, g d))) (λ _, log x))
    (λ _ d tr, d = g d0 ∧ tr = tr0 ++ [x]) E.
Proof.
  intros HE. apply follows_bind with (R := λ _ d tr, d = g d0 ∧ tr = tr0).
  - intros w o w' <- <-. unfold await.
    destruct (fault w) as [[|n]|]; by intros [= <- <-].
  - intros _ d1 tr1 [-> ->]. apply follows_log.
Qed.

Lemma follows_insert_task d0 tr0 k t :
  E d0 tr0 →
  follows d0 tr0 (insert_task k t)
    (λ _ d tr, db_tasks d0 !! k = None
               ∧ d = set_tasks (<[k := t]> (db_tasks d0)) d0
               ∧ tr = tr0 ++ [Saved Tasks k]) E.
Proof.
  intros HE. unfold insert_task.
  apply follows_bind with
    (R := λ _ d tr, db_tasks d0 !! k = None
                    ∧ d = set_tasks (<[k := t]> (db_tasks d0)) d0 ∧ tr = tr0).
  - intros w o w' <- <-. unfold await.
    destruct (fault w) as [[|n]|]; [by intros [= <- <-]| |];
      destruct (db_tasks (db w) !! k); by intros [= <- <-].
  - intros _ d1 tr1 (Hk & -> & ->).
    eapply follows_post; [apply follows_log|]. by intros _ d tr [-> ->].
Qed.

Lemma follows_insert_project d0 tr0 k p :
  E d0 tr0 →
  follows d0 tr0 (insert_project k p)
    (λ _ d tr, db_projects d0 !! k = None
               ∧ d = set_projects (<[k := p]> (db_projects d0)) d0
               ∧ tr = tr0 ++ [Saved Projects k]) E.
Proof.
  intros HE. unfold insert_project.
  apply follows_bind with
    (R := λ _ d tr, db_projects d0 !! k = None
                    ∧ d = set_projects (<[k := p]> (db_projects d0)) d0 ∧ tr = tr0).
  - intros w o w' <- <-. unfold await.
    destruct (fault w) as [[|n]|]; [by intros [= <- <-]| |];
      destruct (db_projects (db w) !! k); by intros [= <- <-].
  - intros _ d1 tr1 (Hk & -> & ->).
    eapply follows_post; [apply follows_log|]. by intros _ d tr [-> ->].
Qed.

Lemma follows_populate {A} d0 tr0 path (f : Database → A → A) doc :
  E d0 tr0 →
  follows d0 tr0 (populate path f doc)
    (λ doc' d tr, doc' = f d0 doc ∧ d = d0 ∧ tr = tr0 ++ [PopulatedPath path]) E.
Proof.
  intros HE. unfold populate. eapply follows_bind; [by apply follows_query|].
  intros doc' d1 tr1 (-> & -> & ->). eapply follows_bind; [apply follows_log|].
  intros _ d2 tr2 [-> ->]. by apply follows_ret.
Qed.

Lemma follows_room_of_task d0 tr0 task :
  E d0 tr0 →
  follows d0 tr0 (room_of_task task)
    (λ r d tr, Task.project task ≠ Populated None
               ∧ r = "project-" +:+ default "undefined" (project_id task)
               ∧ d = d0 ∧ tr = tr0) E.
Proof.
  intros HE. unfold room_of_task.
  destruct (Task.project task) as [oid|[p|]] eqn:Ep;
    first [by apply follows_ret | by apply follows_throw].
Qed.

Context (Hpassive : ∀ d tr x, passive x = true → E d tr → E d (tr ++ [x])).

Lemma follows_populate_task d0 tr0 t :
  E d0 tr0 →
  follows d0 tr0 (populate_task t)
    (λ t' d tr,
       t' = populate_task_createdBy d0
              (populate_task_assignee d0 (populate_task_project d0 t))
       ∧ d = d0
       ∧ tr = tr0 ++ [PopulatedPath "project"; PopulatedPath "assignee";
                      PopulatedPath "createdBy"]) E.
Proof.
  intros HE. unfold populate_task.
  eapply follows_bind; [by apply follows_populate|]. intros t1 d1 tr1 (-> & -> & ->).
  eapply follows_bind; [apply follows_populate; by apply Hpassive|].
  intros t2 d2 tr2 (-> & -> & ->).
  eapply follows_post; [apply follows_populate; by repeat apply Hpassive|].
  intros t3 d3 tr3 (-> & -> & ->). by rewrite <- !app_assoc.
Qed.

Lemma follows_populate_project d0 tr0 p :
  E d0 tr0 →
  follows d0 tr0 (populate_project p)
    (λ p' d tr,
       p' = populate_project_members d0 (populate_project_owner d0 p)
       ∧ d = d0
       ∧ tr = tr0 ++ [PopulatedPath "owner"; PopulatedPath "members"]) E.
Proof.
  intros HE. unfold populate_project.
  eapply follows_bind; [by apply follows_populate|]. intros p1 d1 tr1 (-> & -> & ->).
  eapply follows_post; [apply follows_populate; by apply Hpassive|].
  intros p2 d2 tr2 (-> & -> & ->). by rewrite <- !app_assoc.
Qed.

End Follows.

Ltac follow_step :=
  lazymatch goal with
  | |- follows _ _ (respond _ _) _ _ => apply follows_ret
  | |- follows _ _ (not_found _) _ _ => apply follows_ret
  | |- follows _ _ (ret _) _ _ => apply follows_ret
  | |- follows _ _ throw _ _ => apply follows_throw
  | |- follows _ _ (bind (query _) _) _ _ =>
      eapply follows_bind; [apply follows_query | intros ? ? ? (-> & -> & ->)]
  | |- follows _ _ (bind (populate_task _) _) _ _ =>
      eapply follows_bind; [apply follows_populate_task | intros ? ? ? (-> & -> & ->)]
  | |- follows _ _ (bind (populate_project _) _) _ _ =>
      eapply follows_bind; [apply follows_populate_project | intros ? ? ? (-> & -> & ->)]
  | |- follows _ _ (bind (io_emit _ _) _) _ _ =>
      eapply follows_bind; [apply follows_log | intros _ ? ? [-> ->]]
  | |- follows _ _ (bind (insert_task _ _) _) _ _ =>
      eapply follows_bind; [apply follows_insert_task | intros _ ? ? (? & -> & ->)]
  | |- follows _ _ (bind (insert_project _ _) _) _ _ =>
      eapply follows_bind; [apply follows_insert_project | intros _ ? ? (? & -> & ->)]
  | |- follows _ _ (bind (update_task _ _) _) _ _ =>
      eapply follows_bind; [apply follows_write | intros _ ? ? [-> ->]]
  | |- follows _ _ (bind (delete_task _) _) _ _ =>
      eapply follows_bind; [apply follows_write | intros _ ? ? [-> ->]]
  | |- follows _ _ (bind (delete_tasks_of _) _) _ _ =>
      eapply follows_bind; [apply follows_write | intros _ ? ? [-> ->]]
  | |- follows _ _ (bind (update_project _ _) _) _ _ =>
      eapply follows_bind; [apply follows_write | intros _ ? ? [-> ->]]
  | |- follows _ _ (bind (delete_project _) _) _ _ =>
      eapply follows_bind; [apply follows_write | intros _ ? ? [-> ->]]
  | |- follows _ _ (bind (room_of_task _) _) _ _ =>
      eapply follows_bind;
      [apply follows_room_of_task | intros ? ? ? (? & -> & -> & ->)]
  | |- follows _ _ (if ?b then _ else _) _ _ => destruct b eqn:?
  | |- follows _ _ (match ?x with Some _ => _ | None => _ end) _ _ => destruct x eqn:?
  | |- follows _ _ (match ?x with (_, _) => _ end) _ _ => destruct x eqn:?
  end.

(** From a handler to the request it serves. *)
Lemma serve_follows (Q : Response → Database → list Effect → Prop)
    (E : Database → list Effect → Prop) handler d f :
  follows d [] handler Q E →
  let r := (serve handler d f).1 in
  let w := (serve handler d f).2 in
  ∃ tr, trace w = tr ++ [Responded r]
        ∧ (Q r (db w) tr
           ∨ (r = {| res_status := 500; res_body := Message "Server error" |}
              ∧ E (db w) tr)).
Proof.
  intros Hf. unfold serve, route.
  destruct (handler (start d f)) as [o w'] eqn:Erun. simpl.
  specialize (Hf (start d f) o w' eq_refl eq_refl Erun).
  exists (trace w'). split; [done|]. destruct o; auto.
Qed.

(** * Requests the routes refuse *)

Lemma find_project_of_owner_None user id d :
  ¬ owns user id d → find_project_of_owner id user d = None.
Proof.
  intros Hno. unfold find_project_of_owner.
  destruct (db_projects d !! id) as [p|] eqn:Ep; [|done]. simpl.
  case_bool_decide; [|done]. destruct Hno. by exists p.
Qed.

Lemma find_project_of_member_None user id d :
  ¬ belongs user id d → find_project_of_member id user d = None.
Proof.
  intros Hno. unfold find_project_of_member.
  destruct (db_projects d !! id) as [p|] eqn:Ep; [|done]. simpl.
  destruct (bool_decide (pd_owner p = user) || bool_decide (user ∈ pd_members p))
    eqn:Hb; [|done].
  destruct Hno. exists p. split; [done|].
  apply orb_true_iff in Hb as [Hb|Hb]; apply bool_decide_eq_true in Hb; auto.
Qed.

Lemma find_project_of_member_Some user id d p :
  find_project_of_member id user d = Some p →
  db_projects d !! id = Some p ∧ (pd_owner p = user ∨ user ∈ pd_members p).
Proof.
  unfold find_project_of_member.
  destruct (db_projects d !! id) as [p'|] eqn:Ep; [|done]. simpl.
  destruct (bool_decide (pd_owner p' = user) || bool_decide (user ∈ pd_members p'))
    eqn:Hb; [|done].
  intros [= ->]. split; [done|].
  apply orb_true_iff in Hb as [Hb|Hb]; apply bool_decide_eq_true in Hb; auto.
Qed.

Lemma find_project_of_owner_Some user id d p :
  find_project_of_owner id user d = Some p →
  db_projects d !! id = Some p ∧ pd_owner p = user.
Proof.
  unfold find_project_of_owner.
  destruct (db_projects d !! id) as [p'|] eqn:Ep; [|done]. simpl.
  case_bool_decide; [|done]. by intros [= ->].
Qed.

(** A handler that answers at once. *)
Lemma refused_at_once status body handler d f :
  handler = respond status body → refused status handler d f.
Proof. intros ->. by destruct d. Qed.

(** A lookup that is not the one to fail hands its result on. *)
Lemma serve_query {A} (q : Database → A) (k : A → M Response) d f :
  f ≠ Some 0 →
  serve (bind (query q) k) d f = serve (k (q d)) d (pred <$> f).
Proof. intros Hf. by destruct f as [[|n]|]. Qed.

Lemma refused_query {A} status (q : Database → A) (k : A → M Response) d f :
  f ≠ Some 0 →
  refused status (k (q d)) d (pred <$> f) →
  refused status (bind (query q) k) d f.
Proof.
  intros Hf. unfold refused, status_of, no_effect, db_after, published_by, trace_of.
  by rewrite serve_query.
Qed.

(** A handler that answers after one lookup that finds nothing. *)
Lemma refused_after_lookup {A} status message (q : Database → option A)
    (k : option A → M Response) d f :
  q d = None →
  k None = respond status (Message message) →
  f ≠ Some 0 →
  refused status (bind (query q) k) d f.
Proof.
  intros Hq Hk Hf. unfold refused, status_of, no_effect, db_after, published_by,
    trace_of, serve, route, start, bind, query, await. simpl.
  destruct f as [[|n]|]; [done| |]; simpl; rewrite Hq, Hk; by destruct d.
Qed.

(** X12.  A request that fails validation is answered 400 by the routes
    that validate -- creating and updating a task or a project, adding a
    member, listing tasks -- before anything is read or written: the
    database is unchanged and nothing is published, whatever else fails. *)
Theorem invalid_request_refused
    (req : Request) (d : Database) (f : option nat)
    (task : CreateTaskData) (updates : UpdateTaskData) (project : ProjectData)
    (q : TaskQuery) (id email : string) :
  req_valid req = false →
  refused 400 (post_task req task) d f
  ∧ refused 400 (put_task req id updates) d f
  ∧ refused 400 (post_project req project) d f
  ∧ refused 400 (put_project req id project) d f
  ∧ refused 400 (post_member req id email) d f
  ∧ refused 400 (get_tasks req q) d f.
Proof.
  intros Hinvalid.
  repeat split;
    (apply (refused_at_once 400 ValidationFailed);
     unfold post_task, put_task, post_project, put_project, post_member, get_tasks;
     by rewrite Hinvalid).
Qed.

Lemma invalid_request_refused_witness :
  let req := {| req_user := "u1"; req_valid := false; req_oid := "t3"; req_now := 30;
                req_email := lower_case |} in
  refused 400 (post_task req pricing_form) sample_db None.
Proof.
  intros req.
  apply (invalid_request_refused req sample_db None pricing_form no_updates
           {| pj_name := None; pj_description := None; pj_color := None |}
           {| q_project := None; q_status := None; q_assignee := None |}
           "p1" "bob@example.org").
  reflexivity.
Defined.

(** X13.  Only the owner changes a project: when the caller does not own
    the project -- a mere member, a stranger, or no such project -- updating
    it, deleting it, adding a member and removing a member are answered
    404, the database is unchanged and nothing is published. *)
Theorem only_owner_changes_project
    (req : Request) (d : Database) (f : option nat)
    (id email memberId : string) (body : ProjectData) :
  ¬ owns (req_user req) id d →
  req_valid req = true →
  f ≠ Some 0 →
  refused 404 (put_project req id body) d f
  ∧ refused 404 (delete_project_route req id) d f
  ∧ refused 404 (post_member req id email) d f
  ∧ refused 404 (delete_member req id memberId) d f.
Proof.
  intros Hno Hvalid Hf. apply find_project_of_owner_None in Hno.
  unfold put_project, post_member, delete_project_route, delete_member.
  rewrite Hvalid. simpl.
  repeat split;
    by apply (refused_after_lookup 404 "Project not found or access denied").
Qed.

Lemma only_owner_changes_project_witness :
  refused 404 (delete_project_route as_bob "p1") sample_db None
  ∧ refused 404 (post_member as_bob "p1" "carol@example.org") sample_db None.
Proof.
  assert (¬ owns (req_user as_bob) "p1" sample_db) as Hno.
  { intros (p & Hp & Howner). vm_compute in Hp. injection Hp as <-. discriminate. }
  destruct (only_owner_changes_project as_bob sample_db None "p1"
              "carol@example.org" "u1"
              {| pj_name := None; pj_description := None; pj_color := None |}
              Hno eq_refl) as (_ & Hdel & Hadd & _); [discriminate|].
  split; [exact Hdel | exact Hadd].
Defined.

(** X14.  Only the members of a project touch its tasks: a caller who
    neither owns nor belongs to the project cannot create a task in it, and
    cannot update or delete a task of it.  Each request is answered 404,
    the database is unchanged and nothing is published. *)
Theorem only_members_change_tasks
    (req : Request) (d : Database) (f : option nat)
    (body : CreateTaskData) (id : string) (updates : UpdateTaskData) :
  req_valid req = true →
  f ≠ Some 0 → f ≠ Some 1 →
  ¬ belongs (req_user req) (ct_project body) d →
  (∀ t, db_tasks d !! id = Some t → ¬ belongs (req_user req) (td_project t) d) →
  refused 404 (post_task req body) d f
  ∧ refused 404 (put_task req id updates) d f
  ∧ refused 404 (delete_task_route req id) d f.
Proof.
  intros Hvalid Hf0 Hf1 Hproject Htask.
  assert (pred <$> f ≠ Some 0) as Hf by (by destruct f as [[|[|n]]|]).
  unfold post_task, put_task, delete_task_route. rewrite Hvalid. simpl.
  split; [|split].
  - apply refused_query; [done|].
    rewrite (find_project_of_member_None _ _ _ Hproject).
    by apply refused_at_once with (body := Message "Project not found or access denied").
  - apply refused_query; [done|].
    destruct (db_tasks d !! id) as [t|] eqn:Et.
    + apply refused_query; [done|].
      rewrite (find_project_of_member_None _ _ _ (Htask t eq_refl)).
      by apply refused_at_once with (body := Message "Task not found or access denied").
    + by apply refused_at_once with (body := Message "Task not found").
  - apply refused_query; [done|].
    destruct (db_tasks d !! id) as [t|] eqn:Et.
    + apply refused_query; [done|].
      rewrite (find_project_of_member_None _ _ _ (Htask t eq_refl)).
      by apply refused_at_once with (body := Message "Task not found or access denied").
    + by apply refused_at_once with (body := Message "Task not found").
Qed.

Lemma carol_is_a_stranger id :
  ¬ belongs (req_user as_carol) id sample_db.
Proof.
  intros (p & Hp & Hin). unfold sample_db in Hp. simpl in Hp.
  destruct (decide (id = "p1")) as [->|Hp1];
    [|destruct (decide (id = "p2")) as [->|Hp2]].
  - vm_compute in Hp. injection Hp as <-.
    destruct Hin as [Hin|Hin]; [discriminate|].
    revert Hin. apply (bool_decide_unpack _). by vm_compute.
  - vm_compute in Hp. injection Hp as <-.
    destruct Hin as [Hin|Hin]; [discriminate|].
    revert Hin. apply (bool_decide_unpack _). by vm_compute.
  - rewrite lookup_insert_ne, lookup_singleton_ne in Hp by done. done.
Qed.

Lemma only_members_change_tasks_witness :
  refused 404 (post_task as_carol pricing_form) sample_db None
  ∧ refused 404 (put_task as_carol "t1" (only_status Done)) sample_db None
  ∧ refused 404 (delete_task_route as_carol "t1") sample_db None.
Proof.
  apply (only_members_change_tasks as_carol sample_db None pricing_form "t1"
           (only_status Done)); try done.
  - apply carol_is_a_stranger.
  - intros t _. apply carol_is_a_stranger.
Defined.

Lemma find_project_of_member_belongs user id d p :
  db_projects d !! id = Some p →
  pd_owner p = user ∨ user ∈ pd_members p →
  find_project_of_member id user d = Some p.
Proof.
  intros Hp Hin. unfold find_project_of_member. rewrite Hp. simpl.
  destruct Hin as [Hin|Hin].
  - by rewrite (bool_decide_eq_true_2 _ Hin).
  - rewrite (bool_decide_eq_true_2 (user ∈ pd_members p) Hin).
    by rewrite orb_true_r.
Qed.

(** X15.  A task is only assigned to a member of its project: creating a
    task for, or reassigning a task to, a user who is not in the member
    list of the project is answered 400; the database is unchanged and
    nothing is published. *)
Theorem assignee_must_be_member
    (req : Request) (d : Database) (f : option nat)
    (body : CreateTaskData) (id : string) (updates : UpdateTaskData)
    (t : TaskDoc) (p : ProjectDoc) (a : string) :
  req_valid req = true →
  f ≠ Some 0 → f ≠ Some 1 →
  db_projects d !! ct_project body = Some p →
  pd_owner p = req_user req ∨ req_user req ∈ pd_members p →
  db_tasks d !! id = Some t → td_project t = ct_project body →
  a ≠ EmptyString → a ∉ pd_members p →
  ct_assignee body = Some a → ut_assignee updates = Some a →
  refused 400 (post_task req body) d f
  ∧ refused 400 (put_task req id updates) d f.
Proof.
  intros Hvalid Hf0 Hf1 Hp Hin Ht Hproject Ha Hout Hcreate Hupdate.
  assert (pred <$> f ≠ Some 0) as Hf by (by destruct f as [[|[|n]]|]).
  pose proof (find_project_of_member_belongs _ _ _ _ Hp Hin) as Hfind.
  assert (foreign_assignee (Some a) p = true) as Hforeign.
  { simpl. by rewrite !bool_decide_eq_true_2. }
  unfold post_task, put_task. rewrite Hvalid. simpl. split.
  - apply refused_query; [done|]. rewrite Hfind, Hcreate, Hforeign.
    by apply refused_at_once
      with (body := Message "Assignee must be a member of the project").
  - apply refused_query; [done|]. rewrite Ht.
    apply refused_query; [done|]. rewrite Hproject, Hfind, Hupdate, Hforeign.
    by apply refused_at_once
      with (body := Message "Assignee must be a member of the project").
Qed.

Lemma assignee_must_be_member_witness :
  let body :=
    {| ct_title := "Pricing table"; ct_description := None; ct_project := "p1";
       ct_status := None; ct_priority := None; ct_assignee := Some "u3";
       ct_dueDate := None; ct_tags := None |} in
  refused 400 (post_task as_alice body) bigger_db None
  ∧ refused 400 (put_task as_alice "t1" (assignee_choice "u3")) bigger_db None.
Proof.
  intros body.
  apply (assignee_must_be_member as_alice bigger_db None body "t1"
           (assignee_choice "u3") (draft "Landing page" "p1" Todo 10) website "u3");
    try done.
  - by left.
  - apply (bool_decide_unpack _). by vm_compute.
Defined.

(** * What a request publishes *)

Ltac follow := repeat (follow_step; try done).

Lemma quiet_passive d tr x : passive x = true → quiet d tr → quiet d (tr ++ [x]).
Proof. unfold quiet. intros Hx Htr. rewrite published_app, Htr. by destruct x. Qed.

Lemma handler_one_event req m d :
  deletes m = false → follows d [] (handler_of req m) one_event quiet.
Proof.
  destruct m; try done; intros _; simpl;
    unfold post_task, put_task, post_project, put_project, post_member, delete_member.
  all: follow; try exact quiet_passive.
  all: try (right; split; [intros [H|H]; discriminate H | reflexivity]).
  all: left; (split; [first [by left | by right] | eexists; split; reflexivity]).
Qed.

(** X16.  The routes that create or update a task or a project, and those
    that add or remove a member, publish exactly one event for a request
    they answer with success, and that event carries the very entity of the
    response; for a request they answer with an error -- a refusal or a
    failure at any of their database operations -- they publish nothing. *)
Theorem one_event_per_success (req : Request) (m : Mutating) (d : Database)
    (f : option nat) :
  deletes m = false →
  let r := (serve (handler_of req m) d f).1 in
  (succeeded r →
     ∃ e, published_by (handler_of req m) d f = [e] ∧ entity e = Some (res_body r))
  ∧ (¬ succeeded r → published_by (handler_of req m) d f = []).
Proof.
  intros Hm r.
  destruct (serve_follows _ _ _ d f (handler_one_event req m d Hm))
    as (tr & Htr & Hcases).
  unfold published_by, trace_of. fold r in Htr, Hcases. rewrite Htr.
  rewrite published_app. simpl. rewrite app_nil_r.
  destruct Hcases as [[[Hok Hev]|[Hno Hev]]|[Hr Hev]].
  - split; [done|]. by intros [].
  - split; [by intros ?|done].
  - split; [|done]. rewrite Hr. intros [H|H]; discriminate H.
Qed.

Lemma one_event_per_success_witness :
  let m := PutTask "t1" (only_status Done) in
  (∃ e, published_by (handler_of as_alice m) sample_db None = [e]
        ∧ entity e = Some (res_body (serve (handler_of as_alice m) sample_db None).1))
  ∧ published_by (handler_of as_alice m) sample_db (Some 2) = [].
Proof.
  intros m. split.
  - apply (one_event_per_success as_alice m sample_db None eq_refl). by left.
  - apply (one_event_per_success as_alice m sample_db (Some 2) eq_refl).
    intros [H|H]; vm_compute in H; discriminate H.
Defined.

Lemma all_home_passive d tr x :
  passive x = true → all_home d tr → all_home d (tr ++ [x]).
Proof.
  unfold all_home, emissions. intros Hx Htr. rewrite omap_app.
  destruct x; try done; simpl; by rewrite app_nil_r.
Qed.

Lemma project_id_stored d k t p :
  db_projects d !! td_project t = Some p →
  project_id (populate_task_createdBy d
                (populate_task_assignee d (populate_task_project d (task_of k t))))
  = Some (td_project t).
Proof. intros Hp. unfold project_id. simpl. by rewrite Hp. Qed.

Lemma handler_all_home req m d :
  follows d [] (handler_of req m) (λ _, all_home) all_home.
Proof.
  destruct m; simpl;
    unfold post_task, put_task, post_project, put_project, post_member, delete_member,
      delete_task_route, delete_project_route.
  all: follow; try exact all_home_passive.
  all: unfold all_home; simpl; repeat constructor; unfold at_home; simpl; try done.
  - apply find_project_of_member_Some in Heqo as [Hp _].
    by rewrite (project_id_stored _ _ (new_task req body) p).
  - apply find_project_of_member_Some in Heqo0 as [Hp _].
    by rewrite (project_id_stored _ _ (apply_updates body t) p).
Qed.

(** X17.  Every event a route publishes goes to the room of the project the
    event is about -- for a task event the project of the task, as the page
    reads it from [task.project._id] -- whatever the request, the database
    and the failure. *)
Theorem events_reach_their_project (req : Request) (m : Mutating) (d : Database)
    (f : option nat) :
  Forall at_home (emissions (trace_of (handler_of req m) d f)).
Proof.
  destruct (serve_follows _ _ _ d f (handler_all_home req m d))
    as (tr & Htr & Hcases).
  unfold trace_of. rewrite Htr. apply (all_home_passive d); [done|].
  destruct Hcases as [H|[_ H]]; exact H.
Qed.

(** * What every request keeps true of the database *)

Section ProjectInvariant.
Context (P : ProjectDoc → Prop).

Lemma every_project_set_tasks ts d :
  every_project P d → every_project P (set_tasks ts d).
Proof. done. Qed.

Lemma every_project_insert k p d :
  every_project P d → P p →
  every_project P (set_projects (<[k := p]> (db_projects d)) d).
Proof.
  intros Hd Hp k' p'. simpl. destruct (decide (k' = k)) as [->|Hne].
  - rewrite lookup_insert_eq. by intros [= <-].
  - rewrite lookup_insert_ne by done. apply Hd.
Qed.

Lemma every_project_delete k d :
  every_project P d → every_project P (set_projects (delete k (db_projects d)) d).
Proof.
  intros Hd k' p'. simpl. intros Hk. apply lookup_delete_Some in Hk as [_ Hk].
  by apply (Hd k').
Qed.

Context (req : Request).
Context (Hnew : ∀ body, P (new_project req body)).
Context (Hupdate : ∀ body p, P p → P (apply_project_updates body p)).
Context (Hadd : ∀ p uid, P p → uid ∉ pd_members p →
                 P (with_members (pd_members p ++ [uid]) p)).
Context (Hremove : ∀ p memberId, P p → memberId ≠ pd_owner p →
                 P (with_members (filter (λ m, m ≠ memberId) (pd_members p)) p)).

(** A property of projects that the four ways of saving a project keep is
    kept by every route, also when it fails half-way. *)
Lemma handler_keeps_every_project m d :
  every_project P d →
  follows d [] (handler_of req m) (λ _ d' _, every_project P d')
    (λ d' _, every_project P d').
Proof.
  intros Hd.
  destruct m; simpl;
    unfold post_task, put_task, post_project, put_project, post_member, delete_member,
      delete_task_route, delete_project_route.
  all: follow.
  all: repeat first [ done | apply every_project_set_tasks
                    | apply every_project_delete ].
  all: apply every_project_insert; [done|]; try apply Hnew.
  all: match goal with
       | H : find_project_of_owner _ _ _ = Some ?p |- _ =>
           apply find_project_of_owner_Some in H as [Hp Howner];
           pose proof (Hd _ _ Hp)
       end.
  all: first [ by apply Hupdate
             | apply Hadd; [done|]; by eapply bool_decide_eq_false_1
             | apply Hremove; [done|]; by eapply bool_decide_eq_false_1 ].
Qed.

End ProjectInvariant.

(** X18.  The member lists stay sound: if every project has its owner among
    its members, it is so after any request on any route, whether the
    request succeeds, is refused or fails at one of its database
    operations; and likewise if no project lists a member twice. *)
Theorem membership_stays_sound (req : Request) (m : Mutating) (d : Database)
    (f : option nat) :
  (owners_are_members d → owners_are_members (db_after (handler_of req m) d f))
  ∧ (members_distinct d → members_distinct (db_after (handler_of req m) d f)).
Proof.
  split; intros Hd.
  - destruct (serve_follows _ _ _ d f
      (handler_keeps_every_project (λ p, pd_owner p ∈ pd_members p) req
         ltac:(intros; simpl; set_solver) ltac:(done)
         ltac:(intros; simpl; set_solver)
         ltac:(intros p memberId Hp Hne; simpl;
                 apply list_elem_of_filter; by split)
         m d Hd)) as (tr & _ & [H|[_ H]]); exact H.
  - destruct (serve_follows _ _ _ d f
      (handler_keeps_every_project (λ p, NoDup (pd_members p)) req
         ltac:(intros; simpl; apply NoDup_singleton) ltac:(done)
         ltac:(intros p uid Hp Hout; simpl; apply NoDup_app;
                 split; [done|]; split; [|apply NoDup_singleton];
                 intros x Hx ->%list_elem_of_singleton; done)
         ltac:(intros p memberId Hp Hne; simpl; by apply NoDup_filter)
         m d Hd)) as (tr & _ & [H|[_ H]]); exact H.
Qed.

Lemma sample_owners_are_members : owners_are_members sample_db.
Proof.
  apply (bool_decide_unpack
           (map_Forall (λ _ p, pd_owner p ∈ pd_members p) (db_projects sample_db))).
  by vm_compute.
Qed.

Lemma sample_members_distinct : members_distinct sample_db.
Proof.
  apply (bool_decide_unpack
           (map_Forall (λ _ p, NoDup (pd_members p)) (db_projects sample_db))).
  by vm_compute.
Qed.

Lemma membership_stays_sound_witness :
  let m := DeleteMember "p1" "u2" in
  owners_are_members (db_after (handler_of as_alice m) sample_db (Some 3))
  ∧ members_distinct (db_after (handler_of as_alice m) sample_db (Some 3)).
Proof.
  intros m.
  destruct (membership_stays_sound as_alice m sample_db (Some 3)) as [Howners Hdistinct].
  split; [apply Howners, sample_owners_are_members
         | apply Hdistinct, sample_members_distinct].
Defined.

Lemma tasks_have_projects_insert_task k t d :
  tasks_have_projects d → is_Some (db_projects d !! td_project t) →
  tasks_have_projects (set_tasks (<[k := t]> (db_tasks d)) d).
Proof.
  intros Hd Ht k' t'. simpl. destruct (decide (k' = k)) as [->|Hne].
  - rewrite lookup_insert_eq. by intros [= <-].
  - rewrite lookup_insert_ne by done. apply Hd.
Qed.

Lemma tasks_have_projects_delete_task k d :
  tasks_have_projects d →
  tasks_have_projects (set_tasks (delete k (db_tasks d)) d).
Proof.
  intros Hd k' t'. simpl. intros Hk. apply lookup_delete_Some in Hk as [_ Hk].
  by apply (Hd k').
Qed.

Lemma tasks_have_projects_delete_tasks_of id d :
  tasks_have_projects d →
  tasks_have_projects
    (set_tasks (filter (λ '(_, t), td_project t ≠ id) (db_tasks d)) d).
Proof.
  intros Hd k' t'. simpl. intros Hk. apply map_lookup_filter_Some in Hk as [Hk _].
  by apply (Hd k').
Qed.

Lemma tasks_have_projects_save_project k p d :
  tasks_have_projects d →
  tasks_have_projects (set_projects (<[k := p]> (db_projects d)) d).
Proof.
  intros Hd k' t'. simpl. intros Hk. destruct (decide (td_project t' = k)) as [->|Hne].
  - by rewrite lookup_insert_eq.
  - rewrite lookup_insert_ne by done. by apply (Hd k').
Qed.

(** The tasks of a project go before the project does. *)
Lemma tasks_have_projects_delete_project id d :
  tasks_have_projects d →
  tasks_have_projects
    (set_projects (delete id (db_projects d))
       (set_tasks (filter (λ '(_, t), td_project t ≠ id) (db_tasks d)) d)).
Proof.
  intros Hd k' t'. simpl. intros Hk. apply map_lookup_filter_Some in Hk as [Hk Hne].
  simpl in Hne. rewrite lookup_delete_ne by done. by apply (Hd k').
Qed.

Lemma handler_keeps_tasks_have_projects req m d :
  tasks_have_projects d →
  follows d [] (handler_of req m) (λ _ d' _, tasks_have_projects d')
    (λ d' _, tasks_have_projects d').
Proof.
  intros Hd.
  destruct m; simpl;
    unfold post_task, put_task, post_project, put_project, post_member, delete_member,
      delete_task_route, delete_project_route.
  all: follow.
  all: try first [ by apply tasks_have_projects_save_project
                 | by apply tasks_have_projects_delete_task
                 | by apply tasks_have_projects_delete_tasks_of
                 | by apply tasks_have_projects_delete_project ].
  all: try exact (tasks_have_projects_delete_project id d Hd).
  all: apply tasks_have_projects_insert_task; [done|].
  all: match goal with
       | H : find_project_of_member _ _ _ = Some ?p |- _ =>
           apply find_project_of_member_Some in H as [Hp _]
       end.
  all: by eexists.
Qed.

(** X19.  No task is left without its project: if every stored task belongs
    to a stored project, it is so after any request on any route, whether
    it succeeds, is refused or fails half-way.  In particular deleting a
    project never leaves tasks of it behind, because its tasks are deleted
    first. *)
Theorem tasks_keep_their_project (req : Request) (m : Mutating) (d : Database)
    (f : option nat) :
  tasks_have_projects d → tasks_have_projects (db_after (handler_of req m) d f).
Proof.
  intros Hd.
  destruct (serve_follows _ _ _ d f (handler_keeps_tasks_have_projects req m d Hd))
    as (tr & _ & [H|[_ H]]); exact H.
Qed.

Lemma sample_tasks_have_projects : tasks_have_projects sample_db.
Proof.
  apply (bool_decide_unpack
           (map_Forall (λ _ t, is_Some (db_projects sample_db !! td_project t))
              (db_tasks sample_db))).
  by vm_compute.
Qed.

Lemma tasks_keep_their_project_witness :
  tasks_have_projects (db_after (handler_of as_alice (DeleteProject "p1")) sample_db None).
Proof.
  apply (tasks_keep_their_project as_alice (DeleteProject "p1") sample_db None).
  exact sample_tasks_have_projects.
Defined.

(** * What a request leaves alone *)

Lemma same_except_insert {A} k (x : A) (m : gmap string A) :
  same_except k (<[k := x]> m) m.
Proof. intros k' Hne. by rewrite lookup_insert_ne. Qed.

Lemma same_except_delete {A} k (m : gmap string A) :
  same_except k (delete k m) m.
Proof. intros k' Hne. by rewrite lookup_delete_ne. Qed.

Lemma touched_only_refl req m d : touched_only req m d d.
Proof. split; [done|]. destruct m; simpl; done. Qed.

Lemma handler_touched_only req m d :
  follows d [] (handler_of req m) (λ _ d' _, touched_only req m d d')
    (λ d' _, touched_only req m d d').
Proof.
  destruct m; simpl handler_of;
    unfold post_task, put_task, post_project, put_project, post_member, delete_member,
      delete_task_route, delete_project_route.
  all: follow.
  all: try apply touched_only_refl.
  all: split; [done|]; simpl; split; try done.
  all: try apply same_except_insert.
  all: try apply same_except_delete.
  all: split; [apply map_filter_subseteq|];
    intros k t Hk Hne; by apply map_lookup_filter_Some.
Qed.

(** X20.  A request touches only what it is about.  No route changes the
    users.  A task route changes no project and no task but its own; a
    project route changes no project but its own, and no task at all --
    except the deletion of a project, which only removes tasks and keeps
    every task of another project.  This holds for requests that succeed,
    are refused, or fail half-way. *)
Theorem request_touches_only_its_target (req : Request) (m : Mutating)
    (d : Database) (f : option nat) :
  touched_only req m d (db_after (handler_of req m) d f).
Proof.
  destruct (serve_follows _ _ _ d f (handler_touched_only req m d))
    as (tr & _ & [H|[_ H]]); exact H.
Qed.

Lemma origins_kept_refl d : origins_kept d d.
Proof. intros k. by destruct (db_tasks d !! k). Qed.

Lemma origins_kept_update id t body d :
  db_tasks d !! id = Some t →
  origins_kept d (set_tasks (<[id := apply_updates body t]> (db_tasks d)) d).
Proof.
  intros Ht k. simpl. destruct (decide (k = id)) as [->|Hne].
  - by rewrite Ht, lookup_insert_eq.
  - rewrite lookup_insert_ne by done. by destruct (db_tasks d !! k).
Qed.

Lemma put_task_origins_kept req id body d :
  follows d [] (put_task req id body) (λ _ d' _, origins_kept d d')
    (λ d' _, origins_kept d d').
Proof.
  unfold put_task. follow.
  all: first [ apply origins_kept_refl | by apply origins_kept_update ].
Qed.

(** X21.  Updating a task never creates or deletes a task, and never moves
    a task to another project or changes who created it and when, whatever
    the request body holds. *)
Theorem update_keeps_origin (req : Request) (id : string) (body : UpdateTaskData)
    (d : Database) (f : option nat) :
  origins_kept d (db_after (put_task req id body) d f).
Proof.
  destruct (serve_follows _ _ _ d f (put_task_origins_kept req id body d))
    as (tr & _ & [H|[_ H]]); exact H.
Qed.

Lemma apply_no_updates t : apply_updates (assignee_choice EmptyString) t = t.
Proof. by destruct t. Qed.

Lemma put_nothing_unchanged req id d :
  follows d [] (put_task req id (assignee_choice EmptyString))
    (λ _ d' _, d' = d) (λ d' _, d' = d).
Proof.
  unfold put_task. follow.
  all: rewrite apply_no_updates; unfold set_tasks; rewrite insert_id by done;
    by destruct d.
Qed.

(** X22.  The choice "Unassigned" on a card cannot unassign a task.  The
    page sends it as an update without assignee, and the route then leaves
    every field of the task as it was: the database after the request is the
    database before it.  The request is nevertheless answered with success
    and published as an update of the task. *)
Theorem unassigned_choice_changes_nothing (req : Request) (id : string)
    (d : Database) (f : option nat) (t : TaskDoc) (task : Task.t) :
  db_after (put_task req id (assignee_choice EmptyString)) d f = d
  ∧ (req_valid req = true →
     db_tasks d !! id = Some t →
     belongs (req_user req) (td_project t) d →
     find_task_populated id d = Some task →
     status_of (put_task req id (assignee_choice EmptyString)) d None = 200
     ∧ published_by (put_task req id (assignee_choice EmptyString)) d None
       = [TaskUpdated task]).
Proof.
  split.
  - destruct (serve_follows _ _ _ d f (put_nothing_unchanged req id d))
      as (tr & _ & [H|[_ H]]); exact H.
  - intros Hvalid Ht (p & Hp & Hin) Htask.
    pose proof (find_project_of_member_belongs _ _ _ _ Hp Hin) as Hfind.
    unfold find_task_populated in Htask. rewrite Ht in Htask.
    injection Htask as <-.
    unfold status_of, published_by, trace_of, put_task. rewrite Hvalid. simpl.
    rewrite !serve_query by done. rewrite Ht. simpl.
    rewrite serve_query by done. rewrite Hfind. simpl.
    rewrite apply_no_updates.
    unfold serve, route, start, update_task, populate_task, populate, room_of_task,
      io_emit, respond, bind, query, await, log, ret. simpl.
    assert (set_tasks (<[id := t]> (db_tasks d)) d = d) as ->.
    { unfold set_tasks. rewrite insert_id by done. by destruct d. }
    by rewrite Hp.
Qed.

Lemma unassigned_choice_changes_nothing_witness :
  status_of (put_task as_alice "t1" (assignee_choice EmptyString)) sample_db None = 200
  ∧ published_by (put_task as_alice "t1" (assignee_choice EmptyString)) sample_db None
    = [TaskUpdated landing].
Proof.
  apply (unassigned_choice_changes_nothing as_alice "t1" sample_db None
           (draft "Landing page" "p1" Todo 10) landing); try done.
  exists website. split; [done|]. by left.
Defined.

(** * Projects and their members *)

Lemma find_project_of_owner_owns user id d :
  owns user id d → ∃ p, db_projects d !! id = Some p ∧ pd_owner p = user
                       ∧ find_project_of_owner id user d = Some p.
Proof.
  intros (p & Hp & Howner). exists p. split; [done|]. split; [done|].
  unfold find_project_of_owner. rewrite Hp. simpl.
  by rewrite bool_decide_eq_true_2.
Qed.

(** X23.  When its owner deletes a project and the request is answered with
    success, the project is gone, every task of it is gone, every other task
    is kept, and one project-deleted event has been published.  The deletion
    is not atomic: when removing the project document itself fails, the
    request is answered 500 and the project is still there, but its tasks
    are already deleted and the project-deleted event is already out. *)
Theorem delete_project_cascade (req : Request) (id : string) (d : Database)
    (f : option nat) :
  owns (req_user req) id d →
  let h := delete_project_route req id in
  let rest := filter (λ '(_, t), td_project t ≠ id) (db_tasks d) in
  (f = None → status_of h d f = 200)
  ∧ (status_of h d f = 200 →
       db_projects (db_after h d f) = delete id (db_projects d)
       ∧ db_tasks (db_after h d f) = rest
       ∧ published_by h d f = [ProjectDeleted id])
  ∧ (f = Some 2 →
       status_of h d f = 500
       ∧ db_projects (db_after h d f) = db_projects d
       ∧ db_tasks (db_after h d f) = rest
       ∧ published_by h d f = [ProjectDeleted id]).
Proof.
  intros (p & Hp & Howner & Hfind)%find_project_of_owner_owns h rest.
  unfold h, status_of, db_after, published_by, trace_of, delete_project_route.
  destruct f as [[|[|[|n]]]|];
    unfold serve, route, start, bind, query, await, delete_tasks_of, delete_project,
      io_emit, log, respond, ret; simpl; rewrite ?Hfind; simpl.
  all: repeat split; try done; intros H; discriminate H.
Qed.

Lemma delete_project_cascade_witness :
  let h := delete_project_route as_alice "p1" in
  let rest := filter (λ '(_, t), td_project t ≠ "p1") (db_tasks bigger_db) in
  (Some 2 = None → status_of h bigger_db (Some 2) = 200)
  ∧ (status_of h bigger_db (Some 2) = 200 →
       db_projects (db_after h bigger_db (Some 2)) = delete "p1" (db_projects bigger_db)
       ∧ db_tasks (db_after h bigger_db (Some 2)) = rest
       ∧ published_by h bigger_db (Some 2) = [ProjectDeleted "p1"])
  ∧ (Some 2 = Some 2 →
       status_of h bigger_db (Some 2) = 500
       ∧ db_projects (db_after h bigger_db (Some 2)) = db_projects bigger_db
       ∧ db_tasks (db_after h bigger_db (Some 2)) = rest
       ∧ published_by h bigger_db (Some 2) = [ProjectDeleted "p1"]).
Proof.
  apply (delete_project_cascade as_alice "p1" bigger_db (Some 2)).
  exists website. by split.
Defined.

Lemma find_user_by_email_Some email d uid u :
  find_user_by_email email d = Some (uid, u) →
  db_users d !! uid = Some u ∧ ud_email u = email.
Proof.
  unfold find_user_by_email. intros [Hin Hb]%find_some.
  apply list_elem_of_In, elem_of_map_to_list in Hin.
  by apply bool_decide_eq_true in Hb.
Qed.

Lemma post_member_added req id email d :
  follows d [] (post_member req id email) (member_added req id email d)
    (λ _ _, True).
Proof.
  unfold post_member. follow.
  all: try (intros H; discriminate H).
  intros _. split; [by destruct (req_valid req)|].
  eexists _, _, _. split; [done|]. split; [done|].
  split; [by eapply bool_decide_eq_false_1|]. split; [done|].
  by eexists.
Qed.

Lemma members_in_saved id p d :
  members_in id (set_projects (<[id := p]> (db_projects d)) d) = pd_members p.
Proof. unfold members_in. simpl. by rewrite lookup_insert_eq. Qed.

(** X24.  A user is added to a project at most once.  When adding a member
    is answered with success, the user whose stored e-mail is the normal form
    of the address sent -- what [normalizeEmail()] has made of it -- was no
    member before, is the last of the member list after, and is named by
    the one project-member-added event published; and the same request made
    again is refused with 400 and changes nothing. *)
Theorem member_is_added_once (req : Request) (id email : string) (d : Database)
    (f : option nat) :
  let h := post_member req id email in
  status_of h d f = 200 →
  (∃ uid u, db_users d !! uid = Some u ∧ ud_email u = req_email req email
            ∧ (uid ∉ members_in id d)
            ∧ members_in id (db_after h d f) = members_in id d ++ [uid]
            ∧ ∃ project,
                published_by h d f = [ProjectMemberAdded project (user_of uid u)])
  ∧ refused 400 h (db_after h d f) None.
Proof.
  intros h. subst h. intros Hok.
  destruct (serve_follows _ _ _ d f (post_member_added req id email d))
    as (tr & Htr & [Hadded|[Hr _]]); [|unfold status_of in Hok; by rewrite Hr in Hok].
  destruct (Hadded Hok) as (Hvalid & uid & u & p & Huser & Hfind & Hout & Hdb & project & Hev).
  unfold db_after. rewrite Hdb.
  apply find_project_of_owner_Some in Hfind as [Hp Howner].
  assert (members_in id d = pd_members p) as Hmembers.
  { unfold members_in. by rewrite Hp. }
  split.
  - exists uid, u. destruct (find_user_by_email_Some _ _ _ _ Huser) as [Hu Hemail].
    split; [done|]. split; [done|]. split; [by rewrite Hmembers|].
    split; [by rewrite members_in_saved, Hmembers|].
    exists project. unfold published_by, trace_of. rewrite Htr, published_app, Hev.
    done.
  - unfold post_member. rewrite Hvalid. simpl.
    apply refused_query; [done|].
    unfold find_project_of_owner. simpl. rewrite lookup_insert_eq. simpl.
    rewrite bool_decide_eq_true_2 by done.
    apply refused_query; [done|].
    change (find_user_by_email (req_email req email) (set_projects _ d))
      with (find_user_by_email (req_email req email) d).
    rewrite Huser. simpl. rewrite bool_decide_eq_true_2 by set_solver.
    by apply refused_at_once
      with (body := Message "User is already a member of this project").
Qed.

(** The address may be sent in another spelling than the stored one. *)
Lemma member_is_added_once_witness :
  let h := post_member as_alice "p1" "Carol@Example.org" in
  (∃ uid u, db_users bigger_db !! uid = Some u
            ∧ ud_email u = req_email as_alice "Carol@Example.org"
            ∧ (uid ∉ members_in "p1" bigger_db)
            ∧ members_in "p1" (db_after h bigger_db None)
              = members_in "p1" bigger_db ++ [uid]
            ∧ ∃ project,
                published_by h bigger_db None
                = [ProjectMemberAdded project (user_of uid u)])
  ∧ refused 400 h (db_after h bigger_db None) None.
Proof.
  intros h.
  apply (member_is_added_once as_alice "p1" "Carol@Example.org" bigger_db None).
  by vm_compute.
Defined.

Lemma delete_member_dropped req id memberId d :
  follows d [] (delete_member req id memberId) (member_dropped req id memberId d)
    (λ _ _, True).
Proof.
  unfold delete_member. follow.
  all: try (intros H; discriminate H).
  intros _. eexists. split; [done|].
  split; [by eapply bool_decide_eq_false_1|]. split; [done|]. by eexists.
Qed.

Lemma filter_absent (x : string) (l : list string) :
  x ∉ l → filter (λ m, m ≠ x) l = l.
Proof.
  induction l as [|y l IH]; [done|]. intros Hout.
  apply not_elem_of_cons in Hout as [Hne Hout].
  rewrite filter_cons_True by done. by rewrite IH.
Qed.

(** X25.  When removing a member is answered with success, the member list
    has lost that user and nobody else, one project-member-removed event
    naming the user has been published, and no task has changed: the tasks
    assigned to the removed user stay assigned to them.  Removing a user who
    was no member is answered with success and published all the same,
    though it changes nothing. *)
Theorem removal_takes_only_the_member (req : Request) (id memberId : string)
    (d : Database) (f : option nat) :
  let h := delete_member req id memberId in
  status_of h d f = 200 →
  (∀ u, u ∈ members_in id (db_after h d f) ↔ u ∈ members_in id d ∧ u ≠ memberId)
  ∧ db_tasks (db_after h d f) = db_tasks d
  ∧ (∃ project, published_by h d f = [ProjectMemberRemoved project memberId])
  ∧ (memberId ∉ members_in id d → db_after h d f = d).
Proof.
  intros h. subst h. intros Hok.
  destruct (serve_follows _ _ _ d f (delete_member_dropped req id memberId d))
    as (tr & Htr & [Hdropped|[Hr _]]); [|unfold status_of in Hok; by rewrite Hr in Hok].
  destruct (Hdropped Hok) as (p & Hfind & Hne & Hdb & project & Hev).
  unfold db_after. rewrite Hdb.
  apply find_project_of_owner_Some in Hfind as [Hp Howner].
  assert (members_in id d = pd_members p) as Hmembers.
  { unfold members_in. by rewrite Hp. }
  rewrite members_in_saved, Hmembers. simpl.
  split; [intros u; rewrite list_elem_of_filter; tauto|]. split; [done|].
  split.
  - exists project. unfold published_by, trace_of.
    by rewrite Htr, published_app, Hev.
  - intros Hout. rewrite filter_absent by done.
    assert (with_members (pd_members p) p = p) as -> by (by destruct p).
    unfold set_projects. rewrite insert_id by done. by destruct d.
Qed.

Lemma removal_takes_only_the_member_witness :
  let h := delete_member as_alice "p1" "u3" in
  (∀ u, u ∈ members_in "p1" (db_after h bigger_db None)
        ↔ u ∈ members_in "p1" bigger_db ∧ u ≠ "u3")
  ∧ db_tasks (db_after h bigger_db None) = db_tasks bigger_db
  ∧ (∃ project, published_by h bigger_db None = [ProjectMemberRemoved project "u3"])
  ∧ ("u3" ∉ members_in "p1" bigger_db → db_after h bigger_db None = bigger_db).
Proof.
  intros h.
  apply (removal_takes_only_the_member as_alice "p1" "u3" bigger_db None).
  by vm_compute.
Defined.

(** * The views and the database *)

Lemma depicts_populated d k doc p :
  db_projects d !! td_project doc = Some p →
  depicts d (populate_task_createdBy d
               (populate_task_assignee d (populate_task_project d (task_of k doc))))
    doc.
Proof. intros Hp. unfold depicts. simpl. rewrite Hp. simpl. done. Qed.

Lemma depicts_fetched d k doc :
  depicts d (populate_task_createdBy d (populate_task_assignee d (task_of k doc))) doc.
Proof. unfold depicts. simpl. done. Qed.

Lemma depicts_users d d' t doc :
  db_users d' = db_users d → depicts d t doc → depicts d' t doc.
Proof.
  intros Hu. unfold depicts.
  assert (∀ r, populate_user d' r = populate_user d r) as Hpop.
  { intros [oid|u]; simpl; by rewrite ?Hu. }
  rewrite Hpop. intros (? & ? & ? & ? & Ha & ?). repeat split; try tauto.
  rewrite Ha. destruct (td_assignee doc); simpl; by rewrite ?Hu.
Qed.

Lemma task_route_settled req m d :
  on_tasks m = true →
  follows d [] (handler_of req m) (settled m d) (λ _ _, True).
Proof.
  destruct m; try done; intros _; simpl;
    unfold post_task, put_task, delete_task_route.
  all: follow.
  all: try (left; split; [intros [H|H]; discriminate H | done]).
  - apply find_project_of_member_Some in Heqo as [Hp _].
    pose proof (project_id_stored
      (set_tasks (<[req_oid req := new_task req body]> (db_tasks d)) d)
      (req_oid req) (new_task req body) p Hp) as Hproject.
    right. match goal with |- context [TaskBody ?x] => exists (Created x) end.
    split; [exact Hproject|].
    split; [reflexivity|]. split; [|reflexivity].
    split; [done|]. exists (new_task req body). split; [done|].
    split; [|done]. by apply (depicts_populated _ _ (new_task req body) p).
  - apply find_project_of_member_Some in Heqo0 as [Hp _].
    right. match goal with |- context [TaskBody ?x] => exists (Updated x) end.
    split; [reflexivity|].
    split; [reflexivity|]. split; [|reflexivity].
    exists t, (apply_updates body t). split; [done|]. split; [done|].
    split; [by apply (project_id_stored _ _ (apply_updates body t) p)|].
    split; [|done]. by apply (depicts_populated _ _ (apply_updates body t) p).
  - right. exists (Removed id (td_project t)). split; [done|]. split; [done|].
    split; [|done]. by exists t.
Qed.

Lemma stored_in_insert pid d k doc k' :
  stored_in pid (set_tasks (<[k := doc]> (db_tasks d)) d) k'
  ↔ (k' = k ∧ td_project doc = pid) ∨ (k' ≠ k ∧ stored_in pid d k').
Proof.
  unfold stored_in. simpl. destruct (decide (k' = k)) as [->|Hne].
  - rewrite lookup_insert_eq. naive_solver.
  - rewrite lookup_insert_ne by done. naive_solver.
Qed.

Lemma stored_in_delete pid d k k' :
  stored_in pid (set_tasks (delete k (db_tasks d)) d) k'
  ↔ k' ≠ k ∧ stored_in pid d k'.
Proof.
  unfold stored_in. simpl. setoid_rewrite lookup_delete_Some. naive_solver.
Qed.

Lemma elem_of_ids_prepend task l k :
  k ∈ ids (prepend_if_absent task l) ↔ k = Task._id task ∨ k ∈ ids l.
Proof.
  destruct (decide (Task._id task ∈ ids l)) as [Hin|Hout].
  - rewrite prepend_if_absent_present by done. naive_solver.
  - rewrite prepend_if_absent_absent by done. unfold ids. rewrite fmap_cons.
    apply elem_of_cons.
Qed.

Lemma elem_of_ids_remove taskId l k :
  k ∈ ids (remove_by_id taskId l) ↔ k ≠ taskId ∧ k ∈ ids l.
Proof. rewrite remove_by_id_ids, list_elem_of_filter. done. Qed.

Lemma elem_of_prepend task l t :
  t ∈ prepend_if_absent task l → t = task ∨ t ∈ l.
Proof.
  unfold prepend_if_absent. destruct (exists_in task l); [by right|].
  apply elem_of_cons.
Qed.

Lemma elem_of_replace taskId updated l t :
  t ∈ replace_by_id taskId updated l →
  t = updated ∨ (t ∈ l ∧ Task._id t ≠ taskId).
Proof.
  unfold replace_by_id. rewrite list_elem_of_fmap. intros (t' & -> & Hin).
  case_bool_decide; [by left | by right].
Qed.

Lemma elem_of_remove taskId l t :
  t ∈ remove_by_id taskId l ↔ Task._id t ≠ taskId ∧ t ∈ l.
Proof. unfold remove_by_id. by rewrite list_elem_of_filter. Qed.

Lemma elem_of_ids t l : t ∈ l → Task._id t ∈ ids l.
Proof. intros Hin. unfold ids. apply list_elem_of_fmap. by exists t. Qed.

(** The tasks of a view that a write to another document leaves alone are
    shown as before. *)
Lemma kept_in_sync (pid : string) (l : list Task.t) d d' k :
  db_users d' = db_users d →
  same_except k (db_tasks d') (db_tasks d) →
  (∀ t, t ∈ l → ∃ doc, db_tasks d !! Task._id t = Some doc ∧ depicts d t doc) →
  ∀ t, t ∈ l → Task._id t ≠ k →
       ∃ doc, db_tasks d' !! Task._id t = Some doc ∧ depicts d' t doc.
Proof.
  intros Hu Hsame Hl t Hin Hne. destruct (Hl t Hin) as (doc & Hdoc & Hshows).
  exists doc. split; [by rewrite Hsame|]. by apply (depicts_users d).
Qed.

(** A mutation applied by the REST handler of the view that asked for it. *)
Lemma rest_in_sync pid mu d d' l :
  carried_out mu d d' →
  (∀ task, mu = Created task → project_id task = Some pid) →
  in_sync pid l d → in_sync pid (rest mu l) d'.
Proof.
  intros Hmu Hcreated (Hnd & Hsync & Hshown).
  destruct mu as [task|task|taskId projectId]; simpl in *.
  - destruct Hmu as (Hfresh & doc & Hproject & Hdoc & ->).
    rewrite (Hcreated task eq_refl) in Hproject. injection Hproject as Hproject.
    assert (Task._id task ∉ ids l) as Hout.
    { intros (t & Ht & _)%Hsync. congruence. }
    split; [by apply prepend_if_absent_NoDup|]. split.
    + intros k. rewrite elem_of_ids_prepend, stored_in_insert, (Hsync k).
      split; [|naive_solver]. intros [->|Hk]; [by left|]. right. split; [|done].
      intros ->. destruct Hk as (t & Ht & _). congruence.
    + intros t [->|Hin]%elem_of_prepend.
      * exists doc. simpl. by rewrite lookup_insert_eq.
      * apply (kept_in_sync pid l d _ (Task._id task)); try done.
        -- apply same_except_insert.
        -- intros Heq. apply Hout. rewrite <- Heq. by apply elem_of_ids.
  - destruct Hmu as (t & doc & Ht & Hsame & Hproject & Hdoc & ->).
    split; [by rewrite replace_by_id_ids|]. split.
    + intros k. rewrite replace_by_id_ids by done.
      rewrite stored_in_insert, (Hsync k). unfold stored_in. split.
      * intros (t' & Ht' & Hp). destruct (decide (k = Task._id task)) as [->|Hne];
          [left|right]; naive_solver.
      * intros [[-> Hp]|[_ H]]; [|done]. exists t. split; [done|]. congruence.
    + intros t' [->|[Hin Hne]]%elem_of_replace.
      * exists doc. simpl. by rewrite lookup_insert_eq.
      * apply (kept_in_sync pid l d _ (Task._id task)); try done.
        apply same_except_insert.
  - destruct Hmu as (t & Ht & Hp & ->).
    split; [by apply remove_by_id_NoDup|]. split.
    + intros k. rewrite elem_of_ids_remove, stored_in_delete, (Hsync k). done.
    + intros t' [Hne Hin]%elem_of_remove.
      apply (kept_in_sync pid l d _ taskId); try done.
      apply same_except_delete.
Qed.

(** A mutation applied by the event handler of a view of project [pid]. *)
Lemma push_in_sync pid mu d d' l :
  carried_out mu d d' →
  in_sync pid l d → in_sync pid (push (Some pid) mu l) d'.
Proof.
  intros Hmu Hsync.
  destruct (decide (event_project (echo mu) = Some pid)) as [Hhere|Hother].
  - rewrite (push_is_rest (Some pid) pid) by done.
    apply (rest_in_sync pid mu d); [done| |done].
    by intros task ->.
  - destruct Hsync as (Hnd & Hsync & Hshown).
    assert (∀ k t, k ∈ ids l → db_tasks d !! k = Some t → td_project t = pid)
      as Hown.
    { intros k t (t' & Ht' & Hp)%Hsync Ht. congruence. }
    destruct mu as [task|task|taskId projectId];
      unfold push, echo, on_event; cbn [echo event_project carried_out] in *.
    + unfold on_task_created. rewrite guard_false by done.
      destruct Hmu as (Hfresh & doc & Hproject & Hdoc & ->).
      assert (Task._id task ∉ ids l) as Hout.
      { intros (t & Ht & _)%Hsync. congruence. }
      split; [done|]. split.
      * intros k. rewrite stored_in_insert, (Hsync k). split; [|naive_solver].
        intros Hk. right. split; [|done]. intros ->.
        destruct Hk as (t & Ht & _). congruence.
      * intros t Hin. apply (kept_in_sync pid l d _ (Task._id task)); try done.
        -- apply same_except_insert.
        -- intros Heq. apply Hout. rewrite <- Heq. by apply elem_of_ids.
    + unfold on_task_updated. rewrite guard_false by done.
      destruct Hmu as (t & doc & Ht & Hsame & Hproject & Hdoc & ->).
      assert (Task._id task ∉ ids l) as Hout.
      { intros Hin. apply Hother. rewrite Hproject, Hsame. f_equal.
        by apply (Hown (Task._id task)). }
      split; [done|]. split.
      * intros k. rewrite stored_in_insert, (Hsync k). unfold stored_in. split.
        -- intros (t' & Ht' & Hp). right. split; [|by exists t'].
           intros ->. congruence.
        -- intros [[-> Hp]|[_ H]]; [|done]. congruence.
      * intros t' Hin. apply (kept_in_sync pid l d _ (Task._id task)); try done.
        -- apply same_except_insert.
        -- intros Heq. apply Hout. rewrite <- Heq. by apply elem_of_ids.
    + unfold on_task_deleted. rewrite bool_decide_eq_false_2 by congruence.
      destruct Hmu as (t & Ht & Hp & ->).
      assert (taskId ∉ ids l) as Hout.
      { intros Hin. apply Hother. f_equal. rewrite <- Hp.
        by apply (Hown taskId). }
      split; [done|]. split.
      * intros k. rewrite stored_in_delete, (Hsync k). split; [|naive_solver].
        intros Hk. split; [|done]. intros ->.
        destruct Hk as (t' & Ht' & Hp'). congruence.
      * intros t' Hin. apply (kept_in_sync pid l d _ taskId); try done.
        -- apply same_except_delete.
        -- intros Heq. apply Hout. rewrite <- Heq. by apply elem_of_ids.
Qed.

Lemma find_project_tasks_elem pid d t :
  t ∈ find_project_tasks pid d →
  ∃ k doc, db_tasks d !! k = Some doc ∧ td_project doc = pid
           ∧ t = populate_task_createdBy d (populate_task_assignee d (task_of k doc)).
Proof.
  unfold find_project_tasks. rewrite merge_sort_Permutation, list_elem_of_fmap.
  intros ([k doc] & -> & Hin). apply list_elem_of_filter in Hin as [Hp Hin].
  apply elem_of_map_to_list in Hin. by exists k, doc.
Qed.

Lemma find_project_tasks_in_sync pid d : in_sync pid (find_project_tasks pid d) d.
Proof.
  split; [apply find_project_tasks_NoDup|]. split.
  - intros k. rewrite newest_first_ids, list_elem_of_fmap. unfold stored_in. split.
    + intros ([k' t] & -> & Hin). apply list_elem_of_filter in Hin as [Hp Hin].
      apply elem_of_map_to_list in Hin. by exists t.
    + intros (t & Ht & Hp). exists (k, t). split; [done|].
      apply list_elem_of_filter. split; [done|]. by apply elem_of_map_to_list.
  - intros t (k & doc & Hdoc & _ & ->)%find_project_tasks_elem.
    exists doc. split; [done|]. apply depicts_fetched.
Qed.

(** X27.  The views of the collaborators follow the database.  When a view
    of a project shows exactly the tasks the database holds for the project
    -- each once, with the fields the database has --, and a request on a
    task route -- of any user, on any project -- is answered with anything
    but a server error, then the view that has received the events the
    request published shows exactly the tasks the database holds for the
    project afterwards. *)
Theorem collaborators_stay_in_sync (pid : string) (v : View) (d : Database)
    (req : Request) (m : Mutating) (f : option nat) :
  on_tasks m = true →
  status_of (handler_of req m) d f ≠ 500 →
  in_sync pid (tasks v) d →
  in_sync pid
    (tasks (receive_all (Some pid) (published_by (handler_of req m) d f) v))
    (db_after (handler_of req m) d f).
Proof.
  intros Hm Hstatus Hsync.
  destruct (serve_follows _ _ _ d f (task_route_settled req m d Hm))
    as (tr & Htr & [Hsettled|[Hr _]]); [|unfold status_of in Hstatus; by rewrite Hr in Hstatus].
  unfold published_by, trace_of, db_after. rewrite Htr, published_responded.
  destruct Hsettled as [(_ & -> & ->)|(mu & _ & _ & Hmu & ->)]; [done|].
  by apply (push_in_sync pid mu d).
Qed.

(** What the REST handler of the page makes of the answer to its request. *)
Lemma own_step_settled pid v d req f m :
  on_tasks m = true →
  (∀ body, m = PostTask body → page_request pid v m) →
  let r := (serve (handler_of req m) d f).1 in
  let v' := own_step (server_api (start d f) req) pid m v in
  (¬ succeeded r → tasks v' = tasks v)
  ∧ (∀ mu, asked m mu → answered mu r → tasks v' = rest mu (tasks v)).
Proof.
  intros Hm Hcreate r v'. subst r v'. unfold own_step, serve.
  destruct m as [body|id updates|id| | | | |]; try done.
  - destruct (Hcreate body eq_refl) as [-> Hgo]. unfold handleCreateTask.
    rewrite Hgo. simpl.
    destruct (route _ _) as [[status answer] w]. simpl. rewrite status_201. split.
    + intros Hno. destruct (decide (status = 201)) as [->|Hs];
        [destruct Hno; by right|]. by unfold rejected.
    + intros [task| |]; try done. simpl. by intros _ [= -> ->].
  - unfold handleUpdateTask. simpl.
    destruct (route _ _) as [[status answer] w]. simpl. rewrite status_200. split.
    + intros Hno. destruct (decide (status = 200)) as [->|Hs];
        [destruct Hno; by left|]. by unfold rejected.
    + intros [|task|]; try done. simpl. by intros <- [= -> ->].
  - unfold handleDeleteTask. simpl.
    destruct (route _ _) as [[status answer] w]. simpl. rewrite status_200. split.
    + intros Hno. destruct (decide (status = 200)) as [->|Hs];
        [destruct Hno; by left|]. by unfold rejected.
    + intros [| |taskId projectId]; try done. simpl. by intros -> ->.
Qed.

Lemma page_request_on_tasks pid v m : page_request pid v m → on_tasks m = true.
Proof. by destruct m. Qed.

Lemma in_sync_own_tasks pid l d : in_sync pid l d → own_tasks pid l d.
Proof.
  intros (_ & Hsync & _) k doc (t & Ht & Hp)%Hsync Hdoc. congruence.
Qed.

Lemma paths_agree_in_project pid mu prev :
  event_project (echo mu) = Some pid → paths_agree (Some pid) mu prev.
Proof.
  intros Hp. unfold paths_agree.
  rewrite (push_is_rest (Some pid) pid mu eq_refl Hp), rest_idem. done.
Qed.

(** C2.  For every mutation the server carries out on a request of the page
    -- the creation its form describes, the update or the deletion of a task
    it shows -- the server publishes one event, the echo of the mutation;
    the REST handler of the page applies the update of the answer, the event
    handler applies the update of the echo, and on every task list applying
    the two in either order, or both, gives the list that applying either
    one alone gives. *)
Theorem rest_and_push_agree (pid : string) (v : View) (d : Database)
    (req : Request) (f : option nat) (m : Mutating) :
  own_tasks pid (tasks v) d →
  page_request pid v m →
  succeeded (serve (handler_of req m) d f).1 →
  ∃ mu, published_by (handler_of req m) d f = [echo mu]
        ∧ tasks (own_step (server_api (start d f) req) pid m v) = rest mu (tasks v)
        ∧ (∀ v', receive (Some pid) (echo mu) v' = setTasks (push (Some pid) mu) v')
        ∧ ∀ prev, paths_agree (Some pid) mu prev.
Proof.
  intros Hown Hpage Hok.
  pose proof (page_request_on_tasks pid v m Hpage) as Hm.
  destruct (serve_follows _ _ _ d f (task_route_settled req m d Hm))
    as (tr & Htr & [[(Hno & _)|(mu & Hasked & Hanswer & Hmu & Hev)]|[Hr _]]).
  - done.
  - exists mu. split.
    + unfold published_by, trace_of. by rewrite Htr, published_responded.
    + split.
      * apply (own_step_settled pid v d req f m Hm); [by intros body ->|done..].
      * split; [done|]. intros prev. apply paths_agree_in_project.
        destruct m as [body|id updates|id| | | | |]; try done;
          destruct mu as [task|task|taskId projectId]; try done; simpl in *.
        -- destruct Hpage as [-> _]. done.
        -- destruct Hmu as (t & doc & Ht & Hsame & Hproject & _).
           rewrite Hproject, Hsame. f_equal. subst id. by apply (Hown (Task._id task)).
        -- destruct Hmu as (t & Ht & Hp & _). subst taskId. f_equal.
           rewrite <- Hp. by apply (Hown id).
  - rewrite Hr in Hok. destruct Hok as [H|H]; discriminate H.
Qed.

Lemma own_step_in_sync pid v d req f m :
  on_tasks m = true →
  (∀ body, m = PostTask body → page_request pid v m) →
  status_of (handler_of req m) d f ≠ 500 →
  in_sync pid (tasks v) d →
  in_sync pid (tasks (own_step (server_api (start d f) req) pid m v))
    (db_after (handler_of req m) d f).
Proof.
  intros Hm Hcreate Hstatus Hsync.
  destruct (own_step_settled pid v d req f m Hm Hcreate) as [Hrefused Hdone].
  destruct (serve_follows _ _ _ d f (task_route_settled req m d Hm))
    as (tr & _ & [[(Hno & Hd & _)|(mu & Hasked & Hanswer & Hmu & _)]|[Hr _]]).
  - unfold db_after. rewrite Hd, (Hrefused Hno). done.
  - rewrite (Hdone mu Hasked Hanswer). unfold db_after.
    apply (rest_in_sync pid mu d); [done| |done].
    intros task ->. destruct m as [body| | | | | | |]; try done. simpl in Hasked.
    destruct (Hcreate body eq_refl) as [-> _]. done.
  - unfold status_of in Hstatus. by rewrite Hr in Hstatus.
Qed.

(** X26.  The view of the user who makes a change follows the database
    without waiting for an event.  When the view shows exactly the tasks the
    database holds for its project -- each once, with the fields the
    database has --, then after [handleCreateTask], [handleUpdateTask] or
    [handleDeleteTask] has run against the server, and the server has
    answered with anything but a server error, the view shows exactly the
    tasks the database holds for the project afterwards. *)
Theorem own_changes_stay_in_sync (pid : string) (v : View) (d : Database)
    (req : Request) (f : option nat) (id : string) (updates : UpdateTaskData) :
  in_sync pid (tasks v) d →
  let api := server_api (start d f) req in
  let create := post_task req (create_payload pid (newTask v)) in
  (truthy (Some pid) = true → truthy (Some (ct_title (newTask v))) = true →
   status_of create d f ≠ 500 →
   in_sync pid (tasks (handleCreateTask api (Some pid) v)) (db_after create d f))
  ∧ (status_of (put_task req id updates) d f ≠ 500 →
     in_sync pid (tasks (handleUpdateTask api id updates v))
       (db_after (put_task req id updates) d f))
  ∧ (status_of (delete_task_route req id) d f ≠ 500 →
     in_sync pid (tasks (handleDeleteTask api true id v))
       (db_after (delete_task_route req id) d f)).
Proof.
  intros Hsync api create. subst api create. split; [|split].
  - intros Hpid Htitle Hstatus.
    apply (own_step_in_sync pid v d req f (PostTask (create_payload pid (newTask v))));
      try done.
    intros body [= <-]. split; [done|]. by rewrite Hpid, Htitle.
  - intros Hstatus. by apply (own_step_in_sync pid v d req f (PutTask id updates)).
  - intros Hstatus. by apply (own_step_in_sync pid v d req f (DeleteTask id)).
Qed.

Lemma fetched_view_in_sync : in_sync "p1" (tasks fetched_view) sample_db.
Proof. apply find_project_tasks_in_sync. Qed.

Lemma rest_and_push_agree_witness :
  let m := PutTask "t1" (only_status Done) in
  ∃ mu, published_by (handler_of as_alice m) sample_db None = [echo mu]
        ∧ tasks (own_step (server_api (start sample_db None) as_alice) "p1" m
                   fetched_view)
          = rest mu (tasks fetched_view)
        ∧ (∀ v', receive (Some "p1") (echo mu) v' = setTasks (push (Some "p1") mu) v')
        ∧ ∀ prev, paths_agree (Some "p1") mu prev.
Proof.
  intros m.
  apply (rest_and_push_agree "p1" fetched_view sample_db as_alice None m).
  - apply in_sync_own_tasks, fetched_view_in_sync.
  - apply (bool_decide_unpack ("t1" ∈ ids (tasks fetched_view))). by vm_compute.
  - left. by vm_compute.
Defined.

Lemma collaborators_stay_in_sync_witness :
  let h := handler_of as_bob (PutTask "t1" (only_status Done)) in
  in_sync "p1"
    (tasks (receive_all (Some "p1") (published_by h sample_db None) fetched_view))
    (db_after h sample_db None).
Proof.
  intros h.
  apply (collaborators_stay_in_sync "p1" fetched_view sample_db
           as_bob (PutTask "t1" (only_status Done)) None).
  - reflexivity.
  - vm_compute. intros H. discriminate H.
  - exact fetched_view_in_sync.
Defined.

Lemma own_changes_stay_in_sync_witness :
  let v := fetched_view in
  let api := server_api (start sample_db None) as_alice in
  in_sync "p1" (tasks (handleCreateTask api (Some "p1") v))
    (db_after (post_task as_alice (create_payload "p1" (newTask v))) sample_db None)
  ∧ in_sync "p1" (tasks (handleUpdateTask api "t2" (only_status Done) v))
      (db_after (put_task as_alice "t2" (only_status Done)) sample_db None)
  ∧ in_sync "p1" (tasks (handleDeleteTask api true "t2" v))
      (db_after (delete_task_route as_alice "t2") sample_db None).
Proof.
  intros v api.
  destruct (own_changes_stay_in_sync "p1" v sample_db as_alice None "t2"
              (only_status Done) fetched_view_in_sync) as (Hcreate & Hupdate & Hdelete).
  split; [|split].
  - apply Hcreate; [reflexivity | reflexivity |].
    vm_compute. intros H. discriminate H.
  - apply Hupdate. vm_compute. intros H. discriminate H.
  - apply Hdelete. vm_compute. intros H. discriminate H.
Defined.

(** * The read routes *)

Lemma find_project_tasks_sorted pid d :
  StronglySorted newer_first (find_project_tasks pid d).
Proof. apply StronglySorted_merge_sort; apply _. Qed.

Lemma get_project_tasks_fetched req pid d :
  follows d [] (get_project_tasks req pid) (fetched req pid d)
    (λ d' tr, d' = d ∧ published tr = []).
Proof.
  unfold get_project_tasks. follow.
  split; [done|]. split; [done|]. intros _. split; [done|].
    apply find_project_of_member_Some in Heqo. by exists p.
Qed.

(** X28.  Fetching the tasks of a project changes nothing on the server,
    and when it is answered 200 the user belongs to the project and the view
    that [fetchTasks] leaves shows exactly the tasks the database holds for
    the project: each of them once, no other, each with the fields the
    database has and its assignee and creator resolved, newest first, with
    the loading flag cleared. *)
Theorem fetch_brings_in_sync (pid : string) (v : View) (d : Database)
    (req : Request) (f : option nat) :
  let h := get_project_tasks req pid in
  let v' := fetchTasks (server_api (start d f) req) (Some pid) v in
  no_effect h d f
  ∧ (truthy (Some pid) = true → status_of h d f = 200 →
     belongs (req_user req) pid d
     ∧ in_sync pid (tasks v') d
     ∧ StronglySorted newer_first (tasks v')
     ∧ loading v' = false).
Proof.
  intros h v'. subst h v'.
  destruct (serve_follows _ _ _ d f (get_project_tasks_fetched req pid d))
    as (tr & Htr & Hcases).
  unfold no_effect, db_after, published_by, trace_of, status_of, fetchTasks.
  rewrite Htr, published_responded. simpl.
  fold (serve (get_project_tasks req pid) d f).
  destruct (serve (get_project_tasks req pid) d f) as [r w]. simpl in *.
  destruct Hcases as [(-> & Hquiet & Hok)|[-> [-> Hquiet]]].
  - split; [done|]. intros -> Hstatus. destruct (Hok Hstatus) as [-> Hin].
    simpl. split; [done|]. split; [apply find_project_tasks_in_sync|].
    split; [apply find_project_tasks_sorted|done].
  - split; [done|]. intros _ H. discriminate H.
Qed.

Lemma fetch_brings_in_sync_witness :
  let v' := fetchTasks (server_api (start sample_db None) as_bob) (Some "p1") empty_view in
  belongs (req_user as_bob) "p1" sample_db
  ∧ in_sync "p1" (tasks v') sample_db
  ∧ StronglySorted newer_first (tasks v')
  ∧ loading v' = false.
Proof.
  intros v'.
  destruct (fetch_brings_in_sync "p1" empty_view sample_db as_bob None) as [_ Hfetch].
  apply Hfetch; reflexivity.
Defined.

Lemma projects_of_belongs user d pid :
  pid ∈ projects_of user d ↔ belongs user pid d.
Proof.
  unfold projects_of, belongs. rewrite list_elem_of_fmap. split.
  - intros ([k p] & -> & Hin). apply list_elem_of_filter in Hin as [Hp Hin].
    apply elem_of_map_to_list in Hin. by exists p.
  - intros (p & Hp & Hin). exists (pid, p). split; [done|].
    apply list_elem_of_filter. split; [done|]. by apply elem_of_map_to_list.
Qed.

Lemma find_tasks_visible req q d projects t :
  (∀ p, p ∈ projects → belongs (req_user req) p d) →
  (∀ p, q_project q = Some p → p ≠ EmptyString → projects = [p]) →
  t ∈ find_tasks projects q d → visible req q d t.
Proof.
  intros Hprojects Hasked. unfold find_tasks.
  rewrite merge_sort_Permutation, list_elem_of_fmap.
  intros ([k doc] & -> & Hin). apply list_elem_of_filter in Hin as [Hq Hin].
  apply elem_of_map_to_list in Hin. destruct Hq as (Hp & Hs & Ha).
  exists doc. simpl. split; [done|]. split; [by apply Hprojects|].
  split; [done|]. split; [done|].
  intros p Hqp Hne. rewrite (Hasked p Hqp Hne) in Hp.
  by apply list_elem_of_singleton in Hp.
Qed.

Lemma get_tasks_listed req q d :
  follows d [] (get_tasks req q) (listed req q d)
    (λ d' tr, d' = d ∧ published tr = []).
Proof.
  unfold get_tasks. follow.
  all: split; [done|]; split; [done|]; intros l [= <-].
  all: apply Forall_forall; intros t Ht.
  all: eapply find_tasks_visible; [| |exact Ht].
  - intros p0 ->%list_elem_of_singleton.
    apply find_project_of_member_Some in Heqo0. by exists p.
  - intros p0 Hq _. rewrite Heqo in Hq. by injection Hq as ->.
  - intros p. apply projects_of_belongs.
  - intros p Hq Hne. rewrite Heqo in Hq. injection Hq as ->.
    simpl in Heqb0. by rewrite bool_decide_eq_true_2 in Heqb0.
  - intros p. apply projects_of_belongs.
  - intros p Hq. by rewrite Heqo in Hq.
Qed.

Lemma get_task_shown req id d :
  follows d [] (get_task req id) (shown req id d)
    (λ d' tr, d' = d ∧ published tr = []).
Proof.
  unfold get_task. follow.
  destruct (Task.project t) as [oid|[p|]] eqn:Ep; follow.
  split; [done|]. split; [done|]. intros t' [= <-]. split; [done|].
  unfold find_task_populated in Heqo.
  destruct (db_tasks d !! id) as [doc|] eqn:Edoc; [|done].
  injection Heqo as <-. simpl in Ep.
  destruct (db_projects d !! td_project doc) as [pd|] eqn:Epd; [|done].
  injection Ep as <-. simpl in Heqo0.
  apply find_project_of_member_Some in Heqo0 as [Hp Hin].
  exists doc. split; [done|]. exists p0. split; [done|]. done.
Qed.


Lemma count_status_sum pid d :
  count_status pid Todo d + count_status pid InProgress d + count_status pid Done d
  = length (find_project_tasks pid d).
Proof.
  unfold find_project_tasks, count_status.
  rewrite merge_sort_Permutation, length_fmap.
  induction (map_to_list (db_tasks d)) as [|[k t] l IH]; [done|].
  rewrite !filter_cons. simpl.
  destruct (decide (td_project t = pid)) as [Hp|Hp].
  - destruct (td_status t) eqn:Es;
      repeat (case_decide; try naive_solver); simpl; lia.
  - repeat (case_decide; try naive_solver).
Qed.

Lemma get_project_counted req id d :
  follows d [] (get_project req id) (counted req id d) (λ _ _, True).
Proof.
  unfold get_project. follow.
  intros project counts [= <- <-].
  destruct (find_project_of_member id (req_user req) d) as [pd|] eqn:Efind; [|done].
  injection Heqo as <-. apply find_project_of_member_Some in Efind.
  split; [by exists pd|]. done.
Qed.

(** X29.  The read routes show a user only what belongs to their projects,
    and change nothing.  Every task in an answer of GET /api/tasks is a
    stored task of a project the user owns or is a member of, and it matches
    the project and the status of the query; GET /api/tasks/:id answers with
    the stored task only to such a user; GET /api/projects/:id answers with
    the project only to such a user, and the three counts it adds are
    together the number of tasks of the project. *)
Theorem reads_respect_membership (req : Request) (q : TaskQuery) (id : string)
    (d : Database) (f : option nat) :
  (no_effect (get_tasks req q) d f
   ∧ ∀ l, res_body (serve (get_tasks req q) d f).1 = TasksBody l →
          Forall (visible req q d) l)
  ∧ (no_effect (get_task req id) d f
     ∧ ∀ t, res_body (serve (get_task req id) d f).1 = TaskBody t →
            find_task_populated id d = Some t
            ∧ ∃ doc, db_tasks d !! id = Some doc
                     ∧ belongs (req_user req) (td_project doc) d)
  ∧ (∀ project counts,
       answer_project req id d f = ProjectWithCounts project counts →
       belongs (req_user req) id d
       ∧ Project._id project = id
       ∧ n_todo counts + n_in_progress counts + n_done counts
         = length (find_project_tasks id d)).
Proof.
  split; [|split].
  - destruct (serve_follows _ _ _ d f (get_tasks_listed req q d))
      as (tr & Htr & Hcases).
    unfold no_effect, db_after, published_by, trace_of.
    rewrite Htr, published_responded.
    destruct Hcases as [(-> & Hquiet & Hl)|[Hr [-> Hquiet]]]; [done|].
    split; [done|]. intros l. by rewrite Hr.
  - destruct (serve_follows _ _ _ d f (get_task_shown req id d))
      as (tr & Htr & Hcases).
    unfold no_effect, db_after, published_by, trace_of.
    rewrite Htr, published_responded.
    destruct Hcases as [(-> & Hquiet & Hl)|[Hr [-> Hquiet]]]; [done|].
    split; [done|]. intros l. by rewrite Hr.
  - intros project counts. unfold answer_project.
    destruct (get_project req id (start d f)) as [[a|] w] eqn:Erun; [|done].
    intros ->.
    destruct (get_project_counted req id d (start d f) _ _ eq_refl eq_refl Erun
                project counts eq_refl) as (Hin & Hid & ->).
    split; [done|]. split; [done|]. apply count_status_sum.
Qed.

Lemma reads_respect_membership_witness :
  let q := {| q_project := None; q_status := Some Todo; q_assignee := None |} in
  (∃ l, res_body (serve (get_tasks as_bob q) bigger_db None).1 = TasksBody l
        ∧ length l = 2 ∧ Forall (visible as_bob q bigger_db) l)
  ∧ (∃ project counts,
       answer_project as_bob "p1" bigger_db None = ProjectWithCounts project counts
       ∧ n_todo counts + n_in_progress counts + n_done counts
         = length (find_project_tasks "p1" bigger_db)).
Proof.
  intros q.
  destruct (reads_respect_membership as_bob q "p1" bigger_db None)
    as ((_ & Hlist) & _ & Hcounts).
  split.
  - eexists. split; [by vm_compute|]. split; [reflexivity|].
    apply Hlist. by vm_compute.
  - eexists _, _. split; [by vm_compute|].
    eapply Hcounts. by vm_compute.
Defined.

(** * The rooms of the socket server *)

Lemma room_inj p q : room p = room q → p = q.
Proof. unfold room. intros H. cbv in H. by injection H. Qed.

Lemma members_of_join s p r rooms :
  members_of r (join_project s p rooms)
  = if decide (r = room p) then {[s]} ∪ members_of r rooms else members_of r rooms.
Proof.
  unfold join_project, members_of, Rooms in *. case_decide as Hr.
  - subst r. by rewrite lookup_insert_eq.
  - by rewrite lookup_insert_ne.
Qed.

Lemma members_of_leave s p r rooms :
  members_of r (leave_project s p rooms)
  = if decide (r = room p) then members_of r rooms ∖ {[s]} else members_of r rooms.
Proof.
  unfold leave_project, members_of, Rooms in *. case_decide as Hr.
  - subst r. by rewrite lookup_insert_eq.
  - by rewrite lookup_insert_ne.
Qed.

(** X30.  The rooms keep the projects apart.  A socket that is in no room
    and joins the room of a project is sent an event of a route exactly when
    the event is about that project; once it has left the room again it is
    sent none. *)
Theorem joined_project_is_heard (req : Request) (m : Mutating) (d : Database)
    (f : option nat) (rooms : Rooms) (s : nat) (pid r : string) (e : SocketEvent) :
  (∀ r', s ∉ members_of r' rooms) →
  (r, e) ∈ emissions (trace_of (handler_of req m) d f) →
  (s ∈ members_of r (join_project s pid rooms) ↔ subject e = Some pid)
  ∧ s ∉ members_of r (leave_project s pid (join_project s pid rooms)).
Proof.
  intros Hnowhere He.
  assert (room <$> subject e = Some r) as Hhome.
  { destruct (serve_follows _ _ _ d f (handler_all_home req m d))
      as (tr & Htr & Hcases).
    unfold trace_of in He. rewrite Htr in He.
    assert (all_home d (tr ++ [Responded (serve (handler_of req m) d f).1])) as Hall.
    { apply all_home_passive; [done|]. by destruct Hcases as [H|[_ H]]. }
    unfold all_home in Hall. rewrite Forall_forall in Hall. exact (Hall _ He). }
  rewrite members_of_leave, !members_of_join. split.
  - case_decide as Hr.
    + subst r. split; [intros _|intros _; apply elem_of_union_l, elem_of_singleton_2; reflexivity].
      destruct (subject e) as [p|]; [|done]. simpl in Hhome.
      assert (room p = room pid) as Hp by congruence.
      f_equal. by apply room_inj.
    + split; [intros Hin; by destruct (Hnowhere r)|].
      intros Hs. rewrite Hs in Hhome. simpl in Hhome. congruence.
  - case_decide; [set_solver|apply Hnowhere].
Qed.

Lemma joined_project_is_heard_witness :
  let e := TaskDeleted "t1" "p1" in
  let nobody : Rooms := ∅ in
  (7 ∈ members_of "project-p1" (join_project 7 "p1" nobody) ↔ subject e = Some "p1")
  ∧ 7 ∉ members_of "project-p1" (leave_project 7 "p1" (join_project 7 "p1" nobody)).
Proof.
  intros e nobody.
  apply (joined_project_is_heard as_alice (DeleteTask "t1") sample_db None nobody 7
           "p1" "project-p1" e).
  - intros r'. unfold members_of, nobody, Rooms. rewrite lookup_empty. set_solver.
  - apply (bool_decide_unpack _). by vm_compute.
Defined.
